(** * k8s-resource-cleanup-operator: a shallow embedding of
      [k8s_cleanup_operator.py] and the properties of its reconciliation
      engine.

    The operator scans the workloads of a namespace for the Secrets and
    ConfigMaps they reference, classifies every Secret and ConfigMap as
    excluded, referenced, too young or unused, and deletes the unused ones
    (or only reports them in dry-run mode).

    The Python code is embedded as functions of a state-and-exception monad
    over a [World]: the cluster behind the Kubernetes API, the operator's
    module globals ([CONFIG], [cleanup_handler]), the process environment,
    the clock, and the chronological trace of API requests and log records.
    Definitions keep the names of the source functions they embed. *)

From stdpp Require Import gmap strings list.
From Stdlib Require Import ZArith Ascii.

Local Open Scope string_scope.
Local Open Scope list_scope.
Local Open Scope Z_scope.

(** ** Python strings

    Strings are byte strings; the helpers below are the [str] methods the
    operator calls, on ASCII. *)

(** [s.startswith(prefix)] *)
Fixpoint startswith (s prefix : string) : bool :=
  match prefix, s with
  | EmptyString, _ => true
  | String a prefix', String b s' => Ascii.eqb a b && startswith s' prefix'
  | String _ _, EmptyString => false
  end.

(** [s.endswith(suffix)] *)
Definition endswith (s suffix : string) : bool :=
  startswith (String.rev s) (String.rev suffix).

Definition ascii_lower (c : ascii) : ascii :=
  let n := nat_of_ascii c in
  if ((65 <=? n) && (n <=? 90))%nat then ascii_of_nat (n + 32) else c.

(** [s.lower()] *)
Fixpoint lower (s : string) : string :=
  match s with
  | EmptyString => EmptyString
  | String c s' => String (ascii_lower c) (lower s')
  end.

(** The ASCII characters [str.isspace] accepts. *)
Definition isspace (c : ascii) : bool :=
  let n := nat_of_ascii c in
  (((9 <=? n) && (n <=? 13)) || ((28 <=? n) && (n <=? 32)))%nat.

Fixpoint lstrip (s : string) : string :=
  match s with
  | String c s' => if isspace c then lstrip s' else s
  | EmptyString => EmptyString
  end.

(** [s.strip()] *)
Definition strip (s : string) : string :=
  String.rev (lstrip (String.rev (lstrip s))).

(** [s.split(sep)] for a one-character separator. *)
Fixpoint split (s : string) (sep : ascii) : list string :=
  match s with
  | EmptyString => [EmptyString]
  | String c s' =>
      if Ascii.eqb c sep then EmptyString :: split s' sep
      else match split s' sep with
           | piece :: rest => String c piece :: rest
           | [] => [String c EmptyString]
           end
  end.

(** Iterating a [str] yields its characters as one-character strings. *)
Fixpoint characters (s : string) : list string :=
  match s with
  | EmptyString => []
  | String c s' => String c EmptyString :: characters s'
  end.

(** ** Exceptions and the monad *)

Inductive exn : Type :=
| ApiException (status : Z)   (* kubernetes.client.rest.ApiException *)
| ConfigException             (* kubernetes.config.ConfigException *)
| YAMLError
| KeyError (key : string)
| TypeError
| ValueError
| AttributeError
| OverflowError.

(** [except ApiException] *)
Definition is_ApiException (e : exn) : bool :=
  match e with ApiException _ => true | _ => false end.

(** [except Exception]: every exception of the model is one. *)
Definition is_Exception (e : exn) : bool := true.

Inductive result (A : Type) : Type :=
| Ok (a : A)
| Raise (e : exn).
Arguments Ok {A} a.
Arguments Raise {A} e.

(** A computation over a mutable state [S] that returns or raises.  The
    state survives a raise, as the objects a Python function has mutated
    do. *)
Definition M (S A : Type) : Type := S → result A * S.

Definition ret {S A} (a : A) : M S A := λ s, (Ok a, s).

Definition raise {S A} (e : exn) : M S A := λ s, (Raise e, s).

Definition bind {S A B} (m : M S A) (k : A → M S B) : M S B :=
  λ s, match m s with
       | (Ok a, s') => k a s'
       | (Raise e, s') => (Raise e, s')
       end.

Declare Scope py_scope.
Delimit Scope py_scope with py.
Notation "x <- m ;; k" := (bind m (λ x, k))
  (at level 100, m at next level, right associativity) : py_scope.
Notation "m ;; k" := (bind m (λ _, k))
  (at level 100, right associativity) : py_scope.
Local Open Scope py_scope.

Definition get {S} : M S S := λ s, (Ok s, s).

Definition modify {S} (f : S → S) : M S unit := λ s, (Ok tt, f s).

(** [try: m  except <catches> as e: handler e] *)
Definition try_except {S A} (m : M S A) (catches : exn → bool)
    (handler : exn → M S A) : M S A :=
  λ s, match m s with
       | (Ok a, s') => (Ok a, s')
       | (Raise e, s') => if catches e then handler e s' else (Raise e, s')
       end.

(** [for x in l: body x] *)
Fixpoint for_each {S X} (l : list X) (body : X → M S unit) : M S unit :=
  match l with
  | [] => ret tt
  | x :: l' => body x ;; for_each l' body
  end.

(** [if c: body] *)
Definition when {S} (c : bool) (body : M S unit) : M S unit :=
  if c then body else ret tt.

(** A computation on the second component of the state, run next to a
    local variable (the first component). *)
Definition global {L W A} (m : M W A) : M (L * W) A :=
  λ '(l, w), let '(r, w') := m w in (r, (l, w')).

Definition get_local {L W} : M (L * W) L := λ '(l, w), (Ok l, (l, w)).

Definition modify_local {L W} (f : L → L) : M (L * W) unit :=
  λ '(l, w), (Ok tt, (f l, w)).

(** Runs [m] with a fresh local variable initialised to [init]. *)
Definition with_local {L W A} (init : L) (m : M (L * W) A) : M W A :=
  λ w, let '(r, (_, w')) := m (init, w) in (r, w').

(** ** Values of the configuration dictionary *)

(** The Python values that YAML documents and [CONFIG] hold: [None],
    booleans, integers, strings and lists of strings (the types of the
    recognised options).  Floats and nested mappings are not modelled. *)
Inductive value : Type :=
| VNone
| VBool (b : bool)
| VInt (n : Z)
| VStr (s : string)
| VList (items : list string).

(** What [yaml.safe_load] returns: a mapping, or any other value. *)
Inductive document : Type :=
| YamlMapping (m : gmap string value)
| YamlValue (v : value).

(** Python truthiness, [if v:] *)
Definition truthy (v : value) : bool :=
  match v with
  | VNone => false
  | VBool b => b
  | VInt n => negb (n =? 0)
  | VStr s => negb (String.eqb s "")
  | VList items => match items with [] => false | _ => true end
  end.

(** [for x in v]: the items of a list, the characters of a string. *)
Definition iterate (v : value) : result (list string) :=
  match v with
  | VList items => Ok items
  | VStr s => Ok (characters s)
  | _ => Raise TypeError
  end.

(** ** Dates and times

    A [datetime] is its wall-clock reading in microseconds since
    1970-01-01T00:00:00 together with the UTC offset of its [tzinfo]
    ([None] for a naive datetime); a [timedelta] is a number of
    microseconds. *)
Record datetime : Type := {
  wall_clock : Z;
  tzinfo : option Z;
}.

Definition timezone_utc : Z := 0.

(** [datetime.min] and [datetime.max] (years 1 to 9999). *)
Definition datetime_min : Z := -62135596800000000.
Definition datetime_max : Z := 253402300799999999.

(** [timedelta.min] and [timedelta.max] (999999999 days either way). *)
Definition timedelta_min : Z := -999999999 * 86400000000.
Definition timedelta_max : Z := 999999999 * 86400000000 + 86399999999.

Definition microseconds_per_hour : Z := 3600000000.

(** [d.replace(tzinfo=tz)]: the same wall-clock reading, relabelled. *)
Definition replace_tzinfo (d : datetime) (tz : Z) : datetime :=
  {| wall_clock := wall_clock d; tzinfo := Some tz |}.

(** [timedelta(hours=v)] *)
Definition timedelta_hours (v : value) : result Z :=
  let of_hours (h : Z) :=
    let us := h * microseconds_per_hour in
    if (timedelta_min <=? us) && (us <=? timedelta_max)
    then Ok us else Raise OverflowError in
  match v with
  | VInt h => of_hours h
  | VBool b => of_hours (if b then 1 else 0)
  | _ => Raise TypeError
  end.

(** [d - delta] *)
Definition datetime_sub (d : datetime) (delta : Z) : result datetime :=
  let t := wall_clock d - delta in
  if (datetime_min <=? t) && (t <=? datetime_max)
  then Ok {| wall_clock := t; tzinfo := tzinfo d |}
  else Raise OverflowError.

(** [a < b]: aware datetimes compare by instant, naive ones by wall clock,
    and comparing one of each is a [TypeError]. *)
Definition datetime_lt (a b : datetime) : result bool :=
  match tzinfo a, tzinfo b with
  | Some oa, Some ob => Ok (wall_clock a - oa <? wall_clock b - ob)
  | None, None => Ok (wall_clock a <? wall_clock b)
  | _, _ => Raise TypeError
  end.

(** ** Kubernetes objects

    The fields of the client's model classes that the operator reads.  A
    reference to a named object ([volume.secret.secret_name],
    [env_from.secret_ref.name], ...) is the optional name itself: [None]
    where the source finds the enclosing attribute unset. *)

Record V1ObjectMeta : Type := {
  meta_name : string;
  meta_namespace : string;
  creation_timestamp : option datetime;
  annotations : option (gmap string string);
}.

(** [source.secret.name], [source.config_map.name] *)
Record V1VolumeProjection : Type := {
  projection_secret : option string;
  projection_config_map : option string;
}.

(** [volume.secret.secret_name], [volume.config_map.name],
    [volume.projected.sources] *)
Record V1Volume : Type := {
  volume_secret : option string;
  volume_config_map : option string;
  volume_projected : option (option (list V1VolumeProjection));
}.

(** [value_from.secret_key_ref.name], [value_from.config_map_key_ref.name] *)
Record V1EnvVarSource : Type := {
  secret_key_ref : option string;
  config_map_key_ref : option string;
}.

Record V1EnvVar : Type := {
  value_from : option V1EnvVarSource;
}.

(** [env_from.secret_ref.name], [env_from.config_map_ref.name] *)
Record V1EnvFromSource : Type := {
  secret_ref : option string;
  config_map_ref : option string;
}.

Record V1Container : Type := {
  env : option (list V1EnvVar);
  env_from : option (list V1EnvFromSource);
}.

(** [spec_namespace] is the attribute the source reads as
    [pod_spec.namespace]; the pod spec is taken to carry it, [None] when it
    is unset. *)
Record V1PodSpec : Type := {
  volumes : option (list V1Volume);
  containers : option (list V1Container);
  init_containers : option (list V1Container);
  ephemeral_containers : option (list V1Container);
  image_pull_secrets : option (list string);
  service_account_name : option string;
  spec_namespace : option string;
}.

Record V1Pod : Type := {
  pod_metadata : V1ObjectMeta;
  pod_spec : option V1PodSpec;
}.

(** A Deployment, DaemonSet or StatefulSet: [workload.spec.template.spec]. *)
Record Workload : Type := {
  workload_metadata : V1ObjectMeta;
  template_spec : option V1PodSpec;
}.

Record V1ServiceAccount : Type := {
  service_account_metadata : V1ObjectMeta;
  service_account_secrets : option (list string);
  service_account_image_pull_secrets : option (list string);
}.

Record V1Secret : Type := {
  secret_metadata : V1ObjectMeta;
  secret_type : string;
}.

Record V1ConfigMap : Type := {
  config_map_metadata : V1ObjectMeta;
  data : option (gmap string string);
}.

(** The objects stored behind the API. *)
Record Cluster : Type := {
  pods : list V1Pod;
  deployments : list Workload;
  daemon_sets : list Workload;
  stateful_sets : list Workload;
  service_accounts : list V1ServiceAccount;
  secrets : list V1Secret;
  config_maps : list V1ConfigMap;
}.

(** ** Requests, log records and the world *)

(** The API requests the operator issues. *)
Inductive request : Type :=
| ListNamespacedPod (namespace : string)
| ListNamespacedDeployment (namespace : string)
| ListNamespacedDaemonSet (namespace : string)
| ListNamespacedStatefulSet (namespace : string)
| ReadNamespacedServiceAccount (name namespace : string)
| ListNamespacedSecret (namespace : string)
| ListNamespacedConfigMap (namespace : string)
| DeleteNamespacedSecret (name namespace : string)
| DeleteNamespacedConfigMap (name namespace : string)
| ReadNamespacedConfigMap (name namespace : string)
| PatchNamespacedConfigMap (name namespace : string) (body : V1ConfigMap).

(** The mutating requests. *)
Definition is_delete (r : request) : bool :=
  match r with
  | DeleteNamespacedSecret _ _ | DeleteNamespacedConfigMap _ _ => true
  | _ => false
  end.

Definition is_patch (r : request) : bool :=
  match r with PatchNamespacedConfigMap _ _ _ => true | _ => false end.

Inductive level : Type := INFO | WARNING | ERROR.

(** The log messages of the source, with the values they interpolate. *)
Inductive message : Type :=
| ConfigurationLoaded
| ConfigMapNotFound
| FailedToLoadConfig (e : exn)
| ErrorGettingReferences (namespace : string) (e : exn)
| ErrorGettingUnused (namespace : string) (e : exn)
| StartingCleanup (namespace : string)
| WouldDeleteSecret (namespace name : string)
| DeletedSecret (namespace name : string)
| FailedToDeleteSecret (namespace name : string) (e : exn)
| WouldDeleteConfigMap (namespace name : string)
| DeletedConfigMap (namespace name : string)
| FailedToDeleteConfigMap (namespace name : string) (e : exn)
| CleanupCompleted (namespace : string) (secrets_deleted configmaps_deleted : Z)
| OperatorStarting (config : gmap string value)
| OperatorStarted
| CleanupCRCreated
| TimerTriggered
| HandlerNotInitialized
| StartingCycle
| ErrorCleaningNamespace (namespace : string) (e : exn)
| CycleCompleted (secrets_deleted configmaps_deleted : Z)
| ConfigurationChanged
| NewConfiguration (config : gmap string value)
| ManualCleanupTriggered
| FailedToRemoveAnnotation (e : exn).

Inductive event : Type :=
| Called (r : request)
| Logged (l : level) (m : message).

(** Everything the operator reads and writes.

    - [cluster] holds the objects; [api_faults r] is the HTTP status with
      which the API server rejects request [r], if it does; [patch_merge]
      is how the server merges the body of a patch into the stored object.
    - [in_cluster] tells whether [load_incluster_config] finds the
      service-account credentials.
    - [clock n] is what the [n]-th reading of the system clock shows (UTC,
      microseconds); [clock_reads] counts the readings made so far.
    - [CONFIG] and [cleanup_handler] are the module globals of the source.
    - [events] is the trace of requests and log records, oldest first. *)
Record World : Type := {
  cluster : Cluster;
  api_faults : request → option Z;
  patch_merge : V1ConfigMap → V1ConfigMap → V1ConfigMap;
  in_cluster : bool;
  environ : gmap string string;
  clock : nat → Z;
  clock_reads : nat;
  CONFIG : gmap string value;
  cleanup_handler : bool;
  events : list event;
}.

Definition set_cluster (c : Cluster) (w : World) : World :=
  {| cluster := c; api_faults := api_faults w; patch_merge := patch_merge w;
     in_cluster := in_cluster w; environ := environ w; clock := clock w;
     clock_reads := clock_reads w; CONFIG := CONFIG w;
     cleanup_handler := cleanup_handler w; events := events w |}.

Definition set_clock_reads (n : nat) (w : World) : World :=
  {| cluster := cluster w; api_faults := api_faults w;
     patch_merge := patch_merge w; in_cluster := in_cluster w;
     environ := environ w; clock := clock w; clock_reads := n;
     CONFIG := CONFIG w; cleanup_handler := cleanup_handler w;
     events := events w |}.

Definition set_CONFIG (config : gmap string value) (w : World) : World :=
  {| cluster := cluster w; api_faults := api_faults w;
     patch_merge := patch_merge w; in_cluster := in_cluster w;
     environ := environ w; clock := clock w; clock_reads := clock_reads w;
     CONFIG := config; cleanup_handler := cleanup_handler w;
     events := events w |}.

Definition set_cleanup_handler (h : bool) (w : World) : World :=
  {| cluster := cluster w; api_faults := api_faults w;
     patch_merge := patch_merge w; in_cluster := in_cluster w;
     environ := environ w; clock := clock w; clock_reads := clock_reads w;
     CONFIG := CONFIG w; cleanup_handler := h; events := events w |}.

Definition set_events (evs : list event) (w : World) : World :=
  {| cluster := cluster w; api_faults := api_faults w;
     patch_merge := patch_merge w; in_cluster := in_cluster w;
     environ := environ w; clock := clock w; clock_reads := clock_reads w;
     CONFIG := CONFIG w; cleanup_handler := cleanup_handler w;
     events := evs |}.

Definition record (ev : event) : M World unit :=
  modify (λ w, set_events (events w ++ [ev]) w).

Definition logger_info (m : message) : M World unit := record (Logged INFO m).
Definition logger_warning (m : message) : M World unit :=
  record (Logged WARNING m).
Definition logger_error (m : message) : M World unit :=
  record (Logged ERROR m).

(** [CONFIG[key]] *)
Definition config_get (key : string) : M World value :=
  λ w, match CONFIG w !! key with
       | Some v => (Ok v, w)
       | None => (Raise (KeyError key), w)
       end.

(** Lifts a pure partial operation. *)
Definition lift_result {S A} (r : result A) : M S A := λ s, (r, s).

(** [datetime.now(timezone.utc)] *)
Definition datetime_now_utc : M World datetime :=
  λ w, (Ok {| wall_clock := clock w (clock_reads w);
              tzinfo := Some timezone_utc |},
        set_clock_reads (S (clock_reads w)) w).

(** ** The API client

    A request is recorded in the trace; the server rejects it with
    [ApiException] when [api_faults] says so and serves it from the
    cluster otherwise.  Reading or deleting an object that does not exist
    is answered with status 404, which the client raises as
    [ApiException] like every other error status. *)
Definition api_call {A} (r : request)
    (serve : World → Cluster → result A * Cluster) : M World A :=
  record (Called r) ;;
  λ w, match api_faults w r with
       | Some status => (Raise (ApiException status), w)
       | None => let '(res, c) := serve w (cluster w) in (res, set_cluster c w)
       end.

(** The answer to a request that reads [f] off the cluster. *)
Definition answer {A} (w : World) (r : request) (f : Cluster → result A)
    : result A :=
  match api_faults w r with
  | Some status => Raise (ApiException status)
  | None => f (cluster w)
  end.

Definition in_namespace (namespace : string) (m : V1ObjectMeta) : bool :=
  String.eqb (meta_namespace m) namespace.

Definition is_named (name namespace : string) (m : V1ObjectMeta) : bool :=
  String.eqb (meta_name m) name && String.eqb (meta_namespace m) namespace.

Definition list_namespaced_pod (namespace : string) : M World (list V1Pod) :=
  api_call (ListNamespacedPod namespace) (λ _ c,
    (Ok (filter (λ p, in_namespace namespace (pod_metadata p)) (pods c)), c)).

Definition list_namespaced_deployment (namespace : string)
    : M World (list Workload) :=
  api_call (ListNamespacedDeployment namespace) (λ _ c,
    (Ok (filter (λ d, in_namespace namespace (workload_metadata d))
           (deployments c)), c)).

Definition list_namespaced_daemon_set (namespace : string)
    : M World (list Workload) :=
  api_call (ListNamespacedDaemonSet namespace) (λ _ c,
    (Ok (filter (λ d, in_namespace namespace (workload_metadata d))
           (daemon_sets c)), c)).

Definition list_namespaced_stateful_set (namespace : string)
    : M World (list Workload) :=
  api_call (ListNamespacedStatefulSet namespace) (λ _ c,
    (Ok (filter (λ d, in_namespace namespace (workload_metadata d))
           (stateful_sets c)), c)).

Definition read_namespaced_service_account (name namespace : string)
    : M World V1ServiceAccount :=
  api_call (ReadNamespacedServiceAccount name namespace) (λ _ c,
    (match List.find
             (λ sa, is_named name namespace (service_account_metadata sa))
             (service_accounts c) with
     | Some sa => Ok sa
     | None => Raise (ApiException 404)
     end, c)).

Definition list_namespaced_secret (namespace : string)
    : M World (list V1Secret) :=
  api_call (ListNamespacedSecret namespace) (λ _ c,
    (Ok (filter (λ s, in_namespace namespace (secret_metadata s)) (secrets c)),
     c)).

Definition list_namespaced_config_map (namespace : string)
    : M World (list V1ConfigMap) :=
  api_call (ListNamespacedConfigMap namespace) (λ _ c,
    (Ok (filter (λ m, in_namespace namespace (config_map_metadata m))
           (config_maps c)), c)).

Definition with_secrets (l : list V1Secret) (c : Cluster) : Cluster :=
  {| pods := pods c; deployments := deployments c;
     daemon_sets := daemon_sets c; stateful_sets := stateful_sets c;
     service_accounts := service_accounts c; secrets := l;
     config_maps := config_maps c |}.

Definition with_config_maps (l : list V1ConfigMap) (c : Cluster) : Cluster :=
  {| pods := pods c; deployments := deployments c;
     daemon_sets := daemon_sets c; stateful_sets := stateful_sets c;
     service_accounts := service_accounts c; secrets := secrets c;
     config_maps := l |}.

Definition delete_namespaced_secret (name namespace : string) : M World unit :=
  api_call (DeleteNamespacedSecret name namespace) (λ _ c,
    if existsb (λ s, is_named name namespace (secret_metadata s)) (secrets c)
    then (Ok tt,
          with_secrets
            (filter (λ s, negb (is_named name namespace (secret_metadata s)))
               (secrets c)) c)
    else (Raise (ApiException 404), c)).

Definition delete_namespaced_config_map (name namespace : string)
    : M World unit :=
  api_call (DeleteNamespacedConfigMap name namespace) (λ _ c,
    if existsb (λ m, is_named name namespace (config_map_metadata m))
         (config_maps c)
    then (Ok tt,
          with_config_maps
            (filter
               (λ m, negb (is_named name namespace (config_map_metadata m)))
               (config_maps c)) c)
    else (Raise (ApiException 404), c)).

Definition read_namespaced_config_map (name namespace : string)
    : M World V1ConfigMap :=
  api_call (ReadNamespacedConfigMap name namespace) (λ _ c,
    (match List.find (λ m, is_named name namespace (config_map_metadata m))
             (config_maps c) with
     | Some m => Ok m
     | None => Raise (ApiException 404)
     end, c)).

Definition patch_namespaced_config_map (name namespace : string)
    (body : V1ConfigMap) : M World unit :=
  api_call (PatchNamespacedConfigMap name namespace body) (λ w c,
    if existsb (λ m, is_named name namespace (config_map_metadata m))
         (config_maps c)
    then (Ok tt,
          with_config_maps
            (map (λ m, if is_named name namespace (config_map_metadata m)
                       then patch_merge w m body else m)
               (config_maps c)) c)
    else (Raise (ApiException 404), c)).

(** [kubernetes.config.load_incluster_config()] *)
Definition load_incluster_config : M World unit :=
  λ w, if in_cluster w then (Ok tt, w) else (Raise ConfigException, w).

(** ** Library functions

    [fnmatch.fnmatch] and [yaml.safe_load] are imported by the operator;
    the development is parametric in them.  [yaml_safe_load] raises
    [YAMLError] on a malformed document. *)
Class PythonLibrary : Type := {
  fnmatch : string → string → bool;
  yaml_safe_load : string → result document;
}.

Definition digit (c : ascii) : option Z :=
  let n := nat_of_ascii c in
  if ((48 <=? n) && (n <=? 57))%nat then Some (Z.of_nat n - 48) else None.

(** Digits with single underscores between them. *)
Fixpoint digits (s : string) (acc : Z) (after_digit : bool) : option Z :=
  match s with
  | EmptyString => if after_digit then Some acc else None
  | String c s' =>
      if Ascii.eqb c "_"
      then (if after_digit then digits s' acc false else None)
      else match digit c with
           | Some d => digits s' (10 * acc + d) true
           | None => None
           end
  end.

(** [int(s)] for a string: optional surrounding whitespace, an optional
    sign, decimal digits; [ValueError] otherwise. *)
Definition int (s : string) : result Z :=
  let parsed :=
    match strip s with
    | String "+" s' => digits s' 0 false
    | String "-" s' => Z.opp <$> digits s' 0 false
    | s' => digits s' 0 false
    end in
  match parsed with
  | Some n => Ok n
  | None => Raise ValueError
  end.

(** ** The operator *)

(** The [references] dictionary: two sets of names. *)
Record References : Type := {
  ref_secrets : gset string;
  ref_configmaps : gset string;
}.

(** The [unused] dictionary: two lists of names. *)
Record Unused : Type := {
  unused_secrets : list string;
  unused_configmaps : list string;
}.

(** The [results] dictionary: two counters. *)
Record Results : Type := {
  secrets_deleted : Z;
  configmaps_deleted : Z;
}.

(** The Python idiom [x or y] on an optional string. *)
Definition or_else (x : option string) (y : string) : string :=
  match x with
  | Some s => if String.eqb s "" then y else s
  | None => y
  end.

(** [if x: body x] on an optional object. *)
Definition if_set {S X} (x : option X) (body : X → M S unit) : M S unit :=
  match x with
  | Some v => body v
  | None => ret tt
  end.

(** An unset or empty collection is falsy; guarding a loop with [if l:]
    or iterating [l or []] both amount to iterating these items. *)
Definition items {X} (l : option (list X)) : list X := default [] l.

(** [references['secrets'].add(name)] *)
Definition add_secret (name : string) : M (References * World) unit :=
  modify_local (λ r, {| ref_secrets := {[name]} ∪ ref_secrets r;
                        ref_configmaps := ref_configmaps r |}).

(** [references['configmaps'].add(name)] *)
Definition add_configmap (name : string) : M (References * World) unit :=
  modify_local (λ r, {| ref_secrets := ref_secrets r;
                        ref_configmaps := {[name]} ∪ ref_configmaps r |}).

Definition _extract_references_from_pod_spec (pod_spec : option V1PodSpec)
    : M (References * World) unit :=
  match pod_spec with
  | None => ret tt
  | Some pod_spec =>
      (* Check volumes *)
      for_each (items (volumes pod_spec)) (λ volume,
        if_set (volume_secret volume) add_secret ;;
        if_set (volume_config_map volume) add_configmap ;;
        if_set (volume_projected volume) (λ sources,
          for_each (items sources) (λ source,
            if_set (projection_secret source) add_secret ;;
            if_set (projection_config_map source) add_configmap))) ;;
      (* Check containers and init containers *)
      let all_containers :=
        (items (containers pod_spec) ++ items (init_containers pod_spec)
           ++ items (ephemeral_containers pod_spec))%list in
      for_each all_containers (λ container,
        for_each (items (env container)) (λ env_var,
          if_set (value_from env_var) (λ source,
            if_set (secret_key_ref source) add_secret ;;
            if_set (config_map_key_ref source) add_configmap)) ;;
        for_each (items (env_from container)) (λ source,
          if_set (secret_ref source) add_secret ;;
          if_set (config_map_ref source) add_configmap)) ;;
      (* Check image pull secrets *)
      for_each (items (image_pull_secrets pod_spec)) add_secret ;;
      (* Check service account *)
      when (negb (String.eqb (or_else (service_account_name pod_spec) "") ""))
        (try_except
           (sa <- global (read_namespaced_service_account
                            (or_else (service_account_name pod_spec) "")
                            (or_else (spec_namespace pod_spec) "default")) ;;
            for_each (items (service_account_secrets sa)) add_secret ;;
            for_each (items (service_account_image_pull_secrets sa)) add_secret)
           is_ApiException (λ _, ret tt))
  end.

(** The four parts of the [try] block of [get_resource_references]. *)
Definition scan_pods (namespace : string) : M (References * World) unit :=
  pods <- global (list_namespaced_pod namespace) ;;
  for_each pods (λ pod, _extract_references_from_pod_spec (pod_spec pod)).

(** [for workload in workloads.items:
       if workload.spec.template.spec: self._extract_...(...)] *)
Definition scan_templates (workloads : list Workload)
    : M (References * World) unit :=
  for_each workloads (λ workload,
    if_set (template_spec workload) (λ spec,
      _extract_references_from_pod_spec (Some spec))).

Definition scan_deployments (namespace : string)
    : M (References * World) unit :=
  deployments <- global (list_namespaced_deployment namespace) ;;
  scan_templates deployments.

Definition scan_daemonsets (namespace : string)
    : M (References * World) unit :=
  daemonsets <- global (list_namespaced_daemon_set namespace) ;;
  scan_templates daemonsets.

Definition scan_statefulsets (namespace : string)
    : M (References * World) unit :=
  statefulsets <- global (list_namespaced_stateful_set namespace) ;;
  scan_templates statefulsets.

(** The [try] block of [get_resource_references]. *)
Definition scan_workloads (namespace : string) : M (References * World) unit :=
  scan_pods namespace ;;
  scan_deployments namespace ;;
  scan_daemonsets namespace ;;
  scan_statefulsets namespace.

Definition no_references : References :=
  {| ref_secrets := ∅; ref_configmaps := ∅ |}.

Definition get_resource_references (namespace : string) : M World References :=
  with_local no_references
    (try_except (scan_workloads namespace) is_ApiException
       (λ e, global (logger_error (ErrorGettingReferences namespace e))) ;;
     get_local).

Definition system_secret_types : list string :=
  ["kubernetes.io/service-account-token"; "kubernetes.io/dockercfg";
   "kubernetes.io/dockerconfigjson"].

(** [x in l] for a list of strings. *)
Definition str_in (x : string) (l : list string) : bool :=
  existsb (String.eqb x) l.

(** [name not in references and
     creation_timestamp.replace(tzinfo=timezone.utc) < cutoff_time]:
    [and] does not evaluate its right operand when the left one is false. *)
Definition unreferenced_and_old {S} (name : string) (references : gset string)
    (timestamp : option datetime) (cutoff_time : datetime) : M S bool :=
  if bool_decide (name ∈ references) then ret false
  else match timestamp with
       | None => raise AttributeError
       | Some t =>
           lift_result (datetime_lt (replace_tzinfo t timezone_utc) cutoff_time)
       end.

Definition append_secret (name : string) : M (Unused * World) unit :=
  modify_local (λ u, {| unused_secrets := (unused_secrets u ++ [name])%list;
                        unused_configmaps := unused_configmaps u |}).

Definition append_configmap (name : string) : M (Unused * World) unit :=
  modify_local (λ u, {| unused_secrets := unused_secrets u;
                        unused_configmaps := (unused_configmaps u ++ [name])%list |}).

Section Operator.
Context `{PythonLibrary}.

Definition should_exclude_resource (name resource_type : string)
    : M World bool :=
  exclude_patterns <- config_get "exclude_patterns" ;;
  patterns <- lift_result (iterate exclude_patterns) ;;
  if existsb (λ pattern, fnmatch name pattern) patterns then ret true
  else if String.eqb resource_type "secret"
            && (startswith name "default-token-" || endswith name "-token")
       then ret true
       else ret false.

(** The body of the loop over the Secrets of the namespace. *)
Definition check_secret (references : References) (cutoff_time : datetime)
    (secret : V1Secret) : M (Unused * World) unit :=
  let name := meta_name (secret_metadata secret) in
  excluded <- global (should_exclude_resource name "secret") ;;
  if excluded then ret tt
  else if str_in (secret_type secret) system_secret_types then ret tt
  else
    unused <- unreferenced_and_old name (ref_secrets references)
                (creation_timestamp (secret_metadata secret)) cutoff_time ;;
    when unused (append_secret name).

(** The body of the loop over the ConfigMaps of the namespace. *)
Definition check_configmap (references : References) (cutoff_time : datetime)
    (configmap : V1ConfigMap) : M (Unused * World) unit :=
  let name := meta_name (config_map_metadata configmap) in
  excluded <- global (should_exclude_resource name "configmap") ;;
  if excluded then ret tt
  else
    unused <- unreferenced_and_old name (ref_configmaps references)
                (creation_timestamp (config_map_metadata configmap))
                cutoff_time ;;
    when unused (append_configmap name).

(** [datetime.now(timezone.utc) -
     timedelta(hours=CONFIG['unused_threshold_hours'])] *)
Definition compute_cutoff_time : M World datetime :=
  now <- datetime_now_utc ;;
  hours <- config_get "unused_threshold_hours" ;;
  delta <- lift_result (timedelta_hours hours) ;;
  lift_result (datetime_sub now delta).

Definition no_unused : Unused :=
  {| unused_secrets := []; unused_configmaps := [] |}.

(** The [try] statement of [get_unused_resources] and the [return] that
    follows it. *)
Definition classify_resources (namespace : string) (references : References)
    (cutoff_time : datetime) : M World Unused :=
  with_local no_unused
    (try_except
       (secrets <- global (list_namespaced_secret namespace) ;;
        for_each secrets (check_secret references cutoff_time) ;;
        configmaps <- global (list_namespaced_config_map namespace) ;;
        for_each configmaps (check_configmap references cutoff_time))
       is_ApiException
       (λ e, global (logger_error (ErrorGettingUnused namespace e))) ;;
     get_local).

Definition get_unused_resources (namespace : string) : M World Unused :=
  cutoff_time <- compute_cutoff_time ;;
  references <- get_resource_references namespace ;;
  classify_resources namespace references cutoff_time.

Definition count_secret : M (Results * World) unit :=
  modify_local (λ r, {| secrets_deleted := secrets_deleted r + 1;
                        configmaps_deleted := configmaps_deleted r |}).

Definition count_configmap : M (Results * World) unit :=
  modify_local (λ r, {| secrets_deleted := secrets_deleted r;
                        configmaps_deleted := configmaps_deleted r + 1 |}).

(** The [try] statement in the loop over [unused_resources['secrets']]. *)
Definition try_delete_secret (namespace secret_name : string)
    : M (Results * World) unit :=
  try_except
    (dry_run <- global (config_get "dry_run") ;;
     (if truthy dry_run
      then global (logger_info (WouldDeleteSecret namespace secret_name))
      else global (delete_namespaced_secret secret_name namespace) ;;
           global (logger_info (DeletedSecret namespace secret_name))) ;;
     count_secret)
    is_ApiException
    (λ e, global (logger_error
                    (FailedToDeleteSecret namespace secret_name e))).

(** The loop over [unused_resources['secrets']]. *)
Definition delete_unused_secrets (namespace : string) (names : list string)
    : M (Results * World) unit :=
  for_each names (try_delete_secret namespace).

(** The [try] statement in the loop over [unused_resources['configmaps']]. *)
Definition try_delete_configmap (namespace configmap_name : string)
    : M (Results * World) unit :=
  try_except
    (dry_run <- global (config_get "dry_run") ;;
     (if truthy dry_run
      then global (logger_info
                     (WouldDeleteConfigMap namespace configmap_name))
      else global (delete_namespaced_config_map configmap_name namespace) ;;
           global (logger_info (DeletedConfigMap namespace configmap_name))) ;;
     count_configmap)
    is_ApiException
    (λ e, global (logger_error
                    (FailedToDeleteConfigMap namespace configmap_name e))).

(** The loop over [unused_resources['configmaps']]. *)
Definition delete_unused_configmaps (namespace : string) (names : list string)
    : M (Results * World) unit :=
  for_each names (try_delete_configmap namespace).

Definition no_results : Results :=
  {| secrets_deleted := 0; configmaps_deleted := 0 |}.

(** [cleanup_namespace] from the point where the unused resources are
    known: the two deletion loops and the summary. *)
Definition delete_unused (namespace : string) (unused_resources : Unused)
    : M World Results :=
  with_local no_results
    (delete_unused_secrets namespace (unused_secrets unused_resources) ;;
     delete_unused_configmaps namespace (unused_configmaps unused_resources) ;;
     results <- get_local ;;
     global (logger_info (CleanupCompleted namespace (secrets_deleted results)
                            (configmaps_deleted results))) ;;
     ret results).

Definition cleanup_namespace (namespace : string) : M World Results :=
  logger_info (StartingCleanup namespace) ;;
  unused_resources <- get_unused_resources namespace ;;
  delete_unused namespace unused_resources.

Definition add_results (results : Results) : M (Results * World) unit :=
  modify_local (λ total,
    {| secrets_deleted := secrets_deleted total + secrets_deleted results;
       configmaps_deleted :=
         configmaps_deleted total + configmaps_deleted results |}).

(** The [try] statement in the loop of [perform_cleanup]. *)
Definition try_cleanup_namespace (namespace : string)
    : M (Results * World) unit :=
  try_except
    (results <- global (cleanup_namespace namespace) ;; add_results results)
    is_Exception
    (λ e, global (logger_error (ErrorCleaningNamespace namespace e))).

Definition perform_cleanup : M World unit :=
  handler <- (λ w, (Ok (cleanup_handler w), w)) ;;
  if negb handler then logger_warning HandlerNotInitialized
  else
    logger_info StartingCycle ;;
    with_local no_results
      (namespaces <- global (config_get "namespaces") ;;
       namespaces <- lift_result (iterate namespaces) ;;
       for_each namespaces try_cleanup_namespace ;;
       total_results <- get_local ;;
       global (logger_info (CycleCompleted (secrets_deleted total_results)
                              (configmaps_deleted total_results)))).

(** [CONFIG[key] = v] *)
Definition config_set (key : string) (v : value) : M World unit :=
  modify (λ w, set_CONFIG (<[key := v]> (CONFIG w)) w).

(** [CONFIG.update(config_data)]: a mapping is merged key by key; any
    other iterable must yield two-element sequences, each stored as it is
    reached; anything else is not iterable. *)
Definition dict_update (config_data : document) : M World unit :=
  match config_data with
  | YamlMapping m => modify (λ w, set_CONFIG (m ∪ CONFIG w) w)
  | YamlValue (VList pairs) =>
      for_each pairs (λ pair,
        match pair with
        | String k (String v EmptyString) =>
            config_set (String k EmptyString) (VStr (String v EmptyString))
        | _ => raise ValueError
        end)
  | YamlValue (VStr s) =>
      for_each (characters s) (λ _, raise ValueError)
  | YamlValue _ => raise TypeError
  end.

(** The inner [try] block of [load_config]. *)
Definition load_from_config_map : M World unit :=
  config_map <- read_namespaced_config_map
                  "cleanup-operator-config" "cleanup-system" ;;
  match data config_map with
  | None => raise TypeError
  | Some d =>
      if_set (d !! "config.yaml") (λ text,
        config_data <- lift_result (yaml_safe_load text) ;;
        dict_update config_data ;;
        logger_info ConfigurationLoaded)
  end.

(** The overrides of [load_config] from the environment. *)
Definition override_from_environment : M World unit :=
  os_environ <- (λ w, (Ok (environ w), w)) ;;
  if_set (os_environ !! "CLEANUP_NAMESPACES") (λ s,
    config_set "namespaces" (VList (map strip (split s ",")))) ;;
  if_set (os_environ !! "CLEANUP_INTERVAL") (λ s,
    n <- lift_result (int s) ;;
    config_set "cleanup_interval" (VInt n)) ;;
  if_set (os_environ !! "DRY_RUN") (λ s,
    config_set "dry_run" (VBool (String.eqb (lower s) "true"))).

Definition load_config : M World unit :=
  try_except
    (load_incluster_config ;;
     try_except load_from_config_map is_ApiException
       (λ _, logger_info ConfigMapNotFound) ;;
     (* Override with environment variables if present *)
     override_from_environment)
    is_Exception (λ e, logger_warning (FailedToLoadConfig e)).

(** ** The handlers *)

Definition startup_handler : M World unit :=
  load_config ;;
  config <- (λ w, (Ok (CONFIG w), w)) ;;
  logger_info (OperatorStarting config) ;;
  modify (set_cleanup_handler true) ;;
  logger_info OperatorStarted.

Definition create_fn : M World string :=
  logger_info CleanupCRCreated ;;
  perform_cleanup ;;
  ret "Cleanup triggered manually".

Definition cleanup_timer : M World unit :=
  logger_info TimerTriggered ;;
  perform_cleanup.

Definition config_change_handler (event_type : string) : M World unit :=
  when (str_in event_type ["ADDED"; "MODIFIED"])
    (logger_info ConfigurationChanged ;;
     load_config ;;
     config <- (λ w, (Ok (CONFIG w), w)) ;;
     logger_info (NewConfiguration config)).

Definition trigger_annotation : string := "cleanup.operator/trigger".

(** [config_map.metadata.annotations.pop('cleanup.operator/trigger', None)] *)
Definition pop_trigger (config_map : V1ConfigMap) : V1ConfigMap :=
  let metadata := config_map_metadata config_map in
  {| config_map_metadata :=
       {| meta_name := meta_name metadata;
          meta_namespace := meta_namespace metadata;
          creation_timestamp := creation_timestamp metadata;
          annotations := delete trigger_annotation <$> annotations metadata |};
     data := data config_map |}.

(** The [try] block of [manual_trigger_handler]. *)
Definition remove_trigger_annotation : M World unit :=
  config_map <- read_namespaced_config_map
                  "cleanup-operator-config" "cleanup-system" ;;
  when (negb (bool_decide
                (default ∅ (annotations (config_map_metadata config_map))
                 = ∅)))
    (patch_namespaced_config_map
       "cleanup-operator-config" "cleanup-system" (pop_trigger config_map)).

(** The arguments [old] and [new] are the annotations of the object before
    and after the update ([new.get('metadata', {}).get('annotations', {})]),
    [None] when the body has none. *)
Definition manual_trigger_handler
    (old new : option (gmap string string)) : M World unit :=
  when (bool_decide (default ∅ new !! trigger_annotation = Some "now"))
    (logger_info ManualCleanupTriggered ;;
     perform_cleanup ;;
     (* Remove the trigger annotation to prevent duplicate runs *)
     try_except remove_trigger_annotation is_Exception
       (λ e, logger_error (FailedToRemoveAnnotation e))).

End Operator.

(** The value of [CONFIG] when the module is loaded. *)
Definition default_CONFIG : gmap string value :=
  {[ "namespaces" := VList ["default"];
     "cleanup_interval" := VInt 3600;
     "unused_threshold_hours" := VInt 1;
     "dry_run" := VBool false;
     "exclude_patterns" := VList ["kube-*"; "default-token-*"] ]}.

(** ** A library instance and sample worlds for the examples *)

(** Glob matching for patterns made of literal characters, [*] and [?],
    on which [fnmatch.fnmatch] is this function. *)
Fixpoint glob (pattern : string) : string → bool :=
  match pattern with
  | EmptyString => λ name, String.eqb name ""
  | String c pattern' =>
      if Ascii.eqb c "*"
      then fix star (name : string) : bool :=
             glob pattern' name
             || match name with
                | String _ name' => star name'
                | EmptyString => false
                end
      else λ name,
             match name with
             | String d name' =>
                 (Ascii.eqb c "?" || Ascii.eqb c d) && glob pattern' name'
             | EmptyString => false
             end
  end.

(** The three documents the examples load. *)
Definition sample_yaml (text : string) : result document :=
  if String.eqb text "unused_threshold_hours: 2"
  then Ok (YamlMapping {[ "unused_threshold_hours" := VInt 2 ]})
  else if String.eqb text "namespaces: [ns1"
  then Raise YAMLError
  else Ok (YamlValue VNone).

Definition sample_library : PythonLibrary :=
  {| fnmatch := λ name pattern, glob pattern name;
     yaml_safe_load := sample_yaml |}.

Definition no_faults : request → option Z := λ _, None.

(** A server that stores the body of a patch in place of the object. *)
Definition replace_object (stored body : V1ConfigMap) : V1ConfigMap := body.

(** 2024-01-01T12:00:00Z, in microseconds. *)
Definition noon : Z := 1704110400000000.

Definition hours_before (t h : Z) : option datetime :=
  Some {| wall_clock := t - h * microseconds_per_hour;
          tzinfo := Some timezone_utc |}.

Definition metadata (name namespace : string) (created : option datetime)
    : V1ObjectMeta :=
  {| meta_name := name; meta_namespace := namespace;
     creation_timestamp := created; annotations := None |}.

Definition opaque_secret (name namespace : string) (created : option datetime)
    : V1Secret :=
  {| secret_metadata := metadata name namespace created;
     secret_type := "Opaque" |}.

Definition plain_config_map (name namespace : string)
    (created : option datetime) : V1ConfigMap :=
  {| config_map_metadata := metadata name namespace created; data := None |}.

Definition empty_pod_spec : V1PodSpec :=
  {| volumes := None; containers := None; init_containers := None;
     ephemeral_containers := None; image_pull_secrets := None;
     service_account_name := None; spec_namespace := None |}.

Definition empty_cluster : Cluster :=
  {| pods := []; deployments := []; daemon_sets := []; stateful_sets := [];
     service_accounts := []; secrets := []; config_maps := [] |}.

(** A started operator with the default configuration, a clock that shows
    [noon] at every reading, and a server without faults. *)
Definition world_of (c : Cluster) : World :=
  {| cluster := c; api_faults := no_faults; patch_merge := replace_object;
     in_cluster := true; environ := ∅; clock := λ _, noon; clock_reads := 0;
     CONFIG := default_CONFIG; cleanup_handler := true; events := [] |}.

Definition set_api_faults (f : request → option Z) (w : World) : World :=
  {| cluster := cluster w; api_faults := f; patch_merge := patch_merge w;
     in_cluster := in_cluster w; environ := environ w; clock := clock w;
     clock_reads := clock_reads w; CONFIG := CONFIG w;
     cleanup_handler := cleanup_handler w; events := events w |}.

Definition set_clock (f : nat → Z) (w : World) : World :=
  {| cluster := cluster w; api_faults := api_faults w;
     patch_merge := patch_merge w; in_cluster := in_cluster w;
     environ := environ w; clock := f; clock_reads := clock_reads w;
     CONFIG := CONFIG w; cleanup_handler := cleanup_handler w;
     events := events w |}.

Definition set_environ (e : gmap string string) (w : World) : World :=
  {| cluster := cluster w; api_faults := api_faults w;
     patch_merge := patch_merge w; in_cluster := in_cluster w;
     environ := e; clock := clock w; clock_reads := clock_reads w;
     CONFIG := CONFIG w; cleanup_handler := cleanup_handler w;
     events := events w |}.

(** The scenario of the specification: in [ns1] a Deployment mounts the
    ConfigMap [app-config] as a volume and takes its environment from the
    Secret [db-creds]; [orphan-cm], [orphan-secret] and [kube-root-ca.crt]
    are referenced by nothing; all five objects are three hours old. *)
Definition scenario_deployment : Workload :=
  {| workload_metadata := metadata "app" "ns1" (hours_before noon 3);
     template_spec := Some
       {| volumes := Some [ {| volume_secret := None;
                               volume_config_map := Some "app-config";
                               volume_projected := None |} ];
          containers := Some [ {| env := None;
                                  env_from := Some [ {| secret_ref := Some "db-creds";
                                                        config_map_ref := None |} ] |} ];
          init_containers := None; ephemeral_containers := None;
          image_pull_secrets := None; service_account_name := None;
          spec_namespace := None |} |}.

Definition scenario_cluster : Cluster :=
  {| pods := []; deployments := [scenario_deployment]; daemon_sets := [];
     stateful_sets := []; service_accounts := [];
     secrets := [ opaque_secret "db-creds" "ns1" (hours_before noon 3);
                  opaque_secret "orphan-secret" "ns1" (hours_before noon 3) ];
     config_maps := [ plain_config_map "app-config" "ns1" (hours_before noon 3);
                      plain_config_map "orphan-cm" "ns1" (hours_before noon 3);
                      plain_config_map "kube-root-ca.crt" "ns1"
                        (hours_before noon 3) ] |}.

(** The configuration object of the operator, with [text] under
    [config.yaml] and the given annotations. *)
Definition operator_config_map (text : string)
    (notes : option (gmap string string)) : V1ConfigMap :=
  {| config_map_metadata :=
       {| meta_name := "cleanup-operator-config";
          meta_namespace := "cleanup-system";
          creation_timestamp := hours_before noon 3;
          annotations := notes |};
     data := Some {[ "config.yaml" := text ]} |}.

Definition cluster_with_configuration (text : string)
    (notes : option (gmap string string)) : Cluster :=
  {| pods := []; deployments := []; daemon_sets := []; stateful_sets := [];
     service_accounts := []; secrets := [];
     config_maps := [operator_config_map text notes] |}.

(** The operator before its start-up, with [DRY_RUN=true] in its
    environment and a configuration object whose document does not
    parse. *)
Definition world_before_startup : World :=
  {| cluster := cluster_with_configuration "namespaces: [ns1" None;
     api_faults := no_faults; patch_merge := replace_object;
     in_cluster := true; environ := {[ "DRY_RUN" := "true" ]};
     clock := λ _, noon; clock_reads := 0; CONFIG := default_CONFIG;
     cleanup_handler := false; events := [] |}.

(** A started operator whose configuration object carries the trigger
    annotation. *)
Definition triggered_world : World :=
  world_of (cluster_with_configuration "unused_threshold_hours: 2"
              (Some {[ "cleanup.operator/trigger" := "now" ]})).

(** A server that answers every patch with a conflict (status 409). *)
Definition patch_conflicts (r : request) : option Z :=
  match r with
  | PatchNamespacedConfigMap _ _ _ => Some 409
  | _ => None
  end.

(** ** Notions used in the statements *)

(** [preserves R m]: every run of [m] takes a state to an [R]-related one,
    whether it returns or raises. *)
Definition preserves {S A} (R : relation S) (m : M S A) : Prop :=
  ∀ s, R s (m s).2.

(** The relation of two states that agree on what [f] observes. *)
Definition keeps {S X} (f : S → X) : relation S := λ s s', f s' = f s.

(** A relation on a local variable paired with one on the world. *)
Definition pair_rel {L W} (RL : relation L) (RW : relation W)
    : relation (L * W) :=
  λ s s', RL s.1 s'.1 ∧ RW s.2 s'.2.

Definition any {L} : relation L := λ _ _, True.

(** [det R m]: from [R]-related states, [m] returns the same result and
    reaches [R]-related states. *)
Definition det {S A} (R : relation S) (m : M S A) : Prop :=
  ∀ s1 s2, R s1 s2 → (m s1).1 = (m s2).1 ∧ R (m s1).2 (m s2).2.

(** Two worlds that answer every read request alike. *)
Definition same_api (w1 w2 : World) : Prop :=
  cluster w1 = cluster w2 ∧ api_faults w1 = api_faults w2.

(** What stays fixed while the operator only reads and logs: everything
    but the trace and the number of clock readings. *)
Definition setting (w : World) :=
  (cluster w, api_faults w, patch_merge w, in_cluster w, environ w, clock w,
   CONFIG w, cleanup_handler w).

(** [extends P w w']: the trace of [w'] is that of [w] followed by events
    that all satisfy [P]. *)
Definition extends (P : event → Prop) : relation World :=
  λ w w', ∃ new, events w' = (events w ++ new)%list ∧ Forall P new.

Definition union_references (r1 r2 : References) : References :=
  {| ref_secrets := ref_secrets r1 ∪ ref_secrets r2;
     ref_configmaps := ref_configmaps r1 ∪ ref_configmaps r2 |}.

(** [r1] holds every reference of [r2]. *)
Definition includes (r2 r1 : References) : Prop :=
  ref_secrets r2 ⊆ ref_secrets r1 ∧ ref_configmaps r2 ⊆ ref_configmaps r1.

(** Observations of the world that the trace, the clock readings or the
    cluster do not affect. *)
Class EventsBlind {X} (f : World → X) : Prop :=
  events_blind : ∀ evs w, f (set_events evs w) = f w.

Class ReadsBlind {X} (f : World → X) : Prop :=
  reads_blind : ∀ n w, f (set_clock_reads n w) = f w.

Class ClusterBlind {X} (f : World → X) : Prop :=
  cluster_blind : ∀ c w, f (set_cluster c w) = f w.

(** What a run of the executor leaves fixed: everything but the cluster,
    the trace and the clock readings. *)
Definition controls (w : World) :=
  (api_faults w, patch_merge w, in_cluster w, environ w, clock w, CONFIG w,
   cleanup_handler w).

(** The messages that collecting the references and classifying the
    resources log. *)
Definition from_classifier (m : message) : bool :=
  match m with
  | ErrorGettingReferences _ _ | ErrorGettingUnused _ _ => true
  | _ => false
  end.

(** The messages that [cleanup_namespace] logs itself. *)
Definition from_executor (m : message) : bool :=
  match m with
  | StartingCleanup _ | WouldDeleteSecret _ _ | DeletedSecret _ _
  | FailedToDeleteSecret _ _ _ | WouldDeleteConfigMap _ _
  | DeletedConfigMap _ _ | FailedToDeleteConfigMap _ _ _
  | CleanupCompleted _ _ _ => true
  | _ => false
  end.

(** A relation on worlds that read requests and the log records of the
    classifier preserve. *)
Class Framed (R : relation World) : Prop := {
  framed_preorder :: PreOrder R;
  framed_log : ∀ l m,
    from_classifier m = true → preserves R (record (Logged l m));
  framed_read : ∀ A r (g : Cluster → result A),
    is_delete r = false → is_patch r = false →
    preserves R (api_call r (λ _ c, (g c, c)));
}.

(** A framed relation that delete requests and the log records of the
    executor preserve as well. *)
Class Executing (R : relation World) : Prop := {
  executing_framed :: Framed R;
  executing_log : ∀ l m,
    from_executor m = true → preserves R (record (Logged l m));
  executing_delete : ∀ A r (serve : World → Cluster → result A * Cluster),
    is_patch r = false → preserves R (api_call r serve);
}.

(** A relation on reference sets that adding a name preserves. *)
Class Accumulates (RL : relation References) : Prop := {
  accumulates_preorder :: PreOrder RL;
  accumulates_secret : ∀ name r,
    RL r {| ref_secrets := {[name]} ∪ ref_secrets r;
            ref_configmaps := ref_configmaps r |};
  accumulates_configmap : ∀ name r,
    RL r {| ref_secrets := ref_secrets r;
            ref_configmaps := {[name]} ∪ ref_configmaps r |};
}.

(** [raises_only P m]: an exception that escapes [m] satisfies [P]. *)
Definition raises_only {S A} (P : exn → Prop) (m : M S A) : Prop :=
  ∀ s e, (m s).1 = Raise e → P e.

(** [except ApiException] handles it. *)
Definition api_error (e : exn) : Prop := is_ApiException e = true.

(** No exception at all. *)
Definition nothing (e : exn) : Prop := False.

(** A relation between worlds that answer read requests alike and that
    recording the same event in both preserves. *)
Class Similar (R : relation World) : Prop := {
  similar_api : ∀ w1 w2, R w1 w2 → same_api w1 w2;
  similar_record : ∀ w1 w2 ev, R w1 w2 →
    R (set_events (events w1 ++ [ev]) w1) (set_events (events w2 ++ [ev]) w2);
}.

(** A relation between reference sets that adding the same name to both
    preserves. *)
Class Additive (RL : relation References) : Prop := {
  additive_secret : ∀ name r1 r2, RL r1 r2 →
    RL {| ref_secrets := {[name]} ∪ ref_secrets r1;
          ref_configmaps := ref_configmaps r1 |}
       {| ref_secrets := {[name]} ∪ ref_secrets r2;
          ref_configmaps := ref_configmaps r2 |};
  additive_configmap : ∀ name r1 r2, RL r1 r2 →
    RL {| ref_secrets := ref_secrets r1;
          ref_configmaps := {[name]} ∪ ref_configmaps r1 |}
       {| ref_secrets := ref_secrets r2;
          ref_configmaps := {[name]} ∪ ref_configmaps r2 |};
}.

(** [offset r0 r1 r2]: [r1] is [r2] with the references of [r0] added. *)
Definition offset (r0 : References) : relation References :=
  λ r1 r2, r1 = union_references r0 r2.

(** ** The workload kinds, for the statements about listing failures *)

Inductive kind : Type := Pods | Deployments | DaemonSets | StatefulSets.

(** The kinds in the order in which [get_resource_references] lists them. *)
Definition all_kinds : list kind := [Pods; Deployments; DaemonSets; StatefulSets].

Definition list_request (k : kind) (namespace : string) : request :=
  match k with
  | Pods => ListNamespacedPod namespace
  | Deployments => ListNamespacedDeployment namespace
  | DaemonSets => ListNamespacedDaemonSet namespace
  | StatefulSets => ListNamespacedStatefulSet namespace
  end.

Definition scan_kind (k : kind) (namespace : string)
    : M (References * World) unit :=
  match k with
  | Pods => scan_pods namespace
  | Deployments => scan_deployments namespace
  | DaemonSets => scan_daemonsets namespace
  | StatefulSets => scan_statefulsets namespace
  end.

Definition listing_succeeds (namespace : string) (w : World) (k : kind) : bool :=
  match api_faults w (list_request k namespace) with
  | None => true
  | Some _ => false
  end.

(** The references that the workloads of kind [k] hold: what scanning that
    kind alone collects. *)
Definition references_of_kind (namespace : string) (w : World) (k : kind)
    : References :=
  match with_local no_references (scan_kind k namespace ;; get_local) w with
  | (Ok references, _) => references
  | (Raise _, _) => no_references
  end.

Definition union_all (l : list References) : References :=
  foldr union_references no_references l.

(** Following the specification's words: the reference set built from
    whatever kinds were listed successfully. *)
Definition references_from_succeeded_kinds (namespace : string) (w : World)
    : References :=
  union_all (map (references_of_kind namespace w)
               (filter (λ k, listing_succeeds namespace w k = true) all_kinds)).

(** The kinds at the head of [kinds] whose listing succeeds, up to the
    first one whose listing fails. *)
Fixpoint listed_before_failure (namespace : string) (w : World)
    (kinds : list kind) : list kind :=
  match kinds with
  | [] => []
  | k :: kinds' =>
      if listing_succeeds namespace w k
      then k :: listed_before_failure namespace w kinds'
      else []
  end.

(** The reference set built from the kinds listed before the first
    failure. *)
Definition references_before_first_failure (namespace : string) (w : World)
    : References :=
  union_all (map (references_of_kind namespace w)
               (listed_before_failure namespace w all_kinds)).

(** The first kind whose listing fails, with the status. *)
Fixpoint first_failure_in (namespace : string) (w : World) (kinds : list kind)
    : option (kind * Z) :=
  match kinds with
  | [] => None
  | k :: kinds' =>
      match api_faults w (list_request k namespace) with
      | Some status => Some (k, status)
      | None => first_failure_in namespace w kinds'
      end
  end.

Definition first_failure (namespace : string) (w : World) : option (kind * Z) :=
  first_failure_in namespace w all_kinds.

(** The world after request [r] has been recorded in the trace. *)
Definition called (r : request) (w : World) : World :=
  set_events (events w ++ [Called r]) w.

(** The world after a record has been logged. *)
Definition logged (l : level) (m : message) (w : World) : World :=
  set_events (events w ++ [Logged l m]) w.

(** A server on which listing the Pods of [ns1] fails with status 500. *)
Definition pods_unavailable (r : request) : option Z :=
  match r with
  | ListNamespacedPod "ns1" => Some 500
  | _ => None
  end.

(** ** The rule of the classifier, for the statements *)

Section Rule.
Context `{PythonLibrary}.

(** What [should_exclude_resource] answers under configuration [config]. *)
Definition exclusion (config : gmap string value)
    (name resource_type : string) : result bool :=
  match config !! "exclude_patterns" with
  | None => Raise (KeyError "exclude_patterns")
  | Some exclude_patterns =>
      match iterate exclude_patterns with
      | Raise e => Raise e
      | Ok patterns =>
          Ok (existsb (λ pattern, fnmatch name pattern) patterns
              || (String.eqb resource_type "secret"
                  && (startswith name "default-token-"
                      || endswith name "-token")))
      end
  end.

(** A timestamp that is present and, read as UTC, earlier than the
    cutoff. *)
Definition older_than (cutoff_time : datetime) (timestamp : option datetime)
    : Prop :=
  ∃ t, timestamp = Some t
       ∧ datetime_lt (replace_tzinfo t timezone_utc) cutoff_time = Ok true.

(** A Secret that is not excluded, not of a system type, not referenced
    and older than the cutoff. *)
Definition eligible_secret (config : gmap string value)
    (references : References) (cutoff_time : datetime) (secret : V1Secret)
    : Prop :=
  exclusion config (meta_name (secret_metadata secret)) "secret" = Ok false
  ∧ str_in (secret_type secret) system_secret_types = false
  ∧ (meta_name (secret_metadata secret) ∉ ref_secrets references)
  ∧ older_than cutoff_time (creation_timestamp (secret_metadata secret)).

(** A ConfigMap that is not excluded, not referenced and older than the
    cutoff. *)
Definition eligible_configmap (config : gmap string value)
    (references : References) (cutoff_time : datetime)
    (configmap : V1ConfigMap) : Prop :=
  exclusion config (meta_name (config_map_metadata configmap)) "configmap"
  = Ok false
  ∧ (meta_name (config_map_metadata configmap) ∉ ref_configmaps references)
  ∧ older_than cutoff_time
      (creation_timestamp (config_map_metadata configmap)).

(** The check of a resource raises [e]: the exclusion patterns cannot be
    read, or the resource has no creation timestamp, or the comparison
    with the cutoff fails. *)
Definition check_fails (config : gmap string value) (cutoff_time : datetime)
    (name resource_type : string) (timestamp : option datetime) (e : exn)
    : Prop :=
  exclusion config name resource_type = Raise e
  ∨ timestamp = None
  ∨ ∃ t, timestamp = Some t
         ∧ datetime_lt (replace_tzinfo t timezone_utc) cutoff_time = Raise e.

End Rule.

(** What [compute_cutoff_time] returns in world [w]. *)
Definition cutoff_of (w : World) : result datetime :=
  match CONFIG w !! "unused_threshold_hours" with
  | None => Raise (KeyError "unused_threshold_hours")
  | Some hours =>
      match timedelta_hours hours with
      | Raise e => Raise e
      | Ok delta =>
          datetime_sub {| wall_clock := clock w (clock_reads w);
                          tzinfo := Some timezone_utc |} delta
      end
  end.

(** The Secrets and ConfigMaps of a namespace. *)
Definition secrets_in (namespace : string) (w : World) : list V1Secret :=
  filter (λ s, in_namespace namespace (secret_metadata s)) (secrets (cluster w)).

Definition config_maps_in (namespace : string) (w : World)
    : list V1ConfigMap :=
  filter (λ m, in_namespace namespace (config_map_metadata m))
    (config_maps (cluster w)).

(** The outcome [res] of classifying the namespace in world [w], case by
    case: which listing fails, and whether a loop stops on an exception.
    [w'] is the world in which the classification ends. *)
Definition classification `{PythonLibrary} (ns : string)
    (references : References) (cutoff_time : datetime) (w : World)
    (res : result Unused) (w' : World) : Prop :=
  match api_faults w (ListNamespacedSecret ns) with
  | Some status =>
      res = Ok no_unused
      ∧ last (events w')
        = Some (Logged ERROR (ErrorGettingUnused ns (ApiException status)))
  | None =>
      ∃ res1 added1,
        (∀ name, name ∈ added1 →
           ∃ s, s ∈ secrets_in ns w
                ∧ meta_name (secret_metadata s) = name
                ∧ eligible_secret (CONFIG w) references cutoff_time s)
        ∧ (res1 = Ok tt →
           ∀ s, s ∈ secrets_in ns w →
                eligible_secret (CONFIG w) references cutoff_time s →
                meta_name (secret_metadata s) ∈ added1)
        ∧ match res1 with
          | Raise e =>
              res = Raise e ∧ is_ApiException e = false
              ∧ ∃ s, s ∈ secrets_in ns w
                     ∧ check_fails (CONFIG w) cutoff_time
                         (meta_name (secret_metadata s)) "secret"
                         (creation_timestamp (secret_metadata s)) e
          | Ok _ =>
              match api_faults w (ListNamespacedConfigMap ns) with
              | Some status =>
                  res = Ok {| unused_secrets := added1;
                              unused_configmaps := [] |}
                  ∧ last (events w')
                    = Some (Logged ERROR
                              (ErrorGettingUnused ns (ApiException status)))
              | None =>
                  ∃ res2 added2,
                    (∀ name, name ∈ added2 →
                       ∃ m, m ∈ config_maps_in ns w
                            ∧ meta_name (config_map_metadata m) = name
                            ∧ eligible_configmap (CONFIG w) references
                                cutoff_time m)
                    ∧ (res2 = Ok tt →
                       ∀ m, m ∈ config_maps_in ns w →
                            eligible_configmap (CONFIG w) references
                              cutoff_time m →
                            meta_name (config_map_metadata m) ∈ added2)
                    ∧ match res2 with
                      | Raise e =>
                          res = Raise e ∧ is_ApiException e = false
                          ∧ ∃ m, m ∈ config_maps_in ns w
                                 ∧ check_fails (CONFIG w) cutoff_time
                                     (meta_name (config_map_metadata m))
                                     "configmap"
                                     (creation_timestamp
                                        (config_map_metadata m)) e
                      | Ok _ =>
                          res = Ok {| unused_secrets := added1;
                                      unused_configmaps := added2 |}
                      end
              end
          end
  end.

(** [CONFIG['exclude_patterns']] can be iterated and yields [patterns]. *)
Definition configured_patterns (config : gmap string value)
    (patterns : list string) : Prop :=
  ∃ exclude_patterns,
    config !! "exclude_patterns" = Some exclude_patterns
    ∧ iterate exclude_patterns = Ok patterns.

(** Two worlds that differ at most in their traces and in
    [CONFIG['dry_run']]. *)
Definition alike (w1 w2 : World) : Prop :=
  same_api w1 w2 ∧ clock w1 = clock w2 ∧ clock_reads w1 = clock_reads w2
  ∧ ∀ key, key ≠ "dry_run" → CONFIG w1 !! key = CONFIG w2 !! key.

(** The world with [CONFIG['dry_run']] set to [b]. *)
Definition with_dry_run (b : bool) (w : World) : World :=
  set_CONFIG (<["dry_run" := VBool b]> (CONFIG w)) w.

(** ** Reading the trace *)

Definition is_delete_call (ev : event) : bool :=
  match ev with Called r => is_delete r | _ => false end.

Definition is_patch_call (ev : event) : bool :=
  match ev with Called r => is_patch r | _ => false end.

Definition failed_secret (ev : event) : bool :=
  match ev with
  | Logged ERROR (FailedToDeleteSecret _ _ _) => true
  | _ => false
  end.

Definition failed_configmap (ev : event) : bool :=
  match ev with
  | Logged ERROR (FailedToDeleteConfigMap _ _ _) => true
  | _ => false
  end.

Definition is_cycle_start (ev : event) : bool :=
  match ev with Logged INFO StartingCycle => true | _ => false end.

(** The number of events of a trace that satisfy [p]. *)
Definition count (p : event → bool) (evs : list event) : Z :=
  Z.of_nat (length (List.filter p evs)).
Arguments count : simpl never.

(** The delete requests of a trace, in order. *)
Definition delete_calls (evs : list event) : list request :=
  flat_map (λ ev, match ev with
                  | Called r => if is_delete r then [r] else []
                  | Logged _ _ => []
                  end) evs.

Definition secret_exists (name namespace : string) (c : Cluster) : bool :=
  existsb (λ s, is_named name namespace (secret_metadata s)) (secrets c).

Definition config_map_exists (name namespace : string) (c : Cluster) : bool :=
  existsb (λ m, is_named name namespace (config_map_metadata m))
    (config_maps c).

(** The cluster without the Secret [namespace/name]. *)
Definition without_secret (name namespace : string) (c : Cluster) : Cluster :=
  with_secrets
    (filter (λ s, negb (is_named name namespace (secret_metadata s)))
       (secrets c)) c.

(** The cluster without the ConfigMap [namespace/name]. *)
Definition without_config_map (name namespace : string) (c : Cluster)
    : Cluster :=
  with_config_maps
    (filter (λ m, negb (is_named name namespace (config_map_metadata m)))
       (config_maps c)) c.

(** An event of the collection and classification phase: no delete or
    patch request, no record of a failed deletion, no start of a cycle. *)
Definition quiet (ev : event) : Prop :=
  is_delete_call ev = false ∧ is_patch_call ev = false
  ∧ failed_secret ev = false ∧ failed_configmap ev = false
  ∧ is_cycle_start ev = false.

(** An event inside a cleanup cycle: no patch request and no start of
    another cycle. *)
Definition within_cycle (ev : event) : Prop :=
  is_patch_call ev = false ∧ is_cycle_start ev = false.

(** A server that forbids the operator to delete Secrets (status 403). *)
Definition secrets_protected (r : request) : option Z :=
  match r with
  | DeleteNamespacedSecret _ _ => Some 403
  | _ => None
  end.

(** The candidate lists of the scenario. *)
Definition scenario_unused : Unused :=
  {| unused_secrets := ["orphan-secret"]; unused_configmaps := ["orphan-cm"] |}.

(** A server on which listing the Secrets of [ns1] fails with status 500. *)
Definition secrets_unavailable (r : request) : option Z :=
  match r with
  | ListNamespacedSecret "ns1" => Some 500
  | _ => None
  end.

(** A server on which listing the ConfigMaps of [ns1] fails with status
    500. *)
Definition config_maps_unavailable (r : request) : option Z :=
  match r with
  | ListNamespacedConfigMap "ns1" => Some 500
  | _ => None
  end.

(** The cutoff and the references of the scenario. *)
Definition scenario_cutoff : datetime :=
  {| wall_clock := noon - microseconds_per_hour;
     tzinfo := Some timezone_utc |}.

Definition scenario_references : References :=
  {| ref_secrets := {["db-creds"]}; ref_configmaps := {["app-config"]} |}.

(** [CONFIG['namespaces']] can be iterated and yields [namespaces]. *)
Definition configured_namespaces (config : gmap string value)
    (namespaces : list string) : Prop :=
  ∃ v, config !! "namespaces" = Some v ∧ iterate v = Ok namespaces.

Definition is_cycle_completed (ev : event) : bool :=
  match ev with Logged INFO (CycleCompleted _ _) => true | _ => false end.

(** Two namespaces, each with one unreferenced Secret created half an hour
    before [noon]; a clock that shows [noon] at its first reading and two
    hours later at the following ones. *)
Definition half_past_eleven : option datetime :=
  Some {| wall_clock := noon - 1800000000; tzinfo := Some timezone_utc |}.

Definition two_namespaces_cluster : Cluster :=
  with_secrets [ opaque_secret "first" "ns1" half_past_eleven;
                 opaque_secret "second" "ns2" half_past_eleven ]
    empty_cluster.

Definition slow_clock (reading : nat) : Z :=
  match reading with
  | O => noon
  | S _ => noon + 2 * microseconds_per_hour
  end.

Definition two_namespaces_world : World :=
  set_CONFIG (<["namespaces" := VList ["ns1"; "ns2"]]> default_CONFIG)
    (set_clock slow_clock (world_of two_namespaces_cluster)).

(** Not the start of a cycle. *)
Definition no_cycle_start (ev : event) : Prop := is_cycle_start ev = false.

(** ** The document that a reload merges, for the statements *)

(** The keys that [CONFIG.update] may set when given [config_data]. *)
Definition document_keys (config_data : document) : gset string :=
  match config_data with
  | YamlMapping m => dom m
  | YamlValue (VList pairs) =>
      list_to_set (flat_map (λ pair, match pair with
                                     | String k _ => [String k EmptyString]
                                     | EmptyString => []
                                     end) pairs)
  | YamlValue _ => ∅
  end.

(** The document under [config.yaml] in a ConfigMap, if it parses. *)
Definition document_of `{PythonLibrary} (config_map : V1ConfigMap)
    : option document :=
  match data config_map with
  | None => None
  | Some d =>
      match d !! "config.yaml" with
      | None => None
      | Some text =>
          match yaml_safe_load text with
          | Ok config_data => Some config_data
          | Raise _ => None
          end
      end
  end.

(** The answer to [read_namespaced_config_map] for the configuration
    object. *)
Definition read_configuration (w : World) : result V1ConfigMap :=
  answer w
    (ReadNamespacedConfigMap "cleanup-operator-config" "cleanup-system")
    (λ c, match List.find
                  (λ m, is_named "cleanup-operator-config" "cleanup-system"
                          (config_map_metadata m)) (config_maps c) with
          | Some m => Ok m
          | None => Raise (ApiException 404)
          end).

(** The document that [load_config] loads in world [w], if it loads one. *)
Definition loaded_document `{PythonLibrary} (w : World) : option document :=
  if in_cluster w
  then match read_configuration w with
       | Ok config_map => document_of config_map
       | Raise _ => None
       end
  else None.

(** [{key}] when the environment variable [variable] is set. *)
Definition when_set (w : World) (variable key : string) : gset string :=
  match environ w !! variable with
  | Some _ => {[key]}
  | None => ∅
  end.

(** The options whose overriding environment variable is set. *)
Definition overridden (w : World) : gset string :=
  when_set w "CLEANUP_NAMESPACES" "namespaces"
  ∪ when_set w "CLEANUP_INTERVAL" "cleanup_interval"
  ∪ when_set w "DRY_RUN" "dry_run".

(** The recognised options. *)
Definition recognised_options : list string :=
  ["namespaces"; "cleanup_interval"; "unused_threshold_hours"; "dry_run";
   "exclude_patterns"].

(** [reconfigured keys w w']: from [w] to [w'] the environment is the
    same, no key of [CONFIG] is lost, and only keys of [keys] may have a
    new value. *)
Definition reconfigured (keys : gset string) : relation World :=
  λ w w',
    environ w' = environ w
    ∧ dom (CONFIG w) ⊆ dom (CONFIG w')
    ∧ ∀ key, key ∉ keys → CONFIG w' !! key = CONFIG w !! key.

(** The keys of the document that [load_config] loads in [w]. *)
Definition loaded_keys `{PythonLibrary} (w : World) : gset string :=
  match loaded_document w with
  | Some config_data => document_keys config_data
  | None => ∅
  end.

(** * Further notions, for the properties beyond the claims *)

(** An event that changes nothing on the server: neither a delete nor a
    patch request. *)
Definition read_only (ev : event) : Prop :=
  is_delete_call ev = false ∧ is_patch_call ev = false.

(** The exception that computing the cutoff raises whatever the clock
    shows: the threshold is missing from [CONFIG] or is not a number of
    hours that a [timedelta] can hold. *)
Definition threshold_error (config : gmap string value) : option exn :=
  match config !! "unused_threshold_hours" with
  | None => Some (KeyError "unused_threshold_hours")
  | Some hours =>
      match timedelta_hours hours with
      | Raise e => Some e
      | Ok _ => None
      end
  end.

(** The records of a namespace whose cleanup raised [e]. *)
Definition failed_cleanup (e : exn) (namespace : string) : list event :=
  [ Logged INFO (StartingCleanup namespace);
    Logged ERROR (ErrorCleaningNamespace namespace e) ].

(** [dry_run_frame w w']: if [CONFIG['dry_run']] is truthy in [w], then
    [w'] has the cluster and the configuration of [w], and its trace
    extends the one of [w] by events that change nothing on the server. *)
Definition dry_run_frame : relation World :=
  λ w w',
    (∃ v, CONFIG w !! "dry_run" = Some v ∧ truthy v = true) →
    cluster w' = cluster w ∧ CONFIG w' = CONFIG w ∧ extends read_only w w'.

(** [removed_within namespaces c c']: cluster [c'] is cluster [c] with
    some Secrets and ConfigMaps of the given namespaces removed.  The
    workloads and service accounts are the same, nothing is added or
    reordered, and every Secret and ConfigMap of another namespace is
    still there. *)
Definition removed_within (namespaces : list string) (c c' : Cluster) : Prop :=
  pods c' = pods c
  ∧ deployments c' = deployments c
  ∧ daemon_sets c' = daemon_sets c
  ∧ stateful_sets c' = stateful_sets c
  ∧ service_accounts c' = service_accounts c
  ∧ sublist (secrets c') (secrets c)
  ∧ sublist (config_maps c') (config_maps c)
  ∧ (∀ s, s ∈ secrets c →
          meta_namespace (secret_metadata s) ∉ namespaces → s ∈ secrets c')
  ∧ (∀ m, m ∈ config_maps c →
          meta_namespace (config_map_metadata m) ∉ namespaces →
          m ∈ config_maps c').

Definition stays_within (namespaces : list string) : relation World :=
  λ w w', removed_within namespaces (cluster w) (cluster w').

(** A resource of [namespace] whose name is not among [names]: what is
    left of a namespace once the resources named [names] are deleted. *)
Definition not_deleted (namespace : string) (names : list string)
    (m : V1ObjectMeta) : bool :=
  negb (in_namespace namespace m && str_in (meta_name m) names).

(** ** Loading the configuration *)

(** What loading the configuration leaves fixed: everything but [CONFIG],
    [cleanup_handler] and the trace. *)
Definition surroundings (w : World) :=
  (cluster w, api_faults w, patch_merge w, in_cluster w, environ w, clock w,
   clock_reads w).

(** A log record, or the request that reads the configuration object. *)
Definition reads_configuration (ev : event) : Prop :=
  match ev with
  | Called r =>
      r = ReadNamespacedConfigMap "cleanup-operator-config" "cleanup-system"
  | Logged _ _ => True
  end.

Definition loading : relation World :=
  λ w w',
    surroundings w' = surroundings w ∧ extends reads_configuration w w'.

(** The overrides of [load_config] are reached: the in-cluster credentials
    are found, and the configuration object cannot be read, or has no
    [config.yaml], or holds a mapping. *)
Definition overrides_reached `{PythonLibrary} (w : World) : Prop :=
  in_cluster w = true
  ∧ ((∃ e, read_configuration w = Raise e)
     ∨ (∃ config_map d,
          read_configuration w = Ok config_map
          ∧ data config_map = Some d ∧ d !! "config.yaml" = None)
     ∨ (∃ m, loaded_document w = Some (YamlMapping m))).

(** Loading stops before the overrides: the in-cluster credentials are
    missing, or the configuration object has no data, or its document does
    not parse. *)
Definition loading_stops `{PythonLibrary} (w : World) : Prop :=
  in_cluster w = false
  ∨ ∃ config_map,
      read_configuration w = Ok config_map
      ∧ (data config_map = None
         ∨ ∃ d text e,
             data config_map = Some d ∧ d !! "config.yaml" = Some text
             ∧ yaml_safe_load text = Raise e ∧ is_ApiException e = false).

(** A started operator whose configuration object sets the threshold,
    with the given environment. *)
Definition world_with_environment (env : gmap string string) : World :=
  set_environ env
    (world_of (cluster_with_configuration "unused_threshold_hours: 2" None)).

(** ** The names that a pod specification references *)

(** The name at a reference site, when the site is set. *)
Definition named (site : option string) : list string :=
  match site with
  | Some name => [name]
  | None => []
  end.

(** The sources of a projected volume ([volume.projected.sources or []]),
    none when the volume is not projected. *)
Definition projected_sources (volume : V1Volume) : list V1VolumeProjection :=
  match volume_projected volume with
  | Some sources => items sources
  | None => []
  end.

Definition volume_secrets (volume : V1Volume) : list string :=
  named (volume_secret volume)
  ++ flat_map (λ source, named (projection_secret source))
       (projected_sources volume).

Definition volume_configmaps (volume : V1Volume) : list string :=
  named (volume_config_map volume)
  ++ flat_map (λ source, named (projection_config_map source))
       (projected_sources volume).

Definition env_var_secrets (env_var : V1EnvVar) : list string :=
  match value_from env_var with
  | Some source => named (secret_key_ref source)
  | None => []
  end.

Definition env_var_configmaps (env_var : V1EnvVar) : list string :=
  match value_from env_var with
  | Some source => named (config_map_key_ref source)
  | None => []
  end.

Definition container_secrets (container : V1Container) : list string :=
  flat_map env_var_secrets (items (env container))
  ++ flat_map (λ source, named (secret_ref source))
       (items (env_from container)).

Definition container_configmaps (container : V1Container) : list string :=
  flat_map env_var_configmaps (items (env container))
  ++ flat_map (λ source, named (config_map_ref source))
       (items (env_from container)).

(** The containers, init containers and ephemeral containers of a pod
    specification. *)
Definition all_containers (pod_spec : V1PodSpec) : list V1Container :=
  items (containers pod_spec) ++ items (init_containers pod_spec)
  ++ items (ephemeral_containers pod_spec).

(** The answer to [read_namespaced_service_account]. *)
Definition read_service_account (w : World) (name namespace : string)
    : result V1ServiceAccount :=
  answer w (ReadNamespacedServiceAccount name namespace)
    (λ c, match List.find
                  (λ sa, is_named name namespace
                           (service_account_metadata sa))
                  (service_accounts c) with
          | Some sa => Ok sa
          | None => Raise (ApiException 404)
          end).

(** The Secrets of the service account of a pod specification: those the
    account lists, when the specification names an account and the account
    can be read in the namespace the source looks it up in. *)
Definition service_account_secret_names (w : World) (pod_spec : V1PodSpec)
    : list string :=
  let name := or_else (service_account_name pod_spec) "" in
  if String.eqb name "" then []
  else match read_service_account w name
               (or_else (spec_namespace pod_spec) "default") with
       | Ok sa =>
           items (service_account_secrets sa)
           ++ items (service_account_image_pull_secrets sa)
       | Raise _ => []
       end.

(** The Secrets that a pod specification references, site by site. *)
Definition pod_spec_secrets (w : World) (pod_spec : V1PodSpec)
    : list string :=
  flat_map volume_secrets (items (volumes pod_spec))
  ++ flat_map container_secrets (all_containers pod_spec)
  ++ items (image_pull_secrets pod_spec)
  ++ service_account_secret_names w pod_spec.

(** The ConfigMaps that a pod specification references. *)
Definition pod_spec_configmaps (pod_spec : V1PodSpec) : list string :=
  flat_map volume_configmaps (items (volumes pod_spec))
  ++ flat_map container_configmaps (all_containers pod_spec).

(** The pod specifications of the workloads of a namespace: those of its
    Pods and the templates of its Deployments, DaemonSets and
    StatefulSets. *)
Definition workload_specs (namespace : string) (w : World) : list V1PodSpec :=
  let c := cluster w in
  let templates (workloads : list Workload) :=
    omap template_spec
      (filter (λ d, in_namespace namespace (workload_metadata d)) workloads) in
  omap pod_spec (filter (λ p, in_namespace namespace (pod_metadata p)) (pods c))
  ++ templates (deployments c) ++ templates (daemon_sets c)
  ++ templates (stateful_sets c).

(** [collects w0 secret_names configmap_names m]: run from any reference
    set in a world with the setting of [w0], [m] returns, keeps the
    setting and adds exactly these names to the two sets. *)
Definition collects (w0 : World) (secret_names configmap_names : list string)
    (m : M (References * World) unit) : Prop :=
  ∀ r w, setting w = setting w0 →
    ∃ r' w',
      m (r, w) = (Ok tt, (r', w'))
      ∧ setting w' = setting w0
      ∧ (∀ n, n ∈ ref_secrets r' ↔ n ∈ ref_secrets r ∨ n ∈ secret_names)
      ∧ (∀ n, n ∈ ref_configmaps r' ↔
              n ∈ ref_configmaps r ∨ n ∈ configmap_names).

(** ** Reading the trace of a cycle *)

(** The namespaces whose cleanup a trace starts, in order. *)
Definition cleanups_started (evs : list event) : list string :=
  flat_map (λ ev, match ev with
                  | Logged _ (StartingCleanup namespace) => [namespace]
                  | _ => []
                  end) evs.

(** The Secrets and ConfigMaps that the cleanups completed in a trace
    report as deleted, added up. *)
Definition completed_secrets (evs : list event) : Z :=
  foldr (λ ev total, match ev with
                     | Logged _ (CleanupCompleted _ s _) => s + total
                     | _ => total
                     end) 0 evs.

Definition completed_configmaps (evs : list event) : Z :=
  foldr (λ ev total, match ev with
                     | Logged _ (CleanupCompleted _ _ c) => c + total
                     | _ => total
                     end) 0 evs.

(** An event that neither starts nor completes the cleanup of a
    namespace. *)
Definition inner_event (ev : event) : Prop :=
  match ev with
  | Logged _ (StartingCleanup _) | Logged _ (CleanupCompleted _ _ _) => False
  | _ => True
  end.

(** A namespace with a Secret that has no creation timestamp next to an
    unused Secret that is three hours old. *)
Definition undated_world : World :=
  world_of
    (with_secrets [ opaque_secret "undated" "ns1" None;
                    opaque_secret "orphan-secret" "ns1" (hours_before noon 3) ]
       empty_cluster).

(** * Properties *)

(** ** Reasoning about computations *)

Lemma bind_unfold {S A B} (m : M S A) (k : A → M S B) (s : S) :
  bind m k s = match m s with
               | (Ok a, s') => k a s'
               | (Raise e, s') => (Raise e, s')
               end.
Proof. reflexivity. Qed.

Lemma bind_Ok {S A B} (m : M S A) (k : A → M S B) s a s1 :
  m s = (Ok a, s1) → bind m k s = k a s1.
Proof. intros Hm. unfold bind. now rewrite Hm. Qed.

Lemma bind_Raise {S A B} (m : M S A) (k : A → M S B) s e s1 :
  m s = (Raise e, s1) → bind m k s = (Raise e, s1).
Proof. intros Hm. unfold bind. now rewrite Hm. Qed.

#[export] Instance keeps_preorder {S X} (f : S → X) : PreOrder (keeps f).
Proof.
  split.
  - intros s. reflexivity.
  - intros s1 s2 s3 H12 H23. unfold keeps in *. congruence.
Qed.

#[export] Instance pair_rel_preorder {L W} (RL : relation L) (RW : relation W) :
  PreOrder RL → PreOrder RW → PreOrder (pair_rel RL RW).
Proof.
  intros HL HW. split.
  - intros [l w]. split; reflexivity.
  - intros [l1 w1] [l2 w2] [l3 w3] [H1 H2] [H3 H4].
    split; simpl in *; etransitivity; eauto.
Qed.

#[export] Instance any_preorder {L} : PreOrder (@any L).
Proof. split; repeat intro; exact I. Qed.

Section Preserves.
Context {S : Type} (R : relation S) `{!PreOrder R}.

Lemma preserves_ret {A} (a : A) : preserves R (ret a).
Proof. intros s. simpl. reflexivity. Qed.

Lemma preserves_raise {A} e : preserves R (@raise S A e).
Proof. intros s. simpl. reflexivity. Qed.

Lemma preserves_lift_result {A} (r : result A) : preserves R (lift_result r).
Proof. intros s. simpl. reflexivity. Qed.

Lemma preserves_bind {A B} (m : M S A) (k : A → M S B) :
  preserves R m → (∀ a, preserves R (k a)) → preserves R (bind m k).
Proof.
  intros Hm Hk s. unfold bind. specialize (Hm s).
  destruct (m s) as [[a|e] s1]; simpl in *; [|assumption].
  etransitivity; [eassumption|apply Hk].
Qed.

Lemma preserves_try_except {A} (m : M S A) catches handler :
  preserves R m → (∀ e, preserves R (handler e)) →
  preserves R (try_except m catches handler).
Proof.
  intros Hm Hh s. unfold try_except. specialize (Hm s).
  destruct (m s) as [[a|e] s1]; simpl in *; [assumption|].
  destruct (catches e); [|assumption].
  etransitivity; [eassumption|apply Hh].
Qed.

Lemma preserves_for_each {X} (l : list X) (body : X → M S unit) :
  (∀ x, preserves R (body x)) → preserves R (for_each l body).
Proof.
  intros Hbody. induction l as [|x l IH]; simpl.
  - apply preserves_ret.
  - apply preserves_bind; auto.
Qed.

Lemma preserves_when (c : bool) (body : M S unit) :
  preserves R body → preserves R (when c body).
Proof. intros Hb. destruct c; simpl; [assumption|apply preserves_ret]. Qed.

Lemma preserves_if_set {X} (x : option X) (body : X → M S unit) :
  (∀ v, preserves R (body v)) → preserves R (if_set x body).
Proof. intros Hb. destruct x; simpl; [apply Hb|apply preserves_ret]. Qed.

Lemma preserves_if {A} (c : bool) (m1 m2 : M S A) :
  preserves R m1 → preserves R m2 → preserves R (if c then m1 else m2).
Proof. now destruct c. Qed.

End Preserves.

Lemma preserves_global {L W A} (RL : relation L) (RW : relation W)
    `{!Reflexive RL} (m : M W A) :
  preserves RW m → preserves (pair_rel RL RW) (global m).
Proof.
  intros Hm [l w]. unfold global. specialize (Hm w).
  destruct (m w) as [r w']. split; simpl in *; [reflexivity|assumption].
Qed.

Lemma preserves_modify_local {L W} (RL : relation L) (RW : relation W)
    `{!Reflexive RW} (f : L → L) :
  (∀ l, RL l (f l)) → preserves (pair_rel RL RW) (@modify_local L W f).
Proof. intros Hf [l w]. split; simpl; [apply Hf|reflexivity]. Qed.

Lemma preserves_get_local {L W} (RL : relation L) (RW : relation W)
    `{!Reflexive RL} `{!Reflexive RW} :
  preserves (pair_rel RL RW) (@get_local L W).
Proof. intros [l w]. split; reflexivity. Qed.

Lemma preserves_with_local {L W A} (RL : relation L) (RW : relation W)
    (init : L) (m : M (L * W) A) :
  preserves (pair_rel RL RW) m → preserves RW (with_local init m).
Proof.
  intros Hm w. unfold with_local. specialize (Hm (init, w)).
  destruct (m (init, w)) as [r [l w']]. apply Hm.
Qed.

(** ** The primitives of the world *)

Lemma set_cluster_same w : set_cluster (cluster w) w = w.
Proof. now destruct w. Qed.

Lemma api_call_read {A} (r : request) (f : Cluster → result A) (w : World) :
  api_call r (λ _ c, (f c, c)) w
  = (answer w r f, set_events (events w ++ [Called r]) w).
Proof.
  unfold api_call, answer, bind, record, modify. simpl.
  destruct (api_faults w r); [reflexivity|].
  now rewrite <- (set_cluster_same w) at 3.
Qed.

Lemma count_app p evs1 evs2 : count p (evs1 ++ evs2) = count p evs1 + count p evs2.
Proof. unfold count. rewrite List.filter_app, length_app. lia. Qed.

Lemma count_cons p ev evs :
  count p (ev :: evs) = (if p ev then 1 else 0) + count p evs.
Proof. unfold count. simpl. destruct (p ev); simpl length; lia. Qed.

Lemma count_nil p : count p [] = 0.
Proof. reflexivity. Qed.

Lemma count_nonneg p evs : 0 <= count p evs.
Proof. unfold count. lia. Qed.

Lemma delete_calls_app evs1 evs2 :
  delete_calls (evs1 ++ evs2) = delete_calls evs1 ++ delete_calls evs2.
Proof. unfold delete_calls. apply flat_map_app. Qed.

#[export] Instance setting_events_blind : EventsBlind setting.
Proof. now intros evs [ ]. Qed.
#[export] Instance setting_reads_blind : ReadsBlind setting.
Proof. now intros n [ ]. Qed.
#[export] Instance clock_reads_events_blind : EventsBlind clock_reads.
Proof. now intros evs [ ]. Qed.
#[export] Instance clock_reads_cluster_blind : ClusterBlind clock_reads.
Proof. now intros c [ ]. Qed.
#[export] Instance controls_events_blind : EventsBlind controls.
Proof. now intros evs [ ]. Qed.
#[export] Instance controls_reads_blind : ReadsBlind controls.
Proof. now intros n [ ]. Qed.
#[export] Instance controls_cluster_blind : ClusterBlind controls.
Proof. now intros c [ ]. Qed.
#[export] Instance CONFIG_events_blind : EventsBlind CONFIG.
Proof. now intros evs [ ]. Qed.
#[export] Instance CONFIG_reads_blind : ReadsBlind CONFIG.
Proof. now intros n [ ]. Qed.
#[export] Instance CONFIG_cluster_blind : ClusterBlind CONFIG.
Proof. now intros c [ ]. Qed.

Section Keeps.
Context {X : Type} (f : World → X).

Lemma keeps_record `{!EventsBlind f} ev : preserves (keeps f) (record ev).
Proof. intros w. apply events_blind. Qed.

Lemma keeps_config_get key : preserves (keeps f) (config_get key).
Proof. intros w. unfold config_get. now destruct (CONFIG w !! key). Qed.

Lemma keeps_datetime_now_utc `{!ReadsBlind f} :
  preserves (keeps f) datetime_now_utc.
Proof. intros w. apply reads_blind. Qed.

Lemma keeps_api_call_read `{!EventsBlind f} {A} r (g : Cluster → result A) :
  preserves (keeps f) (api_call r (λ _ c, (g c, c))).
Proof. intros w. rewrite api_call_read. apply events_blind. Qed.

Lemma keeps_api_call `{!EventsBlind f} `{!ClusterBlind f} {A} r
    (serve : World → Cluster → result A * Cluster) :
  preserves (keeps f) (api_call r serve).
Proof.
  intros w. unfold api_call, bind, record, modify, keeps. simpl.
  destruct (api_faults _ r).
  - simpl. apply events_blind.
  - destruct (serve _ _) as [res c]. simpl.
    rewrite cluster_blind. apply events_blind.
Qed.

Lemma keeps_load_incluster_config : preserves (keeps f) load_incluster_config.
Proof. intros w. unfold load_incluster_config. now destruct (in_cluster w). Qed.

End Keeps.

#[export] Instance extends_preorder (P : event → Prop) : PreOrder (extends P).
Proof.
  split.
  - intros w. exists []. split; [now rewrite app_nil_r|constructor].
  - intros w1 w2 w3 (n1 & H1 & P1) (n2 & H2 & P2). exists (n1 ++ n2).
    split; [now rewrite H2, H1, app_assoc|now apply Forall_app].
Qed.

Section Extends.
Context (P : event → Prop).

Lemma extends_record ev : P ev → preserves (extends P) (record ev).
Proof. intros HP w. exists [ev]. split; [reflexivity|now constructor]. Qed.

Lemma extends_config_get key : preserves (extends P) (config_get key).
Proof.
  intros w. unfold config_get. destruct (CONFIG w !! key); reflexivity.
Qed.

Lemma extends_datetime_now_utc : preserves (extends P) datetime_now_utc.
Proof. intros w. exists []. split; [now rewrite app_nil_r|constructor]. Qed.

Lemma extends_api_call {A} r (serve : World → Cluster → result A * Cluster) :
  P (Called r) → preserves (extends P) (api_call r serve).
Proof.
  intros HP w. exists [Called r]. split; [|now constructor].
  unfold api_call, bind, record, modify. simpl.
  destruct (api_faults _ r); [reflexivity|].
  now destruct (serve _ _).
Qed.

Lemma extends_load_incluster_config :
  preserves (extends P) load_incluster_config.
Proof.
  intros w. unfold load_incluster_config. destruct (in_cluster w); reflexivity.
Qed.

End Extends.

Lemma preserves_config_get (R : relation World) `{!Reflexive R} key :
  preserves R (config_get key).
Proof. intros w. unfold config_get. now destruct (CONFIG w !! key). Qed.

Lemma preserves_peek (R : relation World) `{!Reflexive R} {A}
    (f : World → A) :
  preserves R (λ w, (Ok (f w), w)).
Proof. intros w. simpl. reflexivity. Qed.

#[export] Instance keeps_framed {X} (f : World → X) `{!EventsBlind f} :
  Framed (keeps f).
Proof.
  split.
  - apply _.
  - intros. now apply keeps_record.
  - intros. now apply keeps_api_call_read.
Qed.

Lemma extends_framed (P : event → Prop) :
  (∀ l m, from_classifier m = true → P (Logged l m)) →
  (∀ r, is_delete r = false → is_patch r = false → P (Called r)) →
  Framed (extends P).
Proof.
  intros Hlog Hread. split.
  - apply _.
  - intros. apply extends_record. now apply Hlog.
  - intros. apply extends_api_call. now apply Hread.
Qed.

#[export] Instance keeps_executing {X} (f : World → X)
    `{!EventsBlind f} `{!ClusterBlind f} :
  Executing (keeps f).
Proof.
  split.
  - apply _.
  - intros. now apply keeps_record.
  - intros. now apply keeps_api_call.
Qed.

Lemma extends_executing (P : event → Prop) :
  (∀ l m, from_classifier m = true ∨ from_executor m = true →
          P (Logged l m)) →
  (∀ r, is_patch r = false → P (Called r)) →
  Executing (extends P).
Proof.
  intros Hlog Hcall. split.
  - apply extends_framed; auto.
  - intros. apply extends_record. auto.
  - intros. apply extends_api_call. now apply Hcall.
Qed.

(** Breaks a goal [preserves R m] down along the structure of [m]. *)
Ltac preserves_step :=
  lazymatch goal with
  | |- preserves _ (bind _ _) => apply preserves_bind; [apply _| |intros ?]
  | |- preserves _ (for_each _ _) => apply preserves_for_each; [apply _|intros ?]
  | |- preserves _ (try_except _ _ _) =>
      apply preserves_try_except; [apply _| |intros ?]
  | |- preserves _ (when _ _) => apply preserves_when; [apply _|]
  | |- preserves _ (if_set _ _) => apply preserves_if_set; [apply _|intros ?]
  | |- preserves _ (ret _) => apply preserves_ret; apply _
  | |- preserves _ (raise _) => apply preserves_raise; apply _
  | |- preserves _ (lift_result _) => apply preserves_lift_result; apply _
  | |- preserves _ (global _) => apply preserves_global; [apply _|]
  | |- preserves _ get_local => apply preserves_get_local; apply _
  | |- preserves _ (with_local _ _) => eapply preserves_with_local
  | |- preserves _ (config_get _) => apply preserves_config_get; apply _
  | |- preserves _ (logger_info _) =>
      first [apply framed_log; reflexivity | apply executing_log; reflexivity]
  | |- preserves _ (logger_warning _) =>
      first [apply framed_log; reflexivity | apply executing_log; reflexivity]
  | |- preserves _ (logger_error _) =>
      first [apply framed_log; reflexivity | apply executing_log; reflexivity]
  | |- preserves _ (if ?c then _ else _) => destruct c
  | |- preserves _ (match ?x with _ => _ end) => destruct x
  end.

Section Frame.
Context (R : relation World) `{!Framed R}.

Lemma framed_list_namespaced_pod ns : preserves R (list_namespaced_pod ns).
Proof. now apply framed_read. Qed.

Lemma framed_list_namespaced_deployment ns :
  preserves R (list_namespaced_deployment ns).
Proof. now apply framed_read. Qed.

Lemma framed_list_namespaced_daemon_set ns :
  preserves R (list_namespaced_daemon_set ns).
Proof. now apply framed_read. Qed.

Lemma framed_list_namespaced_stateful_set ns :
  preserves R (list_namespaced_stateful_set ns).
Proof. now apply framed_read. Qed.

Lemma framed_read_namespaced_service_account name ns :
  preserves R (read_namespaced_service_account name ns).
Proof. now apply framed_read. Qed.

Lemma framed_list_namespaced_secret ns :
  preserves R (list_namespaced_secret ns).
Proof. now apply framed_read. Qed.

Lemma framed_list_namespaced_config_map ns :
  preserves R (list_namespaced_config_map ns).
Proof. now apply framed_read. Qed.

Lemma framed_read_namespaced_config_map name ns :
  preserves R (read_namespaced_config_map name ns).
Proof. now apply framed_read. Qed.

Lemma framed_add_secret (RL : relation References) name :
  (∀ r, RL r {| ref_secrets := {[name]} ∪ ref_secrets r;
                ref_configmaps := ref_configmaps r |}) →
  preserves (pair_rel RL R) (add_secret name).
Proof. intros HL. apply preserves_modify_local; [apply _|apply HL]. Qed.

End Frame.

#[export] Instance includes_preorder : PreOrder includes.
Proof.
  split.
  - intros r. split; reflexivity.
  - intros r1 r2 r3 [H1 H2] [H3 H4]. split; etransitivity; eauto.
Qed.

#[export] Instance includes_accumulates : Accumulates includes.
Proof.
  split; [apply _| |]; intros name r; split; simpl; set_solver.
Qed.

#[export] Instance any_accumulates : Accumulates any.
Proof. split; [apply _| |]; intros; exact I. Qed.

Section Scan.
Context (RL : relation References) `{!Accumulates RL}.
Context (R : relation World) `{!Framed R}.

Lemma scan_add_secret name : preserves (pair_rel RL R) (add_secret name).
Proof.
  apply preserves_modify_local; [apply _|apply accumulates_secret].
Qed.

Lemma scan_add_configmap name : preserves (pair_rel RL R) (add_configmap name).
Proof.
  apply preserves_modify_local; [apply _|apply accumulates_configmap].
Qed.

Lemma scan_extract pod_spec :
  preserves (pair_rel RL R) (_extract_references_from_pod_spec pod_spec).
Proof.
  unfold _extract_references_from_pod_spec.
  repeat first
    [ apply scan_add_secret | apply scan_add_configmap
    | apply framed_read_namespaced_service_account; apply _
    | preserves_step ].
Qed.

Lemma scan_templates_preserves workloads :
  preserves (pair_rel RL R) (scan_templates workloads).
Proof.
  unfold scan_templates. repeat first [apply scan_extract | preserves_step].
Qed.

Lemma scan_workloads_preserves ns :
  preserves (pair_rel RL R) (scan_workloads ns).
Proof.
  unfold scan_workloads, scan_pods, scan_deployments, scan_daemonsets,
    scan_statefulsets.
  repeat first
    [ apply scan_extract | apply scan_templates_preserves
    | apply framed_list_namespaced_pod; apply _
    | apply framed_list_namespaced_deployment; apply _
    | apply framed_list_namespaced_daemon_set; apply _
    | apply framed_list_namespaced_stateful_set; apply _
    | preserves_step ].
Qed.

End Scan.

Lemma get_resource_references_preserves (R : relation World) `{!Framed R} ns :
  preserves R (get_resource_references ns).
Proof.
  unfold get_resource_references.
  apply (preserves_with_local any).
  repeat first [apply scan_workloads_preserves; apply _ | preserves_step].
Qed.

(** ** Which exceptions escape *)

Section Raises.
Context {S : Type}.

Lemma raises_ret {A} P (a : A) : raises_only P (@ret S A a).
Proof. intros s e. discriminate. Qed.

Lemma raises_raise {A} (P : exn → Prop) e : P e → raises_only P (@raise S A e).
Proof. intros HP s e' [= <-]. exact HP. Qed.

Lemma raises_lift_result {A} (P : exn → Prop) (r : result A) :
  (∀ e, r = Raise e → P e) → raises_only P (@lift_result S A r).
Proof. intros HP s e. simpl. apply HP. Qed.

Lemma raises_weaken {A} (P Q : exn → Prop) (m : M S A) :
  (∀ e, P e → Q e) → raises_only P m → raises_only Q m.
Proof. intros HPQ Hm s e He. eauto. Qed.

Lemma raises_bind {A B} P (m : M S A) (k : A → M S B) :
  raises_only P m → (∀ a, raises_only P (k a)) → raises_only P (bind m k).
Proof.
  intros Hm Hk s e. unfold bind. specialize (Hm s).
  destruct (m s) as [[a|e'] s1]; simpl in *.
  - apply Hk.
  - intros [= <-]. now apply Hm.
Qed.

Lemma raises_try_except {A} (P Q : exn → Prop) (m : M S A) catches handler :
  raises_only Q m → (∀ e, raises_only P (handler e)) →
  (∀ e, Q e → catches e = false → P e) →
  raises_only P (try_except m catches handler).
Proof.
  intros Hm Hh Hc s e. unfold try_except. specialize (Hm s).
  destruct (m s) as [[a|e'] s1]; simpl in *; [discriminate|].
  destruct (catches e') eqn:Hcatch.
  - apply Hh.
  - intros [= <-]. apply Hc; auto.
Qed.

Lemma raises_for_each {X} P (l : list X) (body : X → M S unit) :
  (∀ x, raises_only P (body x)) → raises_only P (for_each l body).
Proof.
  intros Hbody. induction l as [|x l IH]; simpl.
  - apply raises_ret.
  - apply raises_bind; auto.
Qed.

Lemma raises_when P (c : bool) (body : M S unit) :
  raises_only P body → raises_only P (when c body).
Proof. intros Hb. destruct c; simpl; [assumption|apply raises_ret]. Qed.

Lemma raises_if_set {X} P (x : option X) (body : X → M S unit) :
  (∀ v, raises_only P (body v)) → raises_only P (if_set x body).
Proof. intros Hb. destruct x; simpl; [apply Hb|apply raises_ret]. Qed.

End Raises.

Lemma raises_global {L W A} P (m : M W A) :
  raises_only P m → raises_only P (@global L W A m).
Proof.
  intros Hm [l w] e. unfold global. specialize (Hm w e).
  destruct (m w) as [r w']. exact Hm.
Qed.

Lemma raises_modify_local {L W} P (f : L → L) :
  raises_only P (@modify_local L W f).
Proof. intros [l w] e. discriminate. Qed.

Lemma raises_get_local {L W} P : raises_only P (@get_local L W).
Proof. intros [l w] e. discriminate. Qed.

Lemma raises_with_local {L W A} P (init : L) (m : M (L * W) A) :
  raises_only P m → raises_only P (with_local init m).
Proof.
  intros Hm w e. unfold with_local. specialize (Hm (init, w) e).
  destruct (m (init, w)) as [r [l w']]. exact Hm.
Qed.

Lemma raises_record P ev : raises_only P (record ev).
Proof. intros w e. discriminate. Qed.

Lemma raises_api_call {A} r (serve : World → Cluster → result A * Cluster) :
  (∀ w c e, (serve w c).1 = Raise e → api_error e) →
  raises_only api_error (api_call r serve).
Proof.
  intros Hserve w e. unfold api_call, bind, record, modify. simpl.
  destruct (api_faults _ r).
  - intros [= <-]. reflexivity.
  - specialize (Hserve (set_events (events w ++ [Called r]) w)
                  (cluster w) e).
    simpl in *. destruct (serve _ _) as [res c]. exact Hserve.
Qed.

(** Breaks a goal [raises_only P m] down along the structure of [m]. *)
Ltac raises_step :=
  lazymatch goal with
  | |- raises_only _ (bind _ _) => apply raises_bind; [|intros ?]
  | |- raises_only _ (for_each _ _) => apply raises_for_each; intros ?
  | |- raises_only _ (when _ _) => apply raises_when
  | |- raises_only _ (if_set _ _) => apply raises_if_set; intros ?
  | |- raises_only _ (ret _) => apply raises_ret
  | |- raises_only _ (global _) => apply raises_global
  | |- raises_only _ get_local => apply raises_get_local
  | |- raises_only _ (modify_local _) => apply raises_modify_local
  | |- raises_only _ (add_secret _) => apply raises_modify_local
  | |- raises_only _ (add_configmap _) => apply raises_modify_local
  | |- raises_only _ (with_local _ _) => apply raises_with_local
  | |- raises_only _ (record _) => apply raises_record
  | |- raises_only _ (logger_info _) => apply raises_record
  | |- raises_only _ (logger_warning _) => apply raises_record
  | |- raises_only _ (logger_error _) => apply raises_record
  | |- raises_only _ (if ?c then _ else _) => destruct c
  | |- raises_only _ (match ?x with _ => _ end) => destruct x
  end.

Lemma raises_list_namespaced_pod ns :
  raises_only api_error (list_namespaced_pod ns).
Proof. apply raises_api_call. discriminate. Qed.

Lemma raises_list_namespaced_deployment ns :
  raises_only api_error (list_namespaced_deployment ns).
Proof. apply raises_api_call. discriminate. Qed.

Lemma raises_list_namespaced_daemon_set ns :
  raises_only api_error (list_namespaced_daemon_set ns).
Proof. apply raises_api_call. discriminate. Qed.

Lemma raises_list_namespaced_stateful_set ns :
  raises_only api_error (list_namespaced_stateful_set ns).
Proof. apply raises_api_call. discriminate. Qed.

Lemma raises_list_namespaced_secret ns :
  raises_only api_error (list_namespaced_secret ns).
Proof. apply raises_api_call. discriminate. Qed.

Lemma raises_list_namespaced_config_map ns :
  raises_only api_error (list_namespaced_config_map ns).
Proof. apply raises_api_call. discriminate. Qed.

Lemma raises_read_namespaced_service_account name ns :
  raises_only api_error (read_namespaced_service_account name ns).
Proof.
  apply raises_api_call. intros w c e. simpl.
  destruct (List.find _ _); [discriminate|]. now intros [= <-].
Qed.

Lemma raises_read_namespaced_config_map name ns :
  raises_only api_error (read_namespaced_config_map name ns).
Proof.
  apply raises_api_call. intros w c e. simpl.
  destruct (List.find _ _); [discriminate|]. now intros [= <-].
Qed.

Lemma raises_delete_namespaced_secret name ns :
  raises_only api_error (delete_namespaced_secret name ns).
Proof.
  apply raises_api_call. intros w c e. simpl.
  destruct (existsb _ _); [discriminate|]. now intros [= <-].
Qed.

Lemma raises_delete_namespaced_config_map name ns :
  raises_only api_error (delete_namespaced_config_map name ns).
Proof.
  apply raises_api_call. intros w c e. simpl.
  destruct (existsb _ _); [discriminate|]. now intros [= <-].
Qed.

Lemma raises_patch_namespaced_config_map name ns body :
  raises_only api_error (patch_namespaced_config_map name ns body).
Proof.
  apply raises_api_call. intros w c e. simpl.
  destruct (existsb _ _); [discriminate|]. now intros [= <-].
Qed.

Lemma extract_never_raises pod_spec :
  raises_only nothing (_extract_references_from_pod_spec pod_spec).
Proof.
  unfold _extract_references_from_pod_spec.
  repeat first
    [ raises_step
    | eapply (raises_try_except nothing api_error);
      [|intros ?; apply raises_ret
       |intros e He; unfold api_error in He; congruence] ].
  repeat first
    [ raises_step
    | apply raises_read_namespaced_service_account ].
Qed.

Lemma never_raises_returns {S A} (m : M S A) (s : S) :
  raises_only nothing m → ∃ a, (m s).1 = Ok a.
Proof.
  intros Hm. specialize (Hm s). destruct (m s).1 as [a|e]; [eauto|].
  destruct (Hm e eq_refl).
Qed.

Lemma scan_templates_never_raises workloads :
  raises_only nothing (scan_templates workloads).
Proof.
  unfold scan_templates.
  repeat first [apply extract_never_raises | raises_step].
Qed.

Lemma scan_workloads_raises ns : raises_only api_error (scan_workloads ns).
Proof.
  unfold scan_workloads, scan_pods, scan_deployments, scan_daemonsets,
    scan_statefulsets.
  repeat first
    [ apply raises_list_namespaced_pod
    | apply raises_list_namespaced_deployment
    | apply raises_list_namespaced_daemon_set
    | apply raises_list_namespaced_stateful_set
    | eapply raises_weaken; [|apply extract_never_raises]; intros ? []
    | eapply raises_weaken; [|apply scan_templates_never_raises]; intros ? []
    | raises_step ].
Qed.

Lemma get_resource_references_never_raises ns :
  raises_only nothing (get_resource_references ns).
Proof.
  unfold get_resource_references.
  apply raises_with_local, raises_bind; [|intros; apply raises_get_local].
  eapply (raises_try_except nothing api_error).
  - apply scan_workloads_raises.
  - intros e. apply raises_global, raises_record.
  - intros e He. unfold api_error in He. congruence.
Qed.

(** ** Runs from related states *)

Section Det.
Context {S : Type} (R : relation S).

Lemma det_ret {A} (a : A) : det R (ret a).
Proof. intros s1 s2 HR. now split. Qed.

Lemma det_raise {A} e : det R (@raise S A e).
Proof. intros s1 s2 HR. now split. Qed.

Lemma det_lift_result {A} (r : result A) : det R (lift_result r).
Proof. intros s1 s2 HR. now split. Qed.

Lemma det_bind {A B} (m : M S A) (k : A → M S B) :
  det R m → (∀ a, det R (k a)) → det R (bind m k).
Proof.
  intros Hm Hk s1 s2 HR. unfold bind. destruct (Hm s1 s2 HR) as [Hres HR'].
  destruct (m s1) as [r1 t1], (m s2) as [r2 t2]. simpl in *. subst r2.
  destruct r1 as [a|e]; [now apply Hk|now split].
Qed.

Lemma det_try_except {A} (m : M S A) catches handler :
  det R m → (∀ e, det R (handler e)) → det R (try_except m catches handler).
Proof.
  intros Hm Hh s1 s2 HR. unfold try_except.
  destruct (Hm s1 s2 HR) as [Hres HR'].
  destruct (m s1) as [r1 t1], (m s2) as [r2 t2]. simpl in *. subst r2.
  destruct r1 as [a|e]; [now split|].
  destruct (catches e); [now apply Hh|now split].
Qed.

Lemma det_for_each {X} (l : list X) (body : X → M S unit) :
  (∀ x, det R (body x)) → det R (for_each l body).
Proof.
  intros Hbody. induction l as [|x l IH]; simpl.
  - apply det_ret.
  - apply det_bind; auto.
Qed.

Lemma det_when (c : bool) (body : M S unit) : det R body → det R (when c body).
Proof. intros Hb. destruct c; simpl; [assumption|apply det_ret]. Qed.

Lemma det_if_set {X} (x : option X) (body : X → M S unit) :
  (∀ v, det R (body v)) → det R (if_set x body).
Proof. intros Hb. destruct x; simpl; [apply Hb|apply det_ret]. Qed.

End Det.

Lemma det_global {L W A} (RL : relation L) (RW : relation W) (m : M W A) :
  det RW m → det (pair_rel RL RW) (global m).
Proof.
  intros Hm [l1 w1] [l2 w2] [HL HW]. simpl in *. unfold global.
  destruct (Hm w1 w2 HW) as [Hres HW'].
  destruct (m w1) as [r1 t1], (m w2) as [r2 t2]. simpl in *.
  split; [assumption|now split].
Qed.

Lemma det_modify_local {L W} (RL : relation L) (RW : relation W) (f : L → L) :
  (∀ l1 l2, RL l1 l2 → RL (f l1) (f l2)) →
  det (pair_rel RL RW) (@modify_local L W f).
Proof.
  intros Hf [l1 w1] [l2 w2] [HL HW]. simpl in *.
  split; [reflexivity|split; simpl; auto].
Qed.

Lemma det_get_local {L W} (RW : relation W) :
  det (pair_rel eq RW) (@get_local L W).
Proof.
  intros [l1 w1] [l2 w2] [HL HW]. simpl in *. subst.
  split; [reflexivity|now split].
Qed.

Lemma det_with_local {L W A} (RL : relation L) (RW : relation W)
    (init1 init2 : L) (m : M (L * W) A) :
  RL init1 init2 → det (pair_rel RL RW) m →
  ∀ w1 w2, RW w1 w2 →
    (with_local init1 m w1).1 = (with_local init2 m w2).1
    ∧ RW (with_local init1 m w1).2 (with_local init2 m w2).2.
Proof.
  intros Hinit Hm w1 w2 HW. unfold with_local.
  destruct (Hm (init1, w1) (init2, w2)) as [Hres [_ HW']]; [now split|].
  destruct (m (init1, w1)) as [r1 [l1 t1]], (m (init2, w2)) as [r2 [l2 t2]].
  now split.
Qed.

#[export] Instance same_api_similar : Similar same_api.
Proof. split; [auto|]. intros w1 w2 ev [Hc Hf]. now split. Qed.

#[export] Instance eq_additive : Additive eq.
Proof. split; intros name r1 r2 ->; reflexivity. Qed.

Lemma references_eq (r1 r2 : References) :
  ref_secrets r1 = ref_secrets r2 → ref_configmaps r1 = ref_configmaps r2 →
  r1 = r2.
Proof. destruct r1, r2. simpl. now intros -> ->. Qed.

#[export] Instance offset_additive r0 : Additive (offset r0).
Proof.
  split; intros name r1 r2 ->; apply references_eq; simpl; try reflexivity.
  - now rewrite (assoc_L (∪)), (comm_L (∪) {[name]}), <- (assoc_L (∪)).
  - now rewrite (assoc_L (∪)), (comm_L (∪) {[name]}), <- (assoc_L (∪)).
Qed.

Section DetWorld.
Context (R : relation World) `{!Similar R}.

Lemma det_record ev : det R (record ev).
Proof. intros w1 w2 HR. split; [reflexivity|]. now apply similar_record. Qed.

Lemma det_api_call_read {A} r (f : Cluster → result A) :
  det R (api_call r (λ _ c, (f c, c))).
Proof.
  intros w1 w2 HR. rewrite !api_call_read. simpl. split.
  - destruct (similar_api _ _ HR) as [Hc Hf]. unfold answer.
    now rewrite Hc, Hf.
  - now apply similar_record.
Qed.

Context (RL : relation References) `{!Additive RL}.

Lemma det_add_secret name : det (pair_rel RL R) (add_secret name).
Proof. apply det_modify_local. intros. now apply additive_secret. Qed.

Lemma det_add_configmap name : det (pair_rel RL R) (add_configmap name).
Proof. apply det_modify_local. intros. now apply additive_configmap. Qed.

End DetWorld.

(** Breaks a goal [det R m] down along the structure of [m]. *)
Ltac det_step :=
  lazymatch goal with
  | |- det _ (bind _ _) => apply det_bind; [|intros ?]
  | |- det _ (for_each _ _) => apply det_for_each; intros ?
  | |- det _ (try_except _ _ _) => apply det_try_except; [|intros ?]
  | |- det _ (when _ _) => apply det_when
  | |- det _ (if_set _ _) => apply det_if_set; intros ?
  | |- det _ (ret _) => apply det_ret
  | |- det _ (raise _) => apply det_raise
  | |- det _ (lift_result _) => apply det_lift_result
  | |- det _ (global _) => apply det_global
  | |- det _ get_local => apply det_get_local
  | |- det _ (add_secret _) => apply det_add_secret; apply _
  | |- det _ (add_configmap _) => apply det_add_configmap; apply _
  | |- det _ (record _) => apply det_record; apply _
  | |- det _ (logger_info _) => apply det_record; apply _
  | |- det _ (logger_warning _) => apply det_record; apply _
  | |- det _ (logger_error _) => apply det_record; apply _
  | |- det _ (list_namespaced_pod _) => apply det_api_call_read; apply _
  | |- det _ (list_namespaced_deployment _) => apply det_api_call_read; apply _
  | |- det _ (list_namespaced_daemon_set _) => apply det_api_call_read; apply _
  | |- det _ (list_namespaced_stateful_set _) =>
      apply det_api_call_read; apply _
  | |- det _ (list_namespaced_secret _) => apply det_api_call_read; apply _
  | |- det _ (list_namespaced_config_map _) => apply det_api_call_read; apply _
  | |- det _ (read_namespaced_service_account _ _) =>
      apply det_api_call_read; apply _
  | |- det _ (read_namespaced_config_map _ _) =>
      apply det_api_call_read; apply _
  | |- det _ (if ?c then _ else _) => destruct c
  | |- det _ (match ?x with _ => _ end) => destruct x
  end.

Section DetScan.
Context (R : relation World) `{!Similar R}.
Context (RL : relation References) `{!Additive RL}.

Lemma det_extract pod_spec :
  det (pair_rel RL R) (_extract_references_from_pod_spec pod_spec).
Proof. unfold _extract_references_from_pod_spec. repeat det_step. Qed.

Lemma det_scan_templates workloads :
  det (pair_rel RL R) (scan_templates workloads).
Proof.
  unfold scan_templates. repeat first [apply det_extract | det_step].
Qed.

Lemma det_scan_pods ns : det (pair_rel RL R) (scan_pods ns).
Proof. unfold scan_pods. repeat first [apply det_extract | det_step]. Qed.

Lemma det_scan_deployments ns : det (pair_rel RL R) (scan_deployments ns).
Proof.
  unfold scan_deployments. repeat first [apply det_scan_templates | det_step].
Qed.

Lemma det_scan_daemonsets ns : det (pair_rel RL R) (scan_daemonsets ns).
Proof.
  unfold scan_daemonsets. repeat first [apply det_scan_templates | det_step].
Qed.

Lemma det_scan_statefulsets ns : det (pair_rel RL R) (scan_statefulsets ns).
Proof.
  unfold scan_statefulsets. repeat first [apply det_scan_templates | det_step].
Qed.

Lemma det_scan_workloads ns : det (pair_rel RL R) (scan_workloads ns).
Proof.
  unfold scan_workloads.
  repeat first
    [ apply det_scan_pods | apply det_scan_deployments
    | apply det_scan_daemonsets | apply det_scan_statefulsets | det_step ].
Qed.

End DetScan.

Lemma det_get_resource_references (R : relation World) `{!Similar R} ns :
  det R (get_resource_references ns).
Proof.
  intros w1 w2 HR. unfold get_resource_references.
  apply (det_with_local eq R); [reflexivity| |assumption].
  repeat first [apply det_scan_workloads; apply _ | det_step].
Qed.

(** ** Listing failures while references are collected *)

Lemma global_api_read {L A} r (f : Cluster → result A) (l : L) (w : World) :
  global (api_call r (λ _ c, (f c, c))) (l, w) = (answer w r f, (l, called r w)).
Proof. unfold global. now rewrite api_call_read. Qed.

Lemma run_Ok_unit {S} (m : M S unit) (s : S) :
  raises_only nothing m → m s = (Ok tt, (m s).2).
Proof.
  intros Hm. destruct (never_raises_returns m s Hm) as [[] Ha].
  destruct (m s) as [r s']. simpl in *. now subst.
Qed.

Lemma scan_kind_fails k ns refs w status :
  api_faults w (list_request k ns) = Some status →
  scan_kind k ns (refs, w)
  = (Raise (ApiException status), (refs, called (list_request k ns) w)).
Proof.
  intros Hfault.
  destruct k; simpl in *;
    unfold scan_pods, scan_deployments, scan_daemonsets, scan_statefulsets,
      list_namespaced_pod, list_namespaced_deployment,
      list_namespaced_daemon_set, list_namespaced_stateful_set, bind;
    rewrite global_api_read; unfold answer; now rewrite Hfault.
Qed.

Lemma scan_kind_listed k ns refs w :
  api_faults w (list_request k ns) = None →
  ∃ refs' w', scan_kind k ns (refs, w) = (Ok tt, (refs', w')).
Proof.
  intros Hfault.
  destruct k; simpl in *;
    unfold scan_pods, scan_deployments, scan_daemonsets, scan_statefulsets,
      list_namespaced_pod, list_namespaced_deployment,
      list_namespaced_daemon_set, list_namespaced_stateful_set, bind;
    rewrite global_api_read; unfold answer; rewrite Hfault.
  - match goal with |- context [for_each ?l ?b ?s] =>
      rewrite (run_Ok_unit (for_each l b) s);
      [destruct ((for_each l b s).2); eauto|]
    end.
    apply raises_for_each. intros. apply extract_never_raises.
  - match goal with |- context [scan_templates ?l ?s] =>
      rewrite (run_Ok_unit (scan_templates l) s);
      [destruct ((scan_templates l s).2); eauto
      |apply scan_templates_never_raises]
    end.
  - match goal with |- context [scan_templates ?l ?s] =>
      rewrite (run_Ok_unit (scan_templates l) s);
      [destruct ((scan_templates l s).2); eauto
      |apply scan_templates_never_raises]
    end.
  - match goal with |- context [scan_templates ?l ?s] =>
      rewrite (run_Ok_unit (scan_templates l) s);
      [destruct ((scan_templates l s).2); eauto
      |apply scan_templates_never_raises]
    end.
Qed.

Lemma det_scan_kind (R : relation World) `{!Similar R}
    (RL : relation References) `{!Additive RL} k ns :
  det (pair_rel RL R) (scan_kind k ns).
Proof.
  destruct k; simpl;
    [apply det_scan_pods|apply det_scan_deployments
    |apply det_scan_daemonsets|apply det_scan_statefulsets]; apply _.
Qed.

Lemma scan_kind_preserves (RL : relation References) `{!Accumulates RL}
    (R : relation World) `{!Framed R} k ns :
  preserves (pair_rel RL R) (scan_kind k ns).
Proof.
  destruct k; simpl;
    unfold scan_pods, scan_deployments, scan_daemonsets, scan_statefulsets;
    repeat first
      [ apply scan_extract; apply _ | apply scan_templates_preserves; apply _
      | apply framed_list_namespaced_pod; apply _
      | apply framed_list_namespaced_deployment; apply _
      | apply framed_list_namespaced_daemon_set; apply _
      | apply framed_list_namespaced_stateful_set; apply _
      | preserves_step ].
Qed.

#[export] Instance eq_similar : Similar eq.
Proof.
  split.
  - intros w1 w2 ->. now split.
  - intros w1 w2 ev ->. reflexivity.
Qed.

Lemma union_references_empty r : union_references r no_references = r.
Proof.
  apply references_eq; simpl; apply leibniz_equiv, (right_id ∅ (∪)).
Qed.

(** Scanning one kind adds to the references collected so far exactly
    what that kind holds. *)
Lemma scan_kind_adds k ns refs w :
  api_faults w (list_request k ns) = None →
  ∃ w', scan_kind k ns (refs, w)
        = (Ok tt, (union_references refs (references_of_kind ns w k), w'))
        ∧ setting w' = setting w.
Proof.
  intros Hfault.
  destruct (scan_kind_listed k ns refs w Hfault) as (refs1 & w1 & H1).
  destruct (scan_kind_listed k ns no_references w Hfault) as (refs2 & w2 & H2).
  destruct (det_scan_kind eq (offset refs) k ns (refs, w) (no_references, w))
    as [_ [Hoff Hw]].
  { split; simpl; [|reflexivity]. unfold offset.
    now rewrite union_references_empty. }
  rewrite H1, H2 in Hoff, Hw. simpl in *.
  exists w1. split.
  - rewrite H1. unfold references_of_kind, with_local, bind.
    rewrite H2. simpl. unfold offset in Hoff. now subst.
  - pose proof (scan_kind_preserves any (keeps setting) k ns (refs, w)) as Hp.
    rewrite H1 in Hp. apply Hp.
Qed.

Lemma setting_same_api w1 w2 : setting w1 = setting w2 → same_api w1 w2.
Proof. unfold setting. intros [= Hc Hf _ _ _ _ _ _]. now split. Qed.

Lemma references_of_kind_same_api ns k w1 w2 :
  same_api w1 w2 → references_of_kind ns w1 k = references_of_kind ns w2 k.
Proof.
  intros Hs. unfold references_of_kind.
  destruct (det_with_local eq same_api no_references no_references
              (scan_kind k ns ;; get_local) eq_refl) with (w1 := w1) (w2 := w2)
    as [Hres _]; [|assumption|].
  - repeat first [apply det_scan_kind; apply _ | det_step].
  - destruct (with_local _ _ w1) as [r1 t1], (with_local _ _ w2) as [r2 t2].
    simpl in *. now subst.
Qed.

Lemma bind_ret_tt {S} (m : M S unit) (s : S) : (m ;; ret tt) s = m s.
Proof. unfold bind, ret. now destruct (m s) as [[[]|e] s']. Qed.

Lemma scan_workloads_for_each ns s :
  scan_workloads ns s = for_each all_kinds (λ k, scan_kind k ns) s.
Proof.
  unfold scan_workloads. simpl. unfold bind at 1 2 3 4 5 6.
  destruct (scan_pods ns s) as [[[]|e] s1]; [|reflexivity].
  destruct (scan_deployments ns s1) as [[[]|e] s2]; [|reflexivity].
  destruct (scan_daemonsets ns s2) as [[[]|e] s3]; [|reflexivity].
  now rewrite bind_ret_tt.
Qed.

Lemma union_references_assoc r1 r2 r3 :
  union_references (union_references r1 r2) r3
  = union_references r1 (union_references r2 r3).
Proof.
  apply references_eq; simpl; symmetry; apply (assoc_L (∪)).
Qed.

Lemma listed_before_failure_setting ns w1 w2 ks :
  setting w1 = setting w2 →
  listed_before_failure ns w1 ks = listed_before_failure ns w2 ks.
Proof.
  intros Hs. apply setting_same_api in Hs as [_ Hf].
  induction ks as [|k ks IH]; simpl; [reflexivity|].
  unfold listing_succeeds. rewrite Hf, IH. reflexivity.
Qed.

Lemma first_failure_in_setting ns w1 w2 ks :
  setting w1 = setting w2 →
  first_failure_in ns w1 ks = first_failure_in ns w2 ks.
Proof.
  intros Hs. apply setting_same_api in Hs as [_ Hf].
  induction ks as [|k ks IH]; simpl; [reflexivity|].
  rewrite Hf, IH. reflexivity.
Qed.

(** The scan of a list of kinds stops at the first listing that fails and
    has then added the references of the kinds before it. *)
Lemma scan_kinds_run ns ks refs w :
  ∃ w',
    for_each ks (λ k, scan_kind k ns) (refs, w)
    = (match first_failure_in ns w ks with
       | Some (_, status) => Raise (ApiException status)
       | None => Ok tt
       end,
       (union_references refs
          (union_all (map (references_of_kind ns w)
                        (listed_before_failure ns w ks))), w'))
    ∧ setting w' = setting w
    ∧ clock_reads w' = clock_reads w.
Proof.
  revert refs w. induction ks as [|k ks IH]; intros refs w; simpl.
  - exists w. now rewrite union_references_empty.
  - unfold listing_succeeds.
    destruct (api_faults w (list_request k ns)) as [status|] eqn:Hfault.
    + exists (called (list_request k ns) w). unfold bind.
      rewrite (scan_kind_fails _ _ _ _ _ Hfault). simpl.
      rewrite union_references_empty. repeat split.
    + destruct (scan_kind_adds k ns refs w Hfault) as (w1 & Hrun & Hset).
      destruct (IH (union_references refs (references_of_kind ns w k)) w1)
        as (w' & Hrest & Hset' & Hreads').
      exists w'. unfold bind. rewrite Hrun, Hrest.
      rewrite (first_failure_in_setting ns w1 w ks Hset).
      rewrite (listed_before_failure_setting ns w1 w ks Hset).
      rewrite union_references_assoc. simpl.
      replace (map (references_of_kind ns w1) (listed_before_failure ns w ks))
        with (map (references_of_kind ns w) (listed_before_failure ns w ks)).
      2:{ apply map_ext. intros k'.
          apply references_of_kind_same_api, setting_same_api. now symmetry. }
      repeat split; [congruence|].
      rewrite Hreads'.
      pose proof (scan_kind_preserves any (keeps clock_reads) k ns (refs, w))
        as Hp.
      rewrite Hrun in Hp. apply Hp.
Qed.

Lemma union_all_includes (l : list References) (r : References) :
  r ∈ l → includes r (union_all l).
Proof.
  induction l as [|r' l IH]; intros Hr.
  - inversion Hr.
  - apply elem_of_cons in Hr as [->|Hr]; simpl.
    + split; simpl; apply union_subseteq_l.
    + destruct (IH Hr) as [H1 H2].
      split; simpl; (etransitivity; [eassumption|apply union_subseteq_r]).
Qed.

(** ** The classifier *)

Section Classifier.
Context `{PythonLibrary}.

Lemma should_exclude_resource_run name resource_type w :
  should_exclude_resource name resource_type w
  = (exclusion (CONFIG w) name resource_type, w).
Proof.
  unfold should_exclude_resource, exclusion, bind, config_get, lift_result.
  destruct (CONFIG w !! "exclude_patterns") as [v|]; [|reflexivity].
  destruct (iterate v) as [patterns|e]; [|reflexivity].
  destruct (existsb _ patterns); [reflexivity|]. simpl.
  now destruct (_ && _).
Qed.

(** What one round of the loop over the Secrets does. *)
Lemma check_secret_run references cutoff_time secret u w :
  let name := meta_name (secret_metadata secret) in
  check_secret references cutoff_time secret (u, w)
  = match exclusion (CONFIG w) name "secret" with
    | Raise e => (Raise e, (u, w))
    | Ok true => (Ok tt, (u, w))
    | Ok false =>
        if str_in (secret_type secret) system_secret_types
        then (Ok tt, (u, w))
        else if bool_decide (name ∈ ref_secrets references)
        then (Ok tt, (u, w))
        else match creation_timestamp (secret_metadata secret) with
             | None => (Raise AttributeError, (u, w))
             | Some t =>
                 match datetime_lt (replace_tzinfo t timezone_utc)
                         cutoff_time with
                 | Raise e => (Raise e, (u, w))
                 | Ok true =>
                     (Ok tt,
                      ({| unused_secrets := unused_secrets u ++ [name];
                          unused_configmaps := unused_configmaps u |}, w))
                 | Ok false => (Ok tt, (u, w))
                 end
             end
    end.
Proof.
  intros name. unfold check_secret, bind, global.
  rewrite should_exclude_resource_run. fold name.
  destruct (exclusion (CONFIG w) name "secret") as [[|]|e]; try reflexivity.
  destruct (str_in _ _); [reflexivity|].
  unfold unreferenced_and_old.
  destruct (bool_decide _); [reflexivity|].
  destruct (creation_timestamp _) as [t|]; [|reflexivity].
  unfold lift_result.
  now destruct (datetime_lt _ _) as [[|]|e].
Qed.

(** What one round of the loop over the ConfigMaps does. *)
Lemma check_configmap_run references cutoff_time configmap u w :
  let name := meta_name (config_map_metadata configmap) in
  check_configmap references cutoff_time configmap (u, w)
  = match exclusion (CONFIG w) name "configmap" with
    | Raise e => (Raise e, (u, w))
    | Ok true => (Ok tt, (u, w))
    | Ok false =>
        if bool_decide (name ∈ ref_configmaps references)
        then (Ok tt, (u, w))
        else match creation_timestamp (config_map_metadata configmap) with
             | None => (Raise AttributeError, (u, w))
             | Some t =>
                 match datetime_lt (replace_tzinfo t timezone_utc)
                         cutoff_time with
                 | Raise e => (Raise e, (u, w))
                 | Ok true =>
                     (Ok tt,
                      ({| unused_secrets := unused_secrets u;
                          unused_configmaps := unused_configmaps u ++ [name] |},
                       w))
                 | Ok false => (Ok tt, (u, w))
                 end
             end
    end.
Proof.
  intros name. unfold check_configmap, bind, global.
  rewrite should_exclude_resource_run. fold name.
  destruct (exclusion (CONFIG w) name "configmap") as [[|]|e];
    try reflexivity.
  unfold unreferenced_and_old.
  destruct (bool_decide _); [reflexivity|].
  destruct (creation_timestamp _) as [t|]; [|reflexivity].
  unfold lift_result.
  now destruct (datetime_lt _ _) as [[|]|e].
Qed.

End Classifier.

Section Loops.
Context `{PythonLibrary}.

Lemma exclusion_not_api_error config name resource_type e :
  exclusion config name resource_type = Raise e → is_ApiException e = false.
Proof.
  unfold exclusion. destruct (config !! "exclude_patterns") as [v|].
  - destruct v; simpl; intros [= <-]; reflexivity.
  - now intros [= <-].
Qed.

Lemma datetime_lt_not_api_error a b e :
  datetime_lt a b = Raise e → is_ApiException e = false.
Proof.
  unfold datetime_lt. destruct (tzinfo a), (tzinfo b); intros [= <-];
    reflexivity.
Qed.

(** The loop over the Secrets appends to [unused['secrets']] the names of
    eligible Secrets only, and of all of them when it runs to its end; it
    touches nothing else, and when it raises, the check of one of the
    Secrets has failed. *)
Lemma check_secrets_run references cutoff_time l :
  ∀ a b w,
  ∃ res added,
    for_each l (check_secret references cutoff_time)
      ({| unused_secrets := a; unused_configmaps := b |}, w)
    = (res, ({| unused_secrets := a ++ added; unused_configmaps := b |}, w))
    ∧ (∀ name, name ∈ added →
         ∃ s, s ∈ l ∧ meta_name (secret_metadata s) = name
              ∧ eligible_secret (CONFIG w) references cutoff_time s)
    ∧ (res = Ok tt →
       ∀ s, s ∈ l → eligible_secret (CONFIG w) references cutoff_time s →
            meta_name (secret_metadata s) ∈ added)
    ∧ (∀ e, res = Raise e →
         is_ApiException e = false
         ∧ ∃ s, s ∈ l
                ∧ check_fails (CONFIG w) cutoff_time
                    (meta_name (secret_metadata s)) "secret"
                    (creation_timestamp (secret_metadata s)) e).
Proof.
  induction l as [|s l IH]; intros a b w.
  - exists (Ok tt), []. rewrite app_nil_r. simpl. split; [reflexivity|].
    split; [intros name Hin; inversion Hin|].
    split; [intros _ s Hin; inversion Hin|discriminate].
  - cbn [for_each]. unfold bind at 1. rewrite check_secret_run. cbv zeta.
    pose (goal := λ run : result () * (Unused * World),
      ∃ res added,
        run
        = (res, ({| unused_secrets := a ++ added; unused_configmaps := b |}, w))
        ∧ (∀ name, name ∈ added →
             ∃ s0, s0 ∈ s :: l ∧ meta_name (secret_metadata s0) = name
                   ∧ eligible_secret (CONFIG w) references cutoff_time s0)
        ∧ (res = Ok tt →
           ∀ s0, s0 ∈ s :: l →
                 eligible_secret (CONFIG w) references cutoff_time s0 →
                 meta_name (secret_metadata s0) ∈ added)
        ∧ (∀ e, res = Raise e →
             is_ApiException e = false
             ∧ ∃ s0, s0 ∈ s :: l
                     ∧ check_fails (CONFIG w) cutoff_time
                         (meta_name (secret_metadata s0)) "secret"
                         (creation_timestamp (secret_metadata s0)) e)).
    assert (Hskip : ¬ eligible_secret (CONFIG w) references cutoff_time s →
      goal (for_each l (check_secret references cutoff_time)
              ({| unused_secrets := a; unused_configmaps := b |}, w))).
    { intros Hno. destruct (IH a b w) as (res & added & Hrun & Hs & Hc & He).
      exists res, added. split; [exact Hrun|]. split; [|split].
      - intros name Hin. destruct (Hs name Hin) as (s0 & Hin0 & Hrest).
        exists s0. split; [now right|exact Hrest].
      - intros Hres s0 Hin0 Hel.
        apply elem_of_cons in Hin0 as [->|Hin0]; [contradiction|].
        now apply Hc.
      - intros e Hres. destruct (He e Hres) as (Hapi & s0 & Hin0 & Hfail).
        split; [exact Hapi|]. exists s0. split; [now right|exact Hfail]. }
    assert (Hstop : ∀ e, is_ApiException e = false →
      check_fails (CONFIG w) cutoff_time (meta_name (secret_metadata s))
        "secret" (creation_timestamp (secret_metadata s)) e →
      goal (Raise e, ({| unused_secrets := a; unused_configmaps := b |}, w))).
    { intros e He Hfail. exists (Raise e), []. rewrite app_nil_r.
      split; [reflexivity|]. split; [intros name Hin; inversion Hin|].
      split; [discriminate|]. intros e0 [= <-]. split; [exact He|].
      exists s. split; [now left|exact Hfail]. }
    unfold goal in Hskip, Hstop. clear goal.
    destruct (exclusion (CONFIG w) (meta_name (secret_metadata s)) "secret")
      as [[|]|e] eqn:Hexcl; cbv beta iota.
    + apply Hskip. intros (Hex & _). congruence.
    + destruct (str_in (secret_type s) system_secret_types) eqn:Hsys;
        cbv beta iota.
      { apply Hskip. intros (_ & Hty & _). congruence. }
      destruct (bool_decide _) eqn:Href; cbv beta iota.
      { apply Hskip. intros (_ & _ & Hnot & _).
        apply bool_decide_eq_true in Href. contradiction. }
      apply bool_decide_eq_false in Href.
      destruct (creation_timestamp (secret_metadata s)) as [t|] eqn:Hts;
        cbv beta iota.
      2:{ apply Hstop; [reflexivity|]. right. now left. }
      destruct (datetime_lt _ cutoff_time) as [[|]|e] eqn:Hlt; cbv beta iota.
      * cbn [unused_secrets unused_configmaps].
        destruct (IH (a ++ [meta_name (secret_metadata s)]) b w)
          as (res & added & Hrun & Hs & Hc & He).
        exists res, (meta_name (secret_metadata s) :: added).
        rewrite Hrun, <- app_assoc. simpl. split; [reflexivity|].
        split; [|split].
        -- intros name Hin. apply elem_of_cons in Hin as [->|Hin].
           ++ exists s. split; [now left|]. split; [reflexivity|].
              repeat split; try assumption. exists t. now split.
           ++ destruct (Hs name Hin) as (s0 & Hin0 & Hrest).
              exists s0. split; [now right|exact Hrest].
        -- intros Hres s0 Hin0 Hel.
           apply elem_of_cons in Hin0 as [->|Hin0]; [now left|].
           right. now apply Hc.
        -- intros e Hres. destruct (He e Hres) as (Hapi & s0 & Hin0 & Hfail).
           split; [exact Hapi|]. exists s0. split; [now right|exact Hfail].
      * apply Hskip. intros (_ & _ & _ & t' & Ht' & Hlt').
        rewrite Hts in Ht'. injection Ht' as <-. congruence.
      * apply Hstop.
        -- eapply datetime_lt_not_api_error. exact Hlt.
        -- right. right. exists t. now split.
    + apply Hstop.
      * eapply exclusion_not_api_error. exact Hexcl.
      * now left.
Qed.

(** The loop over the ConfigMaps appends to [unused['configmaps']] the names
    of eligible ConfigMaps only, and of all of them when it runs to its end; it
    touches nothing else, and when it raises, the check of one of the
    ConfigMaps has failed. *)
Lemma check_configmaps_run references cutoff_time l :
  ∀ a b w,
  ∃ res added,
    for_each l (check_configmap references cutoff_time)
      ({| unused_secrets := b; unused_configmaps := a |}, w)
    = (res, ({| unused_secrets := b; unused_configmaps := a ++ added |}, w))
    ∧ (∀ name, name ∈ added →
         ∃ s, s ∈ l ∧ meta_name (config_map_metadata s) = name
              ∧ eligible_configmap (CONFIG w) references cutoff_time s)
    ∧ (res = Ok tt →
       ∀ s, s ∈ l → eligible_configmap (CONFIG w) references cutoff_time s →
            meta_name (config_map_metadata s) ∈ added)
    ∧ (∀ e, res = Raise e →
         is_ApiException e = false
         ∧ ∃ s, s ∈ l
                ∧ check_fails (CONFIG w) cutoff_time
                    (meta_name (config_map_metadata s)) "configmap"
                    (creation_timestamp (config_map_metadata s)) e).
Proof.
  induction l as [|s l IH]; intros a b w.
  - exists (Ok tt), []. rewrite app_nil_r. simpl. split; [reflexivity|].
    split; [intros name Hin; inversion Hin|].
    split; [intros _ s Hin; inversion Hin|discriminate].
  - cbn [for_each]. unfold bind at 1. rewrite check_configmap_run. cbv zeta.
    pose (goal := λ run : result () * (Unused * World),
      ∃ res added,
        run
        = (res, ({| unused_secrets := b; unused_configmaps := a ++ added |}, w))
        ∧ (∀ name, name ∈ added →
             ∃ s0, s0 ∈ s :: l ∧ meta_name (config_map_metadata s0) = name
                   ∧ eligible_configmap (CONFIG w) references cutoff_time s0)
        ∧ (res = Ok tt →
           ∀ s0, s0 ∈ s :: l →
                 eligible_configmap (CONFIG w) references cutoff_time s0 →
                 meta_name (config_map_metadata s0) ∈ added)
        ∧ (∀ e, res = Raise e →
             is_ApiException e = false
             ∧ ∃ s0, s0 ∈ s :: l
                     ∧ check_fails (CONFIG w) cutoff_time
                         (meta_name (config_map_metadata s0)) "configmap"
                         (creation_timestamp (config_map_metadata s0)) e)).
    assert (Hskip : ¬ eligible_configmap (CONFIG w) references cutoff_time s →
      goal (for_each l (check_configmap references cutoff_time)
              ({| unused_secrets := b; unused_configmaps := a |}, w))).
    { intros Hno. destruct (IH a b w) as (res & added & Hrun & Hs & Hc & He).
      exists res, added. split; [exact Hrun|]. split; [|split].
      - intros name Hin. destruct (Hs name Hin) as (s0 & Hin0 & Hrest).
        exists s0. split; [now right|exact Hrest].
      - intros Hres s0 Hin0 Hel.
        apply elem_of_cons in Hin0 as [->|Hin0]; [contradiction|].
        now apply Hc.
      - intros e Hres. destruct (He e Hres) as (Hapi & s0 & Hin0 & Hfail).
        split; [exact Hapi|]. exists s0. split; [now right|exact Hfail]. }
    assert (Hstop : ∀ e, is_ApiException e = false →
      check_fails (CONFIG w) cutoff_time (meta_name (config_map_metadata s))
        "configmap" (creation_timestamp (config_map_metadata s)) e →
      goal (Raise e, ({| unused_secrets := b; unused_configmaps := a |}, w))).
    { intros e He Hfail. exists (Raise e), []. rewrite app_nil_r.
      split; [reflexivity|]. split; [intros name Hin; inversion Hin|].
      split; [discriminate|]. intros e0 [= <-]. split; [exact He|].
      exists s. split; [now left|exact Hfail]. }
    unfold goal in Hskip, Hstop. clear goal.
    destruct (exclusion (CONFIG w) (meta_name (config_map_metadata s)) "configmap")
      as [[|]|e] eqn:Hexcl; cbv beta iota.
    + apply Hskip. intros (Hex & _). congruence.
    + destruct (bool_decide _) eqn:Href; cbv beta iota.
      { apply Hskip. intros (_ & Hnot & _).
        apply bool_decide_eq_true in Href. contradiction. }
      apply bool_decide_eq_false in Href.
      destruct (creation_timestamp (config_map_metadata s)) as [t|] eqn:Hts;
        cbv beta iota.
      2:{ apply Hstop; [reflexivity|]. right. now left. }
      destruct (datetime_lt _ cutoff_time) as [[|]|e] eqn:Hlt; cbv beta iota.
      * cbn [unused_secrets unused_configmaps].
        destruct (IH (a ++ [meta_name (config_map_metadata s)]) b w)
          as (res & added & Hrun & Hs & Hc & He).
        exists res, (meta_name (config_map_metadata s) :: added).
        rewrite Hrun, <- app_assoc. simpl. split; [reflexivity|].
        split; [|split].
        -- intros name Hin. apply elem_of_cons in Hin as [->|Hin].
           ++ exists s. split; [now left|]. split; [reflexivity|].
              repeat split; try assumption. exists t. now split.
           ++ destruct (Hs name Hin) as (s0 & Hin0 & Hrest).
              exists s0. split; [now right|exact Hrest].
        -- intros Hres s0 Hin0 Hel.
           apply elem_of_cons in Hin0 as [->|Hin0]; [now left|].
           right. now apply Hc.
        -- intros e Hres. destruct (He e Hres) as (Hapi & s0 & Hin0 & Hfail).
           split; [exact Hapi|]. exists s0. split; [now right|exact Hfail].
      * apply Hskip. intros (_ & _ & t' & Ht' & Hlt').
        rewrite Hts in Ht'. injection Ht' as <-. congruence.
      * apply Hstop.
        -- eapply datetime_lt_not_api_error. exact Hlt.
        -- right. right. exists t. now split.
    + apply Hstop.
      * eapply exclusion_not_api_error. exact Hexcl.
      * now left.
Qed.

End Loops.

Section GetUnused.
Context `{PythonLibrary}.

Lemma compute_cutoff_time_run w :
  compute_cutoff_time w = (cutoff_of w, set_clock_reads (S (clock_reads w)) w).
Proof.
  unfold compute_cutoff_time, cutoff_of, bind, datetime_now_utc, config_get,
    lift_result. simpl.
  destruct (CONFIG w !! "unused_threshold_hours") as [v|]; [|reflexivity].
  now destruct (timedelta_hours v).
Qed.

Lemma should_exclude_resource_preserves (R : relation World) `{!Reflexive R}
    name resource_type :
  preserves R (should_exclude_resource name resource_type).
Proof. intros w. rewrite should_exclude_resource_run. simpl. reflexivity. Qed.

Lemma classify_resources_preserves (R : relation World) `{!Framed R}
    ns references cutoff_time :
  preserves R (classify_resources ns references cutoff_time).
Proof.
  unfold classify_resources. apply (preserves_with_local any).
  unfold check_secret, check_configmap, unreferenced_and_old, append_secret,
    append_configmap.
  repeat first
    [ apply framed_list_namespaced_secret; apply _
    | apply framed_list_namespaced_config_map; apply _
    | apply should_exclude_resource_preserves; apply _
    | apply preserves_modify_local; [apply _|intros; exact I]
    | preserves_step ].
Qed.

(** The classification of a namespace, case by case: which listing fails,
    and whether a loop stops on an exception. *)
Lemma classify_resources_run ns references cutoff_time w :
  ∃ res w',
    classify_resources ns references cutoff_time w = (res, w')
    ∧ classification ns references cutoff_time w res w'.
Proof.
  unfold classification.
  unfold classify_resources, with_local, bind at 1, try_except, bind at 1.
  unfold list_namespaced_secret at 1. rewrite global_api_read.
  unfold answer at 1.
  destruct (api_faults w (ListNamespacedSecret ns)) as [status|] eqn:Hf1.
  { cbn. eexists _, _. split; [reflexivity|]. split; [reflexivity|].
    apply last_snoc. }
  pose (w1 := called (ListNamespacedSecret ns) w).
  cbv beta iota. fold (secrets_in ns w). fold w1. unfold bind at 1.
  destruct (check_secrets_run references cutoff_time (secrets_in ns w)
              [] [] w1) as (res1 & added1 & Hrun1 & Hs1 & Hc1 & He1).
  unfold no_unused. rewrite Hrun1. simpl app.
  destruct res1 as [[]|e].
  2:{ destruct (He1 e eq_refl) as [Hapi Hfail]. rewrite Hapi. cbn.
      eexists _, _. split; [reflexivity|].
      exists (Raise e), added1. repeat split; auto. }
  unfold bind at 1. unfold list_namespaced_config_map at 1.
  rewrite global_api_read. unfold answer at 1.
  change (api_faults w1) with (api_faults w).
  destruct (api_faults w (ListNamespacedConfigMap ns)) as [status|] eqn:Hf2.
  { cbn. eexists _, _. split; [reflexivity|].
    exists (Ok tt), added1. repeat split; auto.
    apply last_snoc. }
  pose (w2 := called (ListNamespacedConfigMap ns) w1).
  cbv beta iota. change (cluster w1) with (cluster w).
  fold (config_maps_in ns w). fold w2.
  destruct (check_configmaps_run references cutoff_time (config_maps_in ns w)
              [] added1 w2) as (res2 & added2 & Hrun2 & Hs2 & Hc2 & He2).
  rewrite Hrun2. simpl app.
  destruct res2 as [[]|e].
  - cbn. eexists _, _. split; [reflexivity|].
    exists (Ok tt), added1. repeat split; auto.
    exists (Ok tt), added2. repeat split; auto.
  - destruct (He2 e eq_refl) as [Hapi Hfail]. rewrite Hapi. cbn.
    eexists _, _. split; [reflexivity|].
    exists (Ok tt), added1. repeat split; auto.
    exists (Raise e), added2. repeat split; auto.
Qed.

Lemma classification_setting ns references cutoff_time w1 w2 res w' :
  setting w1 = setting w2 →
  classification ns references cutoff_time w1 res w' →
  classification ns references cutoff_time w2 res w'.
Proof.
  unfold setting. intros [= Hc Hf _ _ _ _ HC _].
  unfold classification, secrets_in, config_maps_in.
  now rewrite Hc, Hf, HC.
Qed.

Lemma quiet_framed : Framed (extends quiet).
Proof.
  apply extends_framed.
  - intros l [ ]; try discriminate; intros _; now destruct l.
  - intros r Hd Hp. unfold quiet. simpl. now rewrite Hd, Hp.
Qed.

Lemma within_cycle_executing : Executing (extends within_cycle).
Proof.
  apply extends_executing.
  - intros l [ ]; intros [Hm|Hm]; try discriminate; now destruct l.
  - intros r Hp. split; [exact Hp|reflexivity].
Qed.

Lemma quiet_delete_calls evs : Forall quiet evs → delete_calls evs = [].
Proof.
  induction 1 as [|ev evs (Hd & _) _ IH]; [reflexivity|].
  simpl. rewrite IH. destruct ev as [r|]; [|reflexivity].
  simpl in Hd. now rewrite Hd.
Qed.

Lemma quiet_failed_secret evs : Forall quiet evs → count failed_secret evs = 0.
Proof.
  induction 1 as [|ev evs (_ & _ & Hf & _) _ IH]; [reflexivity|].
  rewrite count_cons, Hf, IH. reflexivity.
Qed.

Lemma quiet_failed_configmap evs :
  Forall quiet evs → count failed_configmap evs = 0.
Proof.
  induction 1 as [|ev evs (_ & _ & _ & Hf & _) _ IH]; [reflexivity|].
  rewrite count_cons, Hf, IH. reflexivity.
Qed.

Lemma compute_cutoff_time_preserves (R : relation World) `{!Reflexive R} :
  preserves R datetime_now_utc → preserves R compute_cutoff_time.
Proof.
  intros Hnow w. rewrite compute_cutoff_time_run. simpl. apply (Hnow w).
Qed.

Lemma get_unused_resources_preserves (R : relation World) `{!Framed R} ns :
  preserves R datetime_now_utc → preserves R (get_unused_resources ns).
Proof.
  intros Hnow. unfold get_unused_resources.
  apply preserves_bind; [apply _| |intros cutoff_time].
  { apply compute_cutoff_time_preserves; [apply _|exact Hnow]. }
  apply preserves_bind; [apply _| |intros references].
  { apply get_resource_references_preserves, _. }
  apply classify_resources_preserves, _.
Qed.

(** One call of [get_unused_resources]: the clock is read once, then the
    references are collected, then the namespace is classified. *)
Lemma get_unused_resources_run ns w :
  ∃ res w',
    get_unused_resources ns w = (res, w')
    ∧ clock_reads w' = S (clock_reads w)
    ∧ setting w' = setting w
    ∧ extends quiet w w'
    ∧ match cutoff_of w with
      | Raise e => res = Raise e
      | Ok cutoff_time =>
          ∃ references,
            (get_resource_references ns w).1 = Ok references
            ∧ classification ns references cutoff_time w res w'
      end.
Proof.
  destruct (get_unused_resources ns w) as [res w'] eqn:Hrun.
  exists res, w'. split; [reflexivity|].
  assert (Hset : setting w' = setting w).
  { pose proof (get_unused_resources_preserves (keeps setting) ns
                  (keeps_datetime_now_utc setting) w) as Hp.
    now rewrite Hrun in Hp. }
  assert (Hext : extends quiet w w').
  { pose proof (@get_unused_resources_preserves (extends quiet)
                  quiet_framed ns (extends_datetime_now_utc quiet) w) as Hp.
    now rewrite Hrun in Hp. }
  revert Hrun. unfold get_unused_resources, bind at 1.
  rewrite compute_cutoff_time_run.
  pose (w1 := set_clock_reads (S (clock_reads w)) w). fold w1.
  destruct (cutoff_of w) as [cutoff_time|e].
  2:{ intros [= <- <-]. repeat split; auto. }
  unfold bind at 1.
  destruct (never_raises_returns (get_resource_references ns) w1
              (get_resource_references_never_raises ns)) as [references Href].
  pose proof (get_resource_references_preserves (keeps setting) ns w1) as Hs2.
  pose proof (get_resource_references_preserves (keeps clock_reads) ns w1)
    as Hr2.
  destruct (get_resource_references ns w1) as [r w2] eqn:Hg. simpl in Href.
  subst r. simpl in Hs2, Hr2.
  destruct (classify_resources_run ns references cutoff_time w2)
    as (res' & w'' & Hcl & Hclass).
  pose proof (classify_resources_preserves (keeps clock_reads) ns references
                cutoff_time w2) as Hr3.
  rewrite Hcl in Hr3 |- *. simpl in Hr3. intros [= <- <-].
  split; [unfold keeps in *; now rewrite Hr3, Hr2|].
  split; [exact Hset|]. split; [exact Hext|].
  exists references. split.
  - destruct (det_get_resource_references same_api ns w w1) as [Hres _].
    { now split. }
    now rewrite Hres, Hg.
  - eapply classification_setting; [|exact Hclass]. exact Hs2.
Qed.

End GetUnused.

Section Candidates.
Context `{PythonLibrary}.

(** Every name that [get_unused_resources] returns is the name of an
    eligible resource of the namespace, for the cutoff computed at the
    start of the call and the references collected in it. *)
Lemma candidates_sound ns w unused w' :
  get_unused_resources ns w = (Ok unused, w') →
  ∃ cutoff_time references,
    cutoff_of w = Ok cutoff_time
    ∧ (get_resource_references ns w).1 = Ok references
    ∧ (∀ name, name ∈ unused_secrets unused →
         ∃ s, s ∈ secrets_in ns w ∧ meta_name (secret_metadata s) = name
              ∧ eligible_secret (CONFIG w) references cutoff_time s)
    ∧ (∀ name, name ∈ unused_configmaps unused →
         ∃ m, m ∈ config_maps_in ns w
              ∧ meta_name (config_map_metadata m) = name
              ∧ eligible_configmap (CONFIG w) references cutoff_time m).
Proof.
  intros Hrun.
  destruct (get_unused_resources_run ns w) as (res & w0 & Hrun' & _ & _ & _ & Hc).
  rewrite Hrun in Hrun'. injection Hrun' as <- <-.
  destruct (cutoff_of w) as [cutoff_time|e]; [|discriminate].
  destruct Hc as (references & Href & Hclass).
  exists cutoff_time, references. split; [reflexivity|]. split; [exact Href|].
  unfold classification in Hclass.
  destruct (api_faults w (ListNamespacedSecret ns)).
  { destruct Hclass as [[= ->] _]. split; intros name Hin; inversion Hin. }
  destruct Hclass as (res1 & added1 & Hs1 & _ & Hrest).
  destruct res1 as [[]|e]; [|now destruct Hrest].
  destruct (api_faults w (ListNamespacedConfigMap ns)).
  { destruct Hrest as [[= ->] _]. split; [exact Hs1|].
    intros name Hin; inversion Hin. }
  destruct Hrest as (res2 & added2 & Hs2 & _ & Hrest).
  destruct res2 as [[]|e]; [|now destruct Hrest].
  injection Hrest as ->. now split.
Qed.

(** The cutoff is the reading of the clock less the threshold, in UTC. *)
Lemma cutoff_of_hours w h cutoff_time :
  CONFIG w !! "unused_threshold_hours" = Some (VInt h) →
  cutoff_of w = Ok cutoff_time →
  cutoff_time
  = {| wall_clock := clock w (clock_reads w) - h * microseconds_per_hour;
       tzinfo := Some timezone_utc |}.
Proof.
  unfold cutoff_of. intros ->. unfold timedelta_hours.
  destruct (_ && _); [|discriminate].
  unfold datetime_sub. simpl. destruct (_ && _); [|discriminate].
  now intros [= <-].
Qed.

Lemma cutoff_of_utc w cutoff_time :
  cutoff_of w = Ok cutoff_time → tzinfo cutoff_time = Some timezone_utc.
Proof.
  unfold cutoff_of. destruct (CONFIG w !! _) as [v|]; [|discriminate].
  destruct (timedelta_hours v) as [delta|]; [|discriminate].
  unfold datetime_sub. simpl. destruct (_ && _); [|discriminate].
  now intros [= <-].
Qed.

(** Against a UTC cutoff, "older" is a comparison of the wall-clock
    readings. *)
Lemma older_than_utc cutoff_time timestamp :
  tzinfo cutoff_time = Some timezone_utc →
  older_than cutoff_time timestamp ↔
  ∃ t, timestamp = Some t ∧ wall_clock t < wall_clock cutoff_time.
Proof.
  intros Hutc. unfold older_than, datetime_lt, replace_tzinfo. simpl.
  rewrite Hutc. unfold timezone_utc.
  split; intros (t & Ht & Hlt); exists t; (split; [exact Ht|]).
  - injection Hlt as Hlt. apply Z.ltb_lt in Hlt. lia.
  - f_equal. apply Z.ltb_lt. lia.
Qed.

End Candidates.

Lemma str_in_elem_of x l : str_in x l = true ↔ x ∈ l.
Proof.
  unfold str_in. rewrite existsb_exists. split.
  - intros (y & Hin & Heq). apply String.eqb_eq in Heq as ->.
    now apply list_elem_of_In.
  - intros Hin. exists x. split; [now apply list_elem_of_In|].
    apply String.eqb_refl.
Qed.

Section Exclusion.
Context `{PythonLibrary}.

Lemma exclusion_configured config patterns name resource_type :
  configured_patterns config patterns →
  exclusion config name resource_type
  = Ok (existsb (λ pattern, fnmatch name pattern) patterns
        || (String.eqb resource_type "secret"
            && (startswith name "default-token-" || endswith name "-token"))).
Proof. intros (v & Hv & Hit). unfold exclusion. now rewrite Hv, Hit. Qed.

Lemma exclusion_by_pattern config patterns name resource_type :
  configured_patterns config patterns →
  (∃ pattern, pattern ∈ patterns ∧ fnmatch name pattern = true) →
  exclusion config name resource_type = Ok true.
Proof.
  intros Hconf (pattern & Hin & Hmatch).
  rewrite (exclusion_configured _ _ _ _ Hconf).
  replace (existsb _ patterns) with true; [reflexivity|].
  symmetry. apply existsb_exists. exists pattern.
  split; [now apply list_elem_of_In|exact Hmatch].
Qed.

Lemma exclusion_by_name config patterns name :
  configured_patterns config patterns →
  startswith name "default-token-" = true ∨ endswith name "-token" = true →
  exclusion config name "secret" = Ok true.
Proof.
  intros Hconf Hname. rewrite (exclusion_configured _ _ _ _ Hconf).
  f_equal. apply orb_true_iff. right. simpl. now apply orb_true_iff.
Qed.

End Exclusion.

(** ** Dry-run and live runs see the same candidates *)

#[export] Instance alike_similar : Similar alike.
Proof.
  split.
  - now intros w1 w2 [Hapi _].
  - intros w1 w2 ev ([Hc Hf] & Hclock & Hreads & Hconfig).
    repeat split; assumption.
Qed.

Lemma det_config_get key : key ≠ "dry_run" → det alike (config_get key).
Proof.
  intros Hkey w1 w2 Halike. unfold config_get.
  destruct Halike as (Hapi & Hclock & Hreads & Hconfig).
  rewrite (Hconfig key Hkey).
  destruct (CONFIG w2 !! key); (split; [reflexivity|]);
    repeat split; try assumption; apply Hapi.
Qed.

Lemma det_datetime_now_utc : det alike datetime_now_utc.
Proof.
  intros w1 w2 (Hapi & Hclock & Hreads & Hconfig). unfold datetime_now_utc.
  simpl. rewrite Hclock, Hreads. split; [reflexivity|].
  repeat split; try assumption; apply Hapi.
Qed.

Section DetClassifier.
Context `{PythonLibrary}.

Lemma det_compute_cutoff_time : det alike compute_cutoff_time.
Proof.
  unfold compute_cutoff_time.
  repeat first
    [ apply det_datetime_now_utc | apply det_config_get; discriminate
    | det_step ].
Qed.

Lemma det_should_exclude_resource name resource_type :
  det alike (should_exclude_resource name resource_type).
Proof.
  unfold should_exclude_resource.
  repeat first [apply det_config_get; discriminate | det_step].
Qed.

Lemma det_classify_resources ns references cutoff_time :
  det alike (classify_resources ns references cutoff_time).
Proof.
  intros w1 w2 Halike. unfold classify_resources.
  apply (det_with_local eq alike); [reflexivity| |assumption].
  unfold check_secret, check_configmap, unreferenced_and_old, append_secret,
    append_configmap.
  repeat first
    [ apply det_should_exclude_resource
    | apply det_modify_local; intros ? ? ->; reflexivity
    | det_step ].
Qed.

Lemma det_get_unused_resources ns : det alike (get_unused_resources ns).
Proof.
  unfold get_unused_resources.
  apply det_bind; [apply det_compute_cutoff_time|intros cutoff_time].
  apply det_bind; [apply det_get_resource_references, _|intros references].
  apply det_classify_resources.
Qed.

End DetClassifier.

Lemma alike_with_dry_run b1 b2 w : alike (with_dry_run b1 w) (with_dry_run b2 w).
Proof.
  repeat split. intros key Hkey. simpl.
  now rewrite !lookup_insert_ne by congruence.
Qed.

(** ** The executor *)

Lemma delete_namespaced_secret_run name ns w :
  let r := DeleteNamespacedSecret name ns in
  delete_namespaced_secret name ns w
  = match api_faults w r with
    | Some status => (Raise (ApiException status), called r w)
    | None =>
        if secret_exists name ns (cluster w)
        then (Ok tt, set_cluster (without_secret name ns (cluster w))
                       (called r w))
        else (Raise (ApiException 404), called r w)
    end.
Proof.
  unfold delete_namespaced_secret, api_call, bind, record, modify. simpl.
  fold (called (DeleteNamespacedSecret name ns) w).
  destruct (api_faults w _); [reflexivity|].
  fold (secret_exists name ns (cluster w)).
  now destruct (secret_exists name ns (cluster w)).
Qed.

Lemma delete_namespaced_config_map_run name ns w :
  let r := DeleteNamespacedConfigMap name ns in
  delete_namespaced_config_map name ns w
  = match api_faults w r with
    | Some status => (Raise (ApiException status), called r w)
    | None =>
        if config_map_exists name ns (cluster w)
        then (Ok tt, set_cluster (without_config_map name ns (cluster w))
                       (called r w))
        else (Raise (ApiException 404), called r w)
    end.
Proof.
  unfold delete_namespaced_config_map, api_call, bind, record, modify. simpl.
  fold (called (DeleteNamespacedConfigMap name ns) w).
  destruct (api_faults w _); [reflexivity|].
  fold (config_map_exists name ns (cluster w)).
  now destruct (config_map_exists name ns (cluster w)).
Qed.

Lemma secret_exists_without name ns name' ns' c :
  secret_exists name ns c = false →
  secret_exists name ns (without_secret name' ns' c) = false.
Proof.
  unfold secret_exists, without_secret. simpl.
  generalize (secrets c). intros l. induction l as [|s l IH]; [easy|].
  simpl. intros Hex. apply orb_false_iff in Hex as [Hs Hl].
  rewrite filter_cons. destruct (decide _); simpl; [rewrite Hs|]; auto.
Qed.

Lemma config_map_exists_without name ns name' ns' c :
  config_map_exists name ns c = false →
  config_map_exists name ns (without_config_map name' ns' c) = false.
Proof.
  unfold config_map_exists, without_config_map. simpl.
  generalize (config_maps c). intros l. induction l as [|s l IH]; [easy|].
  simpl. intros Hex. apply orb_false_iff in Hex as [Hs Hl].
  rewrite filter_cons. destruct (decide _); simpl; [rewrite Hs|]; auto.
Qed.

Section Executor.
Context `{PythonLibrary}.

Lemma delete_unused_secrets_preserves (R : relation World) `{!Executing R}
    ns names :
  preserves (pair_rel any R) (delete_unused_secrets ns names).
Proof.
  unfold delete_unused_secrets, try_delete_secret, count_secret.
  repeat first
    [ apply executing_delete; reflexivity
    | apply preserves_modify_local; [apply _|intros; exact I]
    | preserves_step ].
Qed.

Lemma delete_unused_configmaps_preserves (R : relation World) `{!Executing R}
    ns names :
  preserves (pair_rel any R) (delete_unused_configmaps ns names).
Proof.
  unfold delete_unused_configmaps, try_delete_configmap, count_configmap.
  repeat first
    [ apply executing_delete; reflexivity
    | apply preserves_modify_local; [apply _|intros; exact I]
    | preserves_step ].
Qed.

Lemma delete_unused_preserves (R : relation World) `{!Executing R}
    ns unused :
  preserves R (delete_unused ns unused).
Proof.
  unfold delete_unused. apply (preserves_with_local any).
  repeat first
    [ apply delete_unused_secrets_preserves; apply _
    | apply delete_unused_configmaps_preserves; apply _
    | preserves_step ].
Qed.

(** One round of the loop over the unused Secrets. *)
Lemma try_delete_secret_run ns name r w v :
  CONFIG w !! "dry_run" = Some v →
  let counted := {| secrets_deleted := secrets_deleted r + 1;
                    configmaps_deleted := configmaps_deleted r |} in
  let request := DeleteNamespacedSecret name ns in
  try_delete_secret ns name (r, w)
  = if truthy v
    then (Ok tt, (counted, logged INFO (WouldDeleteSecret ns name) w))
    else match api_faults w request with
         | Some status =>
             (Ok tt,
              (r, logged ERROR
                    (FailedToDeleteSecret ns name (ApiException status))
                    (called request w)))
         | None =>
             if secret_exists name ns (cluster w)
             then (Ok tt,
                   (counted,
                    logged INFO (DeletedSecret ns name)
                      (set_cluster (without_secret name ns (cluster w))
                         (called request w))))
             else (Ok tt,
                   (r, logged ERROR
                         (FailedToDeleteSecret ns name (ApiException 404))
                         (called request w)))
         end.
Proof.
  intros Hv counted request.
  unfold try_delete_secret, try_except, bind at 1, global at 1, config_get.
  rewrite Hv. destruct (truthy v); [reflexivity|].
  unfold bind at 1 2, global at 1. rewrite delete_namespaced_secret_run.
  fold request. destruct (api_faults w request); [reflexivity|].
  now destruct (secret_exists name ns (cluster w)).
Qed.

(** One round of the loop over the unused ConfigMaps. *)
Lemma try_delete_configmap_run ns name r w v :
  CONFIG w !! "dry_run" = Some v →
  let counted := {| secrets_deleted := secrets_deleted r;
                    configmaps_deleted := configmaps_deleted r + 1 |} in
  let request := DeleteNamespacedConfigMap name ns in
  try_delete_configmap ns name (r, w)
  = if truthy v
    then (Ok tt, (counted, logged INFO (WouldDeleteConfigMap ns name) w))
    else match api_faults w request with
         | Some status =>
             (Ok tt,
              (r, logged ERROR
                    (FailedToDeleteConfigMap ns name (ApiException status))
                    (called request w)))
         | None =>
             if config_map_exists name ns (cluster w)
             then (Ok tt,
                   (counted,
                    logged INFO (DeletedConfigMap ns name)
                      (set_cluster (without_config_map name ns (cluster w))
                         (called request w))))
             else (Ok tt,
                   (r, logged ERROR
                         (FailedToDeleteConfigMap ns name (ApiException 404))
                         (called request w)))
         end.
Proof.
  intros Hv counted request.
  unfold try_delete_configmap, try_except, bind at 1, global at 1, config_get.
  rewrite Hv. destruct (truthy v); [reflexivity|].
  unfold bind at 1 2, global at 1. rewrite delete_namespaced_config_map_run.
  fold request. destruct (api_faults w request); [reflexivity|].
  now destruct (config_map_exists name ns (cluster w)).
Qed.

(** The loop over the unused Secrets: every name is attempted; in dry-run
    mode nothing is requested and every name is counted; in live mode one
    delete request is sent per name, in order, and the names whose request
    failed are logged and not counted. *)
Lemma delete_unused_secrets_run ns names :
  ∀ r w v,
  CONFIG w !! "dry_run" = Some v →
  ∃ r' w' new,
    delete_unused_secrets ns names (r, w) = (Ok tt, (r', w'))
    ∧ events w' = events w ++ new
    ∧ CONFIG w' = CONFIG w
    ∧ api_faults w' = api_faults w
    ∧ config_maps (cluster w') = config_maps (cluster w)
    ∧ configmaps_deleted r' = configmaps_deleted r
    ∧ secrets_deleted r'
      = secrets_deleted r + Z.of_nat (length names) - count failed_secret new
    ∧ count failed_configmap new = 0
    ∧ (if truthy v
       then cluster w' = cluster w ∧ delete_calls new = []
            ∧ count failed_secret new = 0
       else delete_calls new = map (λ n, DeleteNamespacedSecret n ns) names
            ∧ ∀ name, name ∈ names →
                secret_exists name ns (cluster w) = false →
                ∃ e, Logged ERROR (FailedToDeleteSecret ns name e) ∈ new).
Proof.
  induction names as [|n names IH]; intros r w v Hv.
  - exists r, w, []. rewrite app_nil_r. repeat split; try reflexivity.
    + rewrite count_nil. simpl. lia.
    + destruct (truthy v); repeat split; try reflexivity.
      intros name Hin. inversion Hin.
  - unfold delete_unused_secrets in *. cbn [for_each]. unfold bind at 1.
    rewrite (try_delete_secret_run ns n r w v Hv). cbv zeta.
    destruct (truthy v) eqn:Htruthy.
    { match goal with |- context [for_each names _ (?r1, ?w1)] =>
        destruct (IH r1 w1 v Hv)
          as (r' & w' & new & Hrun & Hev & HC & Hf & Hcm & Hcd & Hsd & Hfc
              & Hmode)
      end.
      rewrite Htruthy in Hmode. destruct Hmode as (Hcl & Hdc & Hfs).
      exists r', w', (Logged INFO (WouldDeleteSecret ns n) :: new).
      rewrite Hrun. simpl in *. rewrite Hev, <- app_assoc. simpl.
      repeat split; try assumption.
      - rewrite count_cons. simpl. lia. }
    destruct (api_faults w (DeleteNamespacedSecret n ns)) as [status|] eqn:Hfault;
      [|destruct (secret_exists n ns (cluster w)) eqn:Hexists].
    + match goal with |- context [for_each names _ (?r1, ?w1)] =>
        destruct (IH r1 w1 v Hv)
          as (r' & w' & new & Hrun & Hev & HC & Hf & Hcm & Hcd & Hsd & Hfc
              & Hmode)
      end.
      rewrite Htruthy in Hmode. destruct Hmode as (Hdc & Hgone).
      exists r', w',
        (Called (DeleteNamespacedSecret n ns)
         :: Logged ERROR (FailedToDeleteSecret ns n (ApiException status))
         :: new).
      rewrite Hrun. simpl in *. rewrite Hev, <- !app_assoc. simpl.
      repeat split; try assumption.
      * rewrite !count_cons. simpl. lia.
      * now rewrite Hdc.
      * intros name Hin Hmissing.
        apply elem_of_cons in Hin as [->|Hin].
        -- eexists. right. left.
        -- destruct (Hgone name Hin Hmissing) as [e He].
           exists e. now do 2 right.
    + match goal with |- context [for_each names _ (?r1, ?w1)] =>
        destruct (IH r1 w1 v Hv)
          as (r' & w' & new & Hrun & Hev & HC & Hf & Hcm & Hcd & Hsd & Hfc
              & Hmode)
      end.
      rewrite Htruthy in Hmode. destruct Hmode as (Hdc & Hgone).
      exists r', w',
        (Called (DeleteNamespacedSecret n ns)
         :: Logged INFO (DeletedSecret ns n) :: new).
      rewrite Hrun. simpl in *. rewrite Hev, <- !app_assoc. simpl.
      repeat split; try assumption.
      * rewrite !count_cons. simpl. lia.
      * now rewrite Hdc.
      * intros name Hin Hmissing.
        apply elem_of_cons in Hin as [->|Hin]; [congruence|].
        destruct (Hgone name Hin) as [e He].
        { now apply secret_exists_without. }
        exists e. now do 2 right.
    + match goal with |- context [for_each names _ (?r1, ?w1)] =>
        destruct (IH r1 w1 v Hv)
          as (r' & w' & new & Hrun & Hev & HC & Hf & Hcm & Hcd & Hsd & Hfc
              & Hmode)
      end.
      rewrite Htruthy in Hmode. destruct Hmode as (Hdc & Hgone).
      exists r', w',
        (Called (DeleteNamespacedSecret n ns)
         :: Logged ERROR (FailedToDeleteSecret ns n (ApiException 404))
         :: new).
      rewrite Hrun. simpl in *. rewrite Hev, <- !app_assoc. simpl.
      repeat split; try assumption.
      * rewrite !count_cons. simpl. lia.
      * now rewrite Hdc.
      * intros name Hin Hmissing.
        apply elem_of_cons in Hin as [->|Hin].
        -- eexists. right. left.
        -- destruct (Hgone name Hin Hmissing) as [e He].
           exists e. now do 2 right.
Qed.

(** The loop over the unused ConfigMaps: every name is attempted; in dry-run
    mode nothing is requested and every name is counted; in live mode one
    delete request is sent per name, in order, and the names whose request
    failed are logged and not counted. *)
Lemma delete_unused_configmaps_run ns names :
  ∀ r w v,
  CONFIG w !! "dry_run" = Some v →
  ∃ r' w' new,
    delete_unused_configmaps ns names (r, w) = (Ok tt, (r', w'))
    ∧ events w' = events w ++ new
    ∧ CONFIG w' = CONFIG w
    ∧ api_faults w' = api_faults w
    ∧ secrets (cluster w') = secrets (cluster w)
    ∧ secrets_deleted r' = secrets_deleted r
    ∧ configmaps_deleted r'
      = configmaps_deleted r + Z.of_nat (length names)
        - count failed_configmap new
    ∧ count failed_secret new = 0
    ∧ (if truthy v
       then cluster w' = cluster w ∧ delete_calls new = []
            ∧ count failed_configmap new = 0
       else delete_calls new = map (λ n, DeleteNamespacedConfigMap n ns) names
            ∧ ∀ name, name ∈ names →
                config_map_exists name ns (cluster w) = false →
                ∃ e, Logged ERROR (FailedToDeleteConfigMap ns name e) ∈ new).
Proof.
  induction names as [|n names IH]; intros r w v Hv.
  - exists r, w, []. rewrite app_nil_r. repeat split; try reflexivity.
    + rewrite count_nil. simpl. lia.
    + destruct (truthy v); repeat split; try reflexivity.
      intros name Hin. inversion Hin.
  - unfold delete_unused_configmaps in *. cbn [for_each]. unfold bind at 1.
    rewrite (try_delete_configmap_run ns n r w v Hv). cbv zeta.
    destruct (truthy v) eqn:Htruthy.
    { match goal with |- context [for_each names _ (?r1, ?w1)] =>
        destruct (IH r1 w1 v Hv)
          as (r' & w' & new & Hrun & Hev & HC & Hf & Hcm & Hcd & Hsd & Hfc
              & Hmode)
      end.
      rewrite Htruthy in Hmode. destruct Hmode as (Hcl & Hdc & Hfs).
      exists r', w', (Logged INFO (WouldDeleteConfigMap ns n) :: new).
      rewrite Hrun. simpl in *. rewrite Hev, <- app_assoc. simpl.
      repeat split; try assumption.
      - rewrite count_cons. simpl. lia. }
    destruct (api_faults w (DeleteNamespacedConfigMap n ns)) as [status|] eqn:Hfault;
      [|destruct (config_map_exists n ns (cluster w)) eqn:Hexists].
    + match goal with |- context [for_each names _ (?r1, ?w1)] =>
        destruct (IH r1 w1 v Hv)
          as (r' & w' & new & Hrun & Hev & HC & Hf & Hcm & Hcd & Hsd & Hfc
              & Hmode)
      end.
      rewrite Htruthy in Hmode. destruct Hmode as (Hdc & Hgone).
      exists r', w',
        (Called (DeleteNamespacedConfigMap n ns)
         :: Logged ERROR (FailedToDeleteConfigMap ns n (ApiException status))
         :: new).
      rewrite Hrun. simpl in *. rewrite Hev, <- !app_assoc. simpl.
      repeat split; try assumption.
      * rewrite !count_cons. simpl. lia.
      * now rewrite Hdc.
      * intros name Hin Hmissing.
        apply elem_of_cons in Hin as [->|Hin].
        -- eexists. right. left.
        -- destruct (Hgone name Hin Hmissing) as [e He].
           exists e. now do 2 right.
    + match goal with |- context [for_each names _ (?r1, ?w1)] =>
        destruct (IH r1 w1 v Hv)
          as (r' & w' & new & Hrun & Hev & HC & Hf & Hcm & Hcd & Hsd & Hfc
              & Hmode)
      end.
      rewrite Htruthy in Hmode. destruct Hmode as (Hdc & Hgone).
      exists r', w',
        (Called (DeleteNamespacedConfigMap n ns)
         :: Logged INFO (DeletedConfigMap ns n) :: new).
      rewrite Hrun. simpl in *. rewrite Hev, <- !app_assoc. simpl.
      repeat split; try assumption.
      * rewrite !count_cons. simpl. lia.
      * now rewrite Hdc.
      * intros name Hin Hmissing.
        apply elem_of_cons in Hin as [->|Hin]; [congruence|].
        destruct (Hgone name Hin) as [e He].
        { now apply config_map_exists_without. }
        exists e. now do 2 right.
    + match goal with |- context [for_each names _ (?r1, ?w1)] =>
        destruct (IH r1 w1 v Hv)
          as (r' & w' & new & Hrun & Hev & HC & Hf & Hcm & Hcd & Hsd & Hfc
              & Hmode)
      end.
      rewrite Htruthy in Hmode. destruct Hmode as (Hdc & Hgone).
      exists r', w',
        (Called (DeleteNamespacedConfigMap n ns)
         :: Logged ERROR (FailedToDeleteConfigMap ns n (ApiException 404))
         :: new).
      rewrite Hrun. simpl in *. rewrite Hev, <- !app_assoc. simpl.
      repeat split; try assumption.
      * rewrite !count_cons. simpl. lia.
      * now rewrite Hdc.
      * intros name Hin Hmissing.
        apply elem_of_cons in Hin as [->|Hin].
        -- eexists. right. left.
        -- destruct (Hgone name Hin Hmissing) as [e He].
           exists e. now do 2 right.
Qed.

(** The executor on given candidate lists. *)
Lemma delete_unused_run ns unused w v :
  CONFIG w !! "dry_run" = Some v →
  ∃ results w' new,
    delete_unused ns unused w = (Ok results, w')
    ∧ events w'
      = events w ++ new
        ++ [Logged INFO (CleanupCompleted ns (secrets_deleted results)
                           (configmaps_deleted results))]
    ∧ secrets_deleted results
      = Z.of_nat (length (unused_secrets unused)) - count failed_secret new
    ∧ configmaps_deleted results
      = Z.of_nat (length (unused_configmaps unused))
        - count failed_configmap new
    ∧ (if truthy v
       then cluster w' = cluster w ∧ delete_calls new = []
            ∧ count failed_secret new = 0 ∧ count failed_configmap new = 0
       else delete_calls new
            = map (λ n, DeleteNamespacedSecret n ns) (unused_secrets unused)
              ++ map (λ n, DeleteNamespacedConfigMap n ns)
                   (unused_configmaps unused)
            ∧ (∀ name, name ∈ unused_secrets unused →
                 secret_exists name ns (cluster w) = false →
                 ∃ e, Logged ERROR (FailedToDeleteSecret ns name e) ∈ new)
            ∧ (∀ name, name ∈ unused_configmaps unused →
                 config_map_exists name ns (cluster w) = false →
                 ∃ e, Logged ERROR (FailedToDeleteConfigMap ns name e) ∈ new)).
Proof.
  intros Hv. unfold delete_unused, with_local, bind at 1.
  destruct (delete_unused_secrets_run ns (unused_secrets unused)
              no_results w v Hv)
    as (r1 & w1 & new1 & Hrun1 & Hev1 & HC1 & Hf1 & Hcm1 & Hcd1 & Hsd1 & Hfc1
        & Hmode1).
  rewrite Hrun1. unfold bind at 1.
  assert (Hv1 : CONFIG w1 !! "dry_run" = Some v) by now rewrite HC1.
  destruct (delete_unused_configmaps_run ns (unused_configmaps unused)
              r1 w1 v Hv1)
    as (r2 & w2 & new2 & Hrun2 & Hev2 & HC2 & Hf2 & Hs2 & Hsd2 & Hcd2 & Hfs2
        & Hmode2).
  rewrite Hrun2. cbn.
  exists r2, (logged INFO (CleanupCompleted ns (secrets_deleted r2)
                             (configmaps_deleted r2)) w2), (new1 ++ new2).
  split; [reflexivity|]. simpl.
  split; [now rewrite Hev2, Hev1, <- !app_assoc|].
  rewrite !count_app, delete_calls_app. simpl in Hsd1, Hcd1.
  split; [lia|]. split; [lia|].
  destruct (truthy v).
  - destruct Hmode1 as (Hcl1 & Hdc1 & Hfs1), Hmode2 as (Hcl2 & Hdc2 & Hfc2).
    rewrite Hdc1, Hdc2. repeat split; try lia. congruence.
  - destruct Hmode1 as (Hdc1 & Hgone1), Hmode2 as (Hdc2 & Hgone2).
    rewrite Hdc1, Hdc2. split; [reflexivity|]. split.
    + intros name Hin Hmissing. destruct (Hgone1 name Hin Hmissing) as [e He].
      exists e. apply elem_of_app. now left.
    + intros name Hin Hmissing. destruct (Hgone2 name Hin) as [e He].
      { unfold config_map_exists in *. now rewrite Hcm1. }
      exists e. apply elem_of_app. now right.
Qed.

Lemma cleanup_namespace_unfold ns w :
  cleanup_namespace ns w
  = match get_unused_resources ns (logged INFO (StartingCleanup ns) w) with
    | (Ok unused, w1) => delete_unused ns unused w1
    | (Raise e, w1) => (Raise e, w1)
    end.
Proof. reflexivity. Qed.

Lemma cleanup_namespace_preserves (R : relation World) `{!Executing R} ns :
  preserves R datetime_now_utc → preserves R (cleanup_namespace ns).
Proof.
  intros Hnow. unfold cleanup_namespace.
  repeat first
    [ apply get_unused_resources_preserves; [apply _|exact Hnow]
    | apply delete_unused_preserves; apply _
    | preserves_step ].
Qed.

Lemma alike_logged l m w : alike (logged l m w) w.
Proof. repeat split. Qed.

(** One call of [cleanup_namespace] in a world where the classification
    returns the lists [unused]. *)
Lemma cleanup_namespace_run ns w v unused :
  CONFIG w !! "dry_run" = Some v →
  (get_unused_resources ns w).1 = Ok unused →
  ∃ results w' new,
    cleanup_namespace ns w = (Ok results, w')
    ∧ events w' = events w ++ new
    ∧ clock_reads w' = S (clock_reads w)
    ∧ secrets_deleted results
      = Z.of_nat (length (unused_secrets unused)) - count failed_secret new
    ∧ configmaps_deleted results
      = Z.of_nat (length (unused_configmaps unused))
        - count failed_configmap new
    ∧ (if truthy v
       then cluster w' = cluster w ∧ delete_calls new = []
            ∧ count failed_secret new = 0 ∧ count failed_configmap new = 0
       else delete_calls new
            = map (λ n, DeleteNamespacedSecret n ns) (unused_secrets unused)
              ++ map (λ n, DeleteNamespacedConfigMap n ns)
                   (unused_configmaps unused)).
Proof.
  intros Hv Hunused. rewrite cleanup_namespace_unfold.
  pose (w0 := logged INFO (StartingCleanup ns) w). fold w0.
  destruct (det_get_unused_resources ns w0 w (alike_logged _ _ w))
    as [Hsame _].
  rewrite Hunused in Hsame.
  destruct (get_unused_resources_run ns w0)
    as (res & w1 & Hrun & Hreads & Hset & (q & Hq & Hquiet) & _).
  rewrite Hrun in Hsame |- *. simpl in Hsame. subst res.
  assert (Hv1 : CONFIG w1 !! "dry_run" = Some v).
  { unfold setting in Hset. injection Hset as _ _ _ _ _ _ HC _.
    now rewrite HC. }
  destruct (delete_unused_run ns unused w1 v Hv1)
    as (results & w' & new & Hdel & Hev & Hsd & Hcd & Hmode).
  exists results, w',
    (Logged INFO (StartingCleanup ns) :: q ++ new
     ++ [Logged INFO (CleanupCompleted ns (secrets_deleted results)
                        (configmaps_deleted results))]).
  split; [exact Hdel|].
  split; [rewrite Hev, Hq; simpl; now rewrite <- !app_assoc|].
  split.
  { pose proof (delete_unused_preserves (keeps clock_reads) ns unused w1)
      as Hp. rewrite Hdel in Hp. unfold keeps in Hp. simpl in Hp.
    now rewrite Hp, Hreads. }
  rewrite !count_cons, !count_app, !count_cons, !count_nil.
  rewrite (quiet_failed_secret q Hquiet), (quiet_failed_configmap q Hquiet).
  simpl. split; [lia|]. split; [lia|].
  rewrite !delete_calls_app, (quiet_delete_calls q Hquiet). simpl.
  rewrite app_nil_r.
  destruct (truthy v); [|exact (proj1 Hmode)].
  destruct Hmode as (Hcl & Hdc & Hfs & Hfc).
  repeat split; try assumption; try lia.
  rewrite Hcl. unfold setting in Hset. now injection Hset as ->.
Qed.

End Executor.

Section ListingFailures.
Context `{PythonLibrary}.

Lemma check_never_fails config patterns cutoff_time name resource_type
    timestamp e :
  configured_patterns config patterns →
  tzinfo cutoff_time = Some timezone_utc →
  timestamp ≠ None →
  ¬ check_fails config cutoff_time name resource_type timestamp e.
Proof.
  intros Hconf Hutc Hts [Hex|[Hnone|(t & _ & Hlt)]].
  - rewrite (exclusion_configured _ _ _ _ Hconf) in Hex. discriminate.
  - contradiction.
  - unfold datetime_lt in Hlt. simpl in Hlt. rewrite Hutc in Hlt.
    discriminate.
Qed.

(** When listing the Secrets fails, the classification returns two empty
    lists and the failure is the last record of the log. *)
Lemma secrets_listing_fails ns w cutoff_time status :
  cutoff_of w = Ok cutoff_time →
  api_faults w (ListNamespacedSecret ns) = Some status →
  ∃ w',
    get_unused_resources ns w = (Ok no_unused, w')
    ∧ last (events w')
      = Some (Logged ERROR (ErrorGettingUnused ns (ApiException status)))
    ∧ setting w' = setting w
    ∧ extends quiet w w'.
Proof.
  intros Hcut Hfault.
  destruct (get_unused_resources_run ns w)
    as (res & w' & Hrun & _ & Hset & Hext & Hc).
  rewrite Hcut in Hc. destruct Hc as (references & _ & Hclass).
  unfold classification in Hclass. rewrite Hfault in Hclass.
  destruct Hclass as [-> Hlast]. exists w'. now repeat split.
Qed.

(** When listing the ConfigMaps fails after the Secrets have been checked,
    the classification returns the Secrets found and no ConfigMap. *)
Lemma config_maps_listing_fails ns w cutoff_time references patterns status :
  cutoff_of w = Ok cutoff_time →
  (get_resource_references ns w).1 = Ok references →
  api_faults w (ListNamespacedSecret ns) = None →
  api_faults w (ListNamespacedConfigMap ns) = Some status →
  configured_patterns (CONFIG w) patterns →
  (∀ s, s ∈ secrets_in ns w → creation_timestamp (secret_metadata s) ≠ None) →
  ∃ unused w',
    get_unused_resources ns w = (Ok unused, w')
    ∧ unused_configmaps unused = []
    ∧ (∀ name, name ∈ unused_secrets unused ↔
         ∃ s, s ∈ secrets_in ns w ∧ meta_name (secret_metadata s) = name
              ∧ eligible_secret (CONFIG w) references cutoff_time s)
    ∧ last (events w')
      = Some (Logged ERROR (ErrorGettingUnused ns (ApiException status))).
Proof.
  intros Hcut Href Hf1 Hf2 Hconf Hts.
  destruct (get_unused_resources_run ns w)
    as (res & w' & Hrun & _ & _ & _ & Hc).
  rewrite Hcut in Hc. destruct Hc as (references' & Href' & Hclass).
  rewrite Href in Href'. injection Href' as <-.
  unfold classification in Hclass. rewrite Hf1 in Hclass.
  destruct Hclass as (res1 & added1 & Hs1 & Hc1 & Hrest).
  destruct res1 as [[]|e].
  - rewrite Hf2 in Hrest. destruct Hrest as [-> Hlast].
    eexists _, w'. split; [exact Hrun|]. split; [reflexivity|].
    split; [|exact Hlast]. simpl. intros name. split; [apply Hs1|].
    intros (s & Hin & <- & Hel). now apply Hc1.
  - destruct Hrest as (_ & _ & s & Hin & Hfail). exfalso.
    revert Hfail. eapply check_never_fails; eauto.
    eapply cutoff_of_utc. exact Hcut.
Qed.

(** Whatever fails, no [ApiException] escapes [get_unused_resources]. *)
Lemma get_unused_resources_raises ns w res w' e :
  get_unused_resources ns w = (res, w') → res = Raise e →
  is_ApiException e = false.
Proof.
  intros Hrun ->.
  destruct (get_unused_resources_run ns w)
    as (res & w0 & Hrun' & _ & _ & _ & Hc).
  rewrite Hrun in Hrun'. injection Hrun' as <- <-.
  destruct (cutoff_of w) as [cutoff_time|e0] eqn:Hcut.
  - destruct Hc as (references & _ & Hclass). unfold classification in Hclass.
    destruct (api_faults w (ListNamespacedSecret ns));
      [now destruct Hclass|].
    destruct Hclass as (res1 & added1 & _ & _ & Hrest).
    destruct res1 as [[]|e1].
    + destruct (api_faults w (ListNamespacedConfigMap ns));
        [now destruct Hrest|].
      destruct Hrest as (res2 & added2 & _ & _ & Hrest).
      destruct res2 as [[]|e2]; [discriminate|].
      destruct Hrest as ([= ->] & Hapi & _). exact Hapi.
    + destruct Hrest as ([= ->] & Hapi & _). exact Hapi.
  - injection Hc as ->. revert Hcut. unfold cutoff_of.
    destruct (CONFIG w !! _) as [v|]; [|now intros [= <-]].
    destruct v; simpl; try (now intros [= <-]).
    + destruct (_ && _); [|now intros [= <-]].
      unfold datetime_sub. destruct (_ && _); [discriminate|].
      now intros [= <-].
    + destruct (_ && _); [|now intros [= <-]].
      unfold datetime_sub. destruct (_ && _); [discriminate|].
      now intros [= <-].
Qed.

End ListingFailures.

(** ** The cycle *)

Section Cycle.
Context `{PythonLibrary}.

Lemma cleanup_namespace_clock ns w :
  clock_reads (cleanup_namespace ns w).2 = S (clock_reads w).
Proof.
  rewrite cleanup_namespace_unfold.
  destruct (get_unused_resources_run ns (logged INFO (StartingCleanup ns) w))
    as (res & w1 & Hrun & Hreads & _).
  rewrite Hrun. destruct res as [unused|e]; [|exact Hreads].
  pose proof (delete_unused_preserves (keeps clock_reads) ns unused w1) as Hp.
  unfold keeps in Hp. now rewrite Hp, Hreads.
Qed.

(** One round of the loop over the namespaces. *)
Lemma try_cleanup_namespace_run ns total w :
  ∃ total' w',
    try_cleanup_namespace ns (total, w) = (Ok tt, (total', w'))
    ∧ extends within_cycle w w'
    ∧ controls w' = controls w
    ∧ clock_reads w' = S (clock_reads w).
Proof.
  unfold try_cleanup_namespace, try_except, bind, global.
  pose proof (cleanup_namespace_clock ns w) as Hclock.
  pose proof (@cleanup_namespace_preserves _ (extends within_cycle)
                within_cycle_executing ns
                (extends_datetime_now_utc within_cycle) w) as Hext.
  pose proof (cleanup_namespace_preserves (keeps controls) ns
                (keeps_datetime_now_utc controls) w) as Hctl.
  destruct (cleanup_namespace ns w) as [[results|e] w1]; simpl in *.
  - eexists _, w1. split; [reflexivity|]. now repeat split.
  - eexists _, _. split; [reflexivity|]. repeat split; try assumption.
    destruct Hext as (new & Hnew & Hall).
    exists (new ++ [Logged ERROR (ErrorCleaningNamespace ns e)]).
    simpl. split; [now rewrite Hnew, app_assoc|].
    apply Forall_app. split; [exact Hall|]. now repeat constructor.
Qed.

Lemma clean_all_run namespaces :
  ∀ total w,
  ∃ total' w',
    for_each namespaces try_cleanup_namespace (total, w) = (Ok tt, (total', w'))
    ∧ extends within_cycle w w'
    ∧ controls w' = controls w
    ∧ clock_reads w' = (clock_reads w + length namespaces)%nat.
Proof.
  induction namespaces as [|ns namespaces IH]; intros total w.
  - exists total, w. split; [reflexivity|]. split; [reflexivity|].
    split; [reflexivity|]. simpl. lia.
  - cbn [for_each]. unfold bind.
    destruct (try_cleanup_namespace_run ns total w) as (t1 & w1 & Hrun & Hext & Hctl & Hck).
    rewrite Hrun.
    destruct (IH t1 w1) as (t2 & w2 & Hrun2 & Hext2 & Hctl2 & Hck2).
    exists t2, w2. split; [exact Hrun2|].
    split; [etransitivity; eassumption|].
    split; [congruence|]. simpl. lia.
Qed.

(** One cycle of a started operator. *)
Lemma perform_cleanup_run w :
  cleanup_handler w = true →
  ∃ res w' cycle,
    perform_cleanup w = (res, w')
    ∧ events w' = events w ++ Logged INFO StartingCycle :: cycle
    ∧ Forall within_cycle cycle
    ∧ controls w' = controls w
    ∧ match CONFIG w !! "namespaces" with
      | None => res = Raise (KeyError "namespaces")
      | Some v =>
          match iterate v with
          | Raise e => res = Raise e
          | Ok namespaces =>
              res = Ok tt
              ∧ clock_reads w' = (clock_reads w + length namespaces)%nat
              ∧ ∃ s c, last cycle = Some (Logged INFO (CycleCompleted s c))
          end
      end.
Proof.
  intros Hhandler. unfold perform_cleanup, bind at 1. rewrite Hhandler.
  cbn [negb]. cbv beta iota. unfold bind at 1, logger_info at 1, record, modify.
  cbv beta iota. fold (logged INFO StartingCycle w).
  unfold with_local, bind at 1, global at 1, config_get.
  change (CONFIG (logged INFO StartingCycle w)) with (CONFIG w).
  destruct (CONFIG w !! "namespaces") as [v|].
  2:{ exists (Raise (KeyError "namespaces")), (logged INFO StartingCycle w), [].
      repeat split. constructor. }
  unfold bind at 1, lift_result.
  destruct (iterate v) as [namespaces|e].
  2:{ exists (Raise e), (logged INFO StartingCycle w), [].
      repeat split. constructor. }
  unfold bind at 1.
  destruct (clean_all_run namespaces no_results (logged INFO StartingCycle w))
    as (total & w1 & Hrun & (new & Hnew & Hall) & Hctl & Hck).
  rewrite Hrun. cbn.
  eexists (Ok tt), _,
    (new ++ [Logged INFO (CycleCompleted (secrets_deleted total)
                            (configmaps_deleted total))]).
  split; [reflexivity|]. simpl.
  split; [rewrite Hnew; simpl; now rewrite <- !app_assoc|].
  split; [apply Forall_app; split; [exact Hall|now repeat constructor]|].
  split; [exact Hctl|]. split; [reflexivity|]. split; [exact Hck|].
  eexists _, _. apply last_snoc.
Qed.

End Cycle.

Section Complete.
Context `{PythonLibrary}.

(** When both listings succeed and [get_unused_resources] returns, every
    eligible resource of the namespace is in its list. *)
Lemma candidates_complete ns w unused w' cutoff_time references :
  get_unused_resources ns w = (Ok unused, w') →
  cutoff_of w = Ok cutoff_time →
  (get_resource_references ns w).1 = Ok references →
  api_faults w (ListNamespacedSecret ns) = None →
  (∀ s, s ∈ secrets_in ns w →
        eligible_secret (CONFIG w) references cutoff_time s →
        meta_name (secret_metadata s) ∈ unused_secrets unused)
  ∧ (api_faults w (ListNamespacedConfigMap ns) = None →
     ∀ m, m ∈ config_maps_in ns w →
          eligible_configmap (CONFIG w) references cutoff_time m →
          meta_name (config_map_metadata m) ∈ unused_configmaps unused).
Proof.
  intros Hrun Hcut Href Hf1.
  destruct (get_unused_resources_run ns w)
    as (res & w0 & Hrun' & _ & _ & _ & Hc).
  rewrite Hrun in Hrun'. injection Hrun' as <- <-.
  rewrite Hcut in Hc. destruct Hc as (references' & Href' & Hclass).
  rewrite Href in Href'. injection Href' as <-.
  unfold classification in Hclass. rewrite Hf1 in Hclass.
  destruct Hclass as (res1 & added1 & _ & Hc1 & Hrest).
  destruct res1 as [[]|e]; [|now destruct Hrest].
  destruct (api_faults w (ListNamespacedConfigMap ns)).
  { destruct Hrest as [[= ->] _]. split; [now apply Hc1|discriminate]. }
  destruct Hrest as (res2 & added2 & _ & Hc2 & Hrest).
  destruct res2 as [[]|e]; [|now destruct Hrest].
  injection Hrest as ->. split; [now apply Hc1|]. intros _. now apply Hc2.
Qed.

Lemma datetime_lt_utc t cutoff_time :
  tzinfo cutoff_time = Some timezone_utc →
  datetime_lt (replace_tzinfo t timezone_utc) cutoff_time
  = Ok (wall_clock t <? wall_clock cutoff_time).
Proof.
  intros Hutc. unfold datetime_lt. simpl. rewrite Hutc.
  unfold timezone_utc. now rewrite !Z.sub_0_r.
Qed.

End Complete.

(** ** The manual trigger *)

Lemma remove_trigger_annotation_extends :
  preserves (extends no_cycle_start) remove_trigger_annotation.
Proof.
  unfold remove_trigger_annotation.
  apply preserves_bind; [apply _| |intros config_map].
  - now apply extends_api_call.
  - apply preserves_when; [apply _|]. now apply extends_api_call.
Qed.

Lemma within_cycle_count evs :
  Forall within_cycle evs →
  count is_cycle_start evs = 0 ∧ count is_patch_call evs = 0.
Proof.
  induction 1 as [|ev evs [Hp Hs] _ [IH1 IH2]]; [now split|].
  rewrite !count_cons, Hp, Hs, IH1, IH2. now split.
Qed.

Lemma no_cycle_start_count evs :
  Forall no_cycle_start evs → count is_cycle_start evs = 0.
Proof.
  induction 1 as [|ev evs Hs _ IH]; [reflexivity|].
  unfold no_cycle_start in Hs. now rewrite count_cons, Hs, IH.
Qed.

Section Trigger.
Context `{PythonLibrary}.

(** The control flow of the manual trigger. *)
Lemma manual_trigger_handler_unfold old new w :
  default ∅ new !! trigger_annotation = Some "now" →
  manual_trigger_handler old new w
  = match perform_cleanup (logged INFO ManualCleanupTriggered w) with
    | (Raise e, w1) => (Raise e, w1)
    | (Ok _, w1) =>
        match remove_trigger_annotation w1 with
        | (Ok _, w2) => (Ok tt, w2)
        | (Raise e, w2) =>
            (Ok tt, logged ERROR (FailedToRemoveAnnotation e) w2)
        end
    end.
Proof.
  intros Htrigger. unfold manual_trigger_handler.
  rewrite bool_decide_eq_true_2 by exact Htrigger. cbn [when].
  change ((logger_info ManualCleanupTriggered ;; perform_cleanup ;;
           try_except remove_trigger_annotation is_Exception
             (λ e, logger_error (FailedToRemoveAnnotation e))) w)
    with ((perform_cleanup ;;
           try_except remove_trigger_annotation is_Exception
             (λ e, logger_error (FailedToRemoveAnnotation e)))
            (logged INFO ManualCleanupTriggered w)).
  unfold bind at 1.
  destruct (perform_cleanup _) as [[[]|e] w1]; [|reflexivity].
  unfold try_except.
  now destruct (remove_trigger_annotation w1) as [[[]|e] w2].
Qed.

End Trigger.

(** ** Loading the configuration *)

#[export] Instance reconfigured_preorder keys : PreOrder (reconfigured keys).
Proof.
  split.
  - intros w. now repeat split.
  - intros w1 w2 w3 (He1 & Hd1 & Hk1) (He2 & Hd2 & Hk2). split; [congruence|].
    split; [etransitivity; eassumption|].
    intros key Hkey. now rewrite Hk2, Hk1.
Qed.

Lemma reconfigured_weaken keys1 keys2 w w' :
  keys1 ⊆ keys2 → reconfigured keys1 w w' → reconfigured keys2 w w'.
Proof.
  intros Hsub (He & Hd & Hk). split; [exact He|]. split; [exact Hd|].
  intros key Hkey. apply Hk. set_solver.
Qed.

Lemma reconfigured_same_config keys w w' :
  environ w' = environ w → CONFIG w' = CONFIG w → reconfigured keys w w'.
Proof. intros He HC. unfold reconfigured. now rewrite He, HC. Qed.

Lemma reconfigured_record keys ev : preserves (reconfigured keys) (record ev).
Proof. intros w. now apply reconfigured_same_config. Qed.

Lemma reconfigured_config_set keys key v :
  key ∈ keys → preserves (reconfigured keys) (config_set key v).
Proof.
  intros Hin w. split; [reflexivity|]. simpl. split.
  - rewrite dom_insert_L. set_solver.
  - intros key' Hkey'. apply lookup_insert_ne. congruence.
Qed.

Lemma elem_of_pair_keys k v pairs :
  String k (String v EmptyString) ∈ pairs →
  String k EmptyString ∈ document_keys (YamlValue (VList pairs)).
Proof.
  intros Hin. simpl. apply elem_of_list_to_set, list_elem_of_In, in_flat_map.
  exists (String k (String v EmptyString)).
  split; [now apply list_elem_of_In|now left].
Qed.

Section LoadConfig.
Context `{PythonLibrary}.

Lemma dict_update_reconfigured config_data :
  preserves (reconfigured (document_keys config_data))
    (dict_update config_data).
Proof.
  destruct config_data as [m|v]; simpl.
  - intros w. split; [reflexivity|]. simpl. split.
    + rewrite dom_union_L. set_solver.
    + intros key Hkey. apply lookup_union_r. now apply not_elem_of_dom.
  - destruct v as [| | |s|pairs]; try (intros w; reflexivity).
    + apply preserves_for_each; [apply _|]. intros c w. reflexivity.
    + assert (Hall : ∀ l, (∀ p, p ∈ l → p ∈ pairs) →
        preserves (reconfigured (document_keys (YamlValue (VList pairs))))
          (for_each l (λ pair,
             match pair with
             | String k (String v EmptyString) =>
                 config_set (String k EmptyString)
                   (VStr (String v EmptyString))
             | _ => raise ValueError
             end))).
      { induction l as [|p l IH]; intros Hsub.
        - intros w. reflexivity.
        - cbn [for_each]. apply preserves_bind; [apply _| |intros _].
          + destruct p as [|k [|v [|]]]; try (intros w; reflexivity).
            apply reconfigured_config_set.
            apply (elem_of_pair_keys k v). apply Hsub. now left.
          + apply IH. intros p' Hp'. apply Hsub. now right. }
      apply Hall. auto.
Qed.

Lemma raises_anything {S A} (m : M S A) : raises_only (λ _, True) m.
Proof. intros s e _. exact I. Qed.

Lemma load_config_never_raises : raises_only nothing load_config.
Proof.
  unfold load_config.
  apply (raises_try_except nothing (λ _, True)).
  - apply raises_anything.
  - intros e. apply raises_record.
  - intros e _. discriminate.
Qed.

Lemma override_from_environment_reconfigured w :
  reconfigured (overridden w) w (override_from_environment w).2.
Proof.
  unfold override_from_environment, bind at 1. cbv beta iota.
  assert (Hstep : ∀ (variable key : string) (m : string → M World unit) w0,
            environ w0 = environ w →
            (∀ s, preserves (reconfigured {[key]}) (m s)) →
            reconfigured (when_set w variable key) w0
              (if_set (environ w !! variable) m w0).2).
  { intros variable key m w0 He Hm. unfold when_set.
    destruct (environ w !! variable) as [s|]; simpl; [apply Hm|reflexivity]. }
  assert (Hset : ∀ key v, preserves (reconfigured {[key]}) (config_set key v)).
  { intros key v. apply reconfigured_config_set. set_solver. }
  unfold bind.
  pose proof (Hstep "CLEANUP_NAMESPACES" "namespaces"
                (λ s, config_set "namespaces" (VList (map strip (split s ","))))
                w eq_refl (λ s, Hset _ _)) as H1.
  destruct (if_set (environ w !! "CLEANUP_NAMESPACES") _ w) as [r1 w1].
  simpl in H1.
  assert (H1' : reconfigured (overridden w) w w1).
  { eapply reconfigured_weaken; [|exact H1]. unfold overridden. set_solver. }
  destruct r1 as [[]|e]; [|exact H1'].
  assert (He1 : environ w1 = environ w) by apply H1.
  pose proof (Hstep "CLEANUP_INTERVAL" "cleanup_interval"
                (λ s, n <- lift_result (int s) ;;
                      config_set "cleanup_interval" (VInt n)) w1 He1) as H2.
  destruct (if_set (environ w !! "CLEANUP_INTERVAL") _ w1) as [r2 w2].
  simpl in H2.
  assert (H2' : reconfigured (overridden w) w w2).
  { etransitivity; [exact H1'|].
    eapply reconfigured_weaken; [|apply H2].
    - unfold overridden. set_solver.
    - intros s. apply preserves_bind; [apply _| |intros n; apply Hset].
      apply preserves_lift_result, _. }
  destruct r2 as [[]|e]; [|exact H2'].
  assert (He2 : environ w2 = environ w) by apply H2'.
  pose proof (Hstep "DRY_RUN" "dry_run"
                (λ s, config_set "dry_run"
                        (VBool (String.eqb (lower s) "true")))
                w2 He2 (λ s, Hset _ _)) as H3.
  destruct (if_set (environ w !! "DRY_RUN") _ w2) as [r3 w3]. simpl in H3.
  etransitivity; [exact H2'|].
  eapply reconfigured_weaken; [|exact H3]. unfold overridden. set_solver.
Qed.

Lemma read_configuration_run w :
  read_namespaced_config_map "cleanup-operator-config" "cleanup-system" w
  = (read_configuration w,
     called (ReadNamespacedConfigMap "cleanup-operator-config"
               "cleanup-system") w).
Proof. unfold read_namespaced_config_map. now rewrite api_call_read. Qed.

(** The keys of the document in the configuration object that is read in
    [w]. *)
Lemma load_from_config_map_reconfigured w :
  reconfigured
    (match read_configuration w with
     | Ok config_map =>
         match document_of config_map with
         | Some config_data => document_keys config_data
         | None => ∅
         end
     | Raise _ => ∅
     end) w (load_from_config_map w).2.
Proof.
  unfold load_from_config_map, bind at 1. rewrite read_configuration_run.
  pose (w1 := called (ReadNamespacedConfigMap "cleanup-operator-config"
                        "cleanup-system") w).
  fold w1.
  assert (Hw1 : ∀ keys, reconfigured keys w w1)
    by (intros keys; now apply reconfigured_same_config).
  destruct (read_configuration w) as [config_map|e]; [|apply Hw1].
  unfold document_of.
  destruct (data config_map) as [d|]; [|apply Hw1].
  destruct (d !! "config.yaml") as [text|]; [|apply Hw1].
  cbn [if_set]. unfold bind at 1, lift_result.
  destruct (yaml_safe_load text) as [config_data|e]; [|apply Hw1].
  etransitivity; [apply Hw1|].
  apply (preserves_bind (reconfigured (document_keys config_data))
           (dict_update config_data)
           (λ _, logger_info ConfigurationLoaded)).
  - apply dict_update_reconfigured.
  - intros _. apply reconfigured_record.
Qed.

(** After the inner [try] block only the overrides touch [CONFIG]. *)
Lemma load_config_after_document w :
  in_cluster w = true →
  reconfigured (overridden w) (load_from_config_map w).2 (load_config w).2.
Proof.
  intros Hin. pose proof (load_from_config_map_reconfigured w) as [H1 _].
  assert (Hoverride : ∀ w1, environ w1 = environ w →
            reconfigured (overridden w) w1
              (try_except override_from_environment is_Exception
                 (λ e, logger_warning (FailedToLoadConfig e)) w1).2).
  { intros w1 He. pose proof (override_from_environment_reconfigured w1) as H2.
    assert (Hov : overridden w1 = overridden w)
      by (unfold overridden, when_set; now rewrite He).
    rewrite Hov in H2. unfold try_except.
    destruct (override_from_environment w1) as [[[]|e] w2]; [exact H2|].
    simpl in H2 |- *. etransitivity; [exact H2|].
    now apply reconfigured_same_config. }
  unfold load_config, try_except at 1, bind at 1, load_incluster_config.
  rewrite Hin. unfold bind at 1, try_except at 1.
  destruct (load_from_config_map w) as [[[]|e] w1]; simpl in H1 |- *.
  - apply (Hoverride w1), H1.
  - destruct (is_ApiException e).
    + etransitivity.
      * now apply (reconfigured_same_config _ w1
                     (logged INFO ConfigMapNotFound w1)).
      * apply (Hoverride (logged INFO ConfigMapNotFound w1)), H1.
    + now apply reconfigured_same_config.
Qed.

(** What a reload may change: the keys of the document it loads and the
    options overridden from the environment. *)
Lemma load_config_reconfigured w :
  reconfigured (loaded_keys w ∪ overridden w) w (load_config w).2.
Proof.
  destruct (in_cluster w) eqn:Hin.
  2:{ unfold load_config, try_except, bind at 1, load_incluster_config.
      rewrite Hin. now apply reconfigured_same_config. }
  pose proof (load_from_config_map_reconfigured w) as H1.
  assert (H1' : reconfigured (loaded_keys w) w (load_from_config_map w).2).
  { unfold loaded_keys, loaded_document. rewrite Hin.
    destruct (read_configuration w); exact H1. }
  etransitivity.
  - eapply reconfigured_weaken; [apply union_subseteq_l|exact H1'].
  - eapply reconfigured_weaken; [apply union_subseteq_r|].
    now apply load_config_after_document.
Qed.

(** A mapping is merged over the previous configuration. *)
Lemma load_from_config_map_mapping w m :
  loaded_document w = Some (YamlMapping m) →
  CONFIG (load_from_config_map w).2 = m ∪ CONFIG w.
Proof.
  unfold loaded_document. destruct (in_cluster w); [|discriminate].
  unfold load_from_config_map, bind at 1. rewrite read_configuration_run.
  destruct (read_configuration w) as [config_map|e]; [|discriminate].
  unfold document_of. destruct (data config_map) as [d|]; [|discriminate].
  destruct (d !! "config.yaml") as [text|]; [|discriminate].
  cbn [if_set]. unfold bind at 1, lift_result.
  destruct (yaml_safe_load text) as [config_data|e]; [|discriminate].
  intros [= ->]. reflexivity.
Qed.

(** The requests of the removal when the configuration object is read
    and has annotations. *)
Lemma remove_trigger_annotation_run w config_map :
  read_configuration w = Ok config_map →
  default ∅ (annotations (config_map_metadata config_map)) ≠ ∅ →
  events (remove_trigger_annotation w).2
  = events w
    ++ [ Called (ReadNamespacedConfigMap "cleanup-operator-config"
                   "cleanup-system");
         Called (PatchNamespacedConfigMap "cleanup-operator-config"
                   "cleanup-system" (pop_trigger config_map)) ].
Proof.
  intros Hread Hnotes. unfold remove_trigger_annotation, bind.
  rewrite read_configuration_run, Hread.
  rewrite bool_decide_eq_false_2 by exact Hnotes. cbn [negb when].
  unfold patch_namespaced_config_map, api_call, bind, record, modify.
  cbn -[existsb]. destruct (api_faults w _).
  - cbn. now rewrite <- app_assoc.
  - destruct (existsb _ _); cbn; now rewrite <- app_assoc.
Qed.

Lemma load_config_returns w : (load_config w).1 = Ok tt.
Proof.
  pose proof (load_config_never_raises w) as Hr.
  destruct (load_config w) as [[[]|e] w']; [reflexivity|].
  destruct (Hr e eq_refl).
Qed.

(** The start-up handler returns and leaves the operator started. *)
Lemma startup_handler_starts w :
  (startup_handler w).1 = Ok tt ∧ cleanup_handler (startup_handler w).2 = true.
Proof.
  unfold startup_handler, bind.
  pose proof (load_config_returns w) as Hret.
  destruct (load_config w) as [[[]|e] w1]; [|discriminate].
  split; reflexivity.
Qed.

End LoadConfig.

(** * Further lemmas *)

Lemma extends_weaken (P Q : event → Prop) w w' :
  (∀ ev, P ev → Q ev) → extends P w w' → extends Q w w'.
Proof.
  intros HPQ (new & Hnew & Hall). exists new. split; [exact Hnew|].
  eapply Forall_impl; eauto.
Qed.

Lemma quiet_read_only ev : quiet ev → read_only ev.
Proof. intros (Hd & Hp & _). now split. Qed.

Lemma read_only_delete_calls evs : Forall read_only evs → delete_calls evs = [].
Proof.
  induction 1 as [|ev evs [Hd _] _ IH]; [reflexivity|].
  simpl. rewrite IH. destruct ev as [r|]; [|reflexivity].
  simpl in Hd. now rewrite Hd.
Qed.

Lemma read_only_patch_calls evs :
  Forall read_only evs → count is_patch_call evs = 0.
Proof.
  induction 1 as [|ev evs [_ Hp] _ IH]; [reflexivity|].
  now rewrite count_cons, Hp, IH.
Qed.

Lemma first_listing_fails ns w status :
  api_faults w (ListNamespacedPod ns) = Some status →
  (get_resource_references ns w).1 = Ok no_references.
Proof.
  intros Hfault.
  destruct (scan_kinds_run ns all_kinds no_references w) as (w1 & Hrun & _).
  unfold get_resource_references, with_local, bind, try_except.
  rewrite scan_workloads_for_each, Hrun.
  unfold all_kinds. cbn [first_failure_in listed_before_failure].
  unfold listing_succeeds. cbn [list_request]. rewrite Hfault. simpl.
  f_equal; apply references_eq; simpl; apply leibniz_equiv; set_solver.
Qed.

Section CycleMore.
Context `{PythonLibrary}.

(** A cycle of a started operator is the loop over the configured
    namespaces between its two records. *)
Lemma perform_cleanup_unfold w namespaces :
  cleanup_handler w = true →
  configured_namespaces (CONFIG w) namespaces →
  ∃ total w1,
    for_each namespaces try_cleanup_namespace
      (no_results, logged INFO StartingCycle w) = (Ok tt, (total, w1))
    ∧ perform_cleanup w
      = (Ok tt, logged INFO (CycleCompleted (secrets_deleted total)
                               (configmaps_deleted total)) w1).
Proof.
  intros Hhandler (v & Hv & Hiter).
  unfold perform_cleanup, bind at 1. rewrite Hhandler.
  cbn [negb]. cbv beta iota. unfold bind at 1, logger_info at 1, record, modify.
  cbv beta iota. fold (logged INFO StartingCycle w).
  unfold with_local, bind at 1, global at 1, config_get.
  change (CONFIG (logged INFO StartingCycle w)) with (CONFIG w).
  rewrite Hv. unfold bind at 1, lift_result. rewrite Hiter.
  unfold bind at 1.
  destruct (clean_all_run namespaces no_results (logged INFO StartingCycle w))
    as (total & w1 & Hrun & _).
  rewrite Hrun. exists total, w1. split; reflexivity.
Qed.

Lemma cleanup_timer_unfold w :
  cleanup_timer w = perform_cleanup (logged INFO TimerTriggered w).
Proof. reflexivity. Qed.

Lemma create_fn_unfold w :
  create_fn w
  = match perform_cleanup (logged INFO CleanupCRCreated w) with
    | (Ok _, w') => (Ok "Cleanup triggered manually", w')
    | (Raise e, w') => (Raise e, w')
    end.
Proof.
  unfold create_fn.
  change ((logger_info CleanupCRCreated ;; perform_cleanup ;;
           ret "Cleanup triggered manually") w)
    with ((perform_cleanup ;; ret "Cleanup triggered manually")
            (logged INFO CleanupCRCreated w)).
  unfold bind. now destruct (perform_cleanup _) as [[[]|e] w'].
Qed.

Lemma cutoff_of_threshold_error w e :
  threshold_error (CONFIG w) = Some e → cutoff_of w = Raise e.
Proof.
  unfold threshold_error, cutoff_of.
  destruct (CONFIG w !! "unused_threshold_hours") as [hours|];
    [|now intros [= <-]].
  destruct (timedelta_hours hours); [discriminate|now intros [= <-]].
Qed.

(** With a threshold that cannot be used, a round of the loop stops at the
    computation of the cutoff. *)
Lemma try_cleanup_namespace_threshold ns total w e :
  threshold_error (CONFIG w) = Some e →
  ∃ w',
    try_cleanup_namespace ns (total, w) = (Ok tt, (total, w'))
    ∧ events w' = events w ++ failed_cleanup e ns
    ∧ CONFIG w' = CONFIG w
    ∧ cluster w' = cluster w.
Proof.
  intros He. unfold try_cleanup_namespace, try_except, bind at 1, global.
  rewrite cleanup_namespace_unfold.
  unfold get_unused_resources, bind at 1. rewrite compute_cutoff_time_run.
  rewrite (cutoff_of_threshold_error (logged INFO (StartingCleanup ns) w) e)
    by exact He.
  simpl. eexists. split; [reflexivity|]. simpl.
  split; [now rewrite <- app_assoc|]. now split.
Qed.

Lemma clean_all_threshold e namespaces :
  ∀ total w,
  threshold_error (CONFIG w) = Some e →
  ∃ w',
    for_each namespaces try_cleanup_namespace (total, w) = (Ok tt, (total, w'))
    ∧ events w' = events w ++ flat_map (failed_cleanup e) namespaces
    ∧ cluster w' = cluster w.
Proof.
  induction namespaces as [|ns namespaces IH]; intros total w He.
  - exists w. split; [reflexivity|]. simpl. now rewrite app_nil_r.
  - cbn [for_each]. unfold bind.
    destruct (try_cleanup_namespace_threshold ns total w e He)
      as (w1 & Hrun & Hev & HC & Hcl).
    rewrite Hrun.
    destruct (IH total w1) as (w2 & Hrun2 & Hev2 & Hcl2); [now rewrite HC|].
    exists w2. split; [exact Hrun2|].
    split; [|congruence].
    rewrite Hev2, Hev. cbn [flat_map]. now rewrite <- app_assoc.
Qed.

End CycleMore.

(** ** Relations that the whole cleanup preserves *)

Lemma preserves_for_each_in {S X} (R : relation S) `{!PreOrder R}
    (l : list X) (body : X → M S unit) :
  (∀ x, x ∈ l → preserves R (body x)) → preserves R (for_each l body).
Proof.
  induction l as [|x l IH]; intros Hbody; cbn [for_each].
  - now apply preserves_ret.
  - apply preserves_bind; [apply _| |intros _].
    + apply Hbody. now left.
    + apply IH. intros y Hy. apply Hbody. now right.
Qed.

Section CleanupPreserves.
Context `{PythonLibrary}.
Context (R : relation World) `{!Framed R}.
Context (Hnow : preserves R datetime_now_utc).
Context (Hlog : ∀ l m, preserves R (record (Logged l m))).

Lemma delete_unused_preserves_with ns unused :
  (∀ name, preserves (pair_rel any R) (try_delete_secret ns name)) →
  (∀ name, preserves (pair_rel any R) (try_delete_configmap ns name)) →
  preserves R (delete_unused ns unused).
Proof.
  intros Hs Hc. unfold delete_unused. apply (preserves_with_local any).
  apply preserves_bind; [apply _| |intros _].
  { apply preserves_for_each; [apply _|exact Hs]. }
  apply preserves_bind; [apply _| |intros _].
  { apply preserves_for_each; [apply _|exact Hc]. }
  apply preserves_bind; [apply _| |intros results].
  { apply preserves_get_local; apply _. }
  apply preserves_bind; [apply _| |intros _].
  { apply preserves_global; [apply _|apply Hlog]. }
  apply preserves_ret, _.
Qed.

Lemma cleanup_namespace_preserves_with ns :
  (∀ name, preserves (pair_rel any R) (try_delete_secret ns name)) →
  (∀ name, preserves (pair_rel any R) (try_delete_configmap ns name)) →
  preserves R (cleanup_namespace ns).
Proof.
  intros Hs Hc. unfold cleanup_namespace.
  apply preserves_bind; [apply _|apply Hlog|intros _].
  apply preserves_bind; [apply _| |intros unused].
  { now apply get_unused_resources_preserves. }
  now apply delete_unused_preserves_with.
Qed.

Lemma try_cleanup_namespace_preserves_with ns :
  (∀ name, preserves (pair_rel any R) (try_delete_secret ns name)) →
  (∀ name, preserves (pair_rel any R) (try_delete_configmap ns name)) →
  preserves (pair_rel any R) (try_cleanup_namespace ns).
Proof.
  intros Hs Hc. unfold try_cleanup_namespace, add_results.
  apply preserves_try_except; [apply _| |intros e].
  - apply preserves_bind; [apply _| |intros results].
    + apply preserves_global; [apply _|].
      now apply cleanup_namespace_preserves_with.
    + apply preserves_modify_local; [apply _|intros; exact I].
  - apply preserves_global; [apply _|apply Hlog].
Qed.

End CleanupPreserves.

(** *** Dry-run mode *)

#[export] Instance dry_run_frame_preorder : PreOrder dry_run_frame.
Proof.
  split.
  - intros w _. split; [reflexivity|]. split; reflexivity.
  - intros w1 w2 w3 H12 H23 Hdry.
    destruct (H12 Hdry) as (Hc1 & HC1 & He1).
    destruct H23 as (Hc2 & HC2 & He2); [now rewrite HC1|].
    split; [congruence|]. split; [congruence|]. etransitivity; eassumption.
Qed.

#[export] Instance dry_run_frame_framed : Framed dry_run_frame.
Proof.
  split.
  - apply _.
  - intros l m _ w _. split; [reflexivity|]. split; [reflexivity|].
    exists [Logged l m]. split; [reflexivity|]. now repeat constructor.
  - intros A r g Hd Hp w _. rewrite api_call_read.
    split; [reflexivity|]. split; [reflexivity|].
    exists [Called r]. split; [reflexivity|].
    repeat constructor; simpl; assumption.
Qed.

Lemma dry_run_frame_log l m : preserves dry_run_frame (record (Logged l m)).
Proof.
  intros w _. split; [reflexivity|]. split; [reflexivity|].
  exists [Logged l m]. split; [reflexivity|]. now repeat constructor.
Qed.

Lemma dry_run_frame_now : preserves dry_run_frame datetime_now_utc.
Proof.
  intros w _. split; [reflexivity|]. split; [reflexivity|].
  apply (extends_datetime_now_utc read_only).
Qed.

Section DryRun.
Context `{PythonLibrary}.

Lemma dry_run_try_delete_secret ns name :
  preserves (pair_rel any dry_run_frame) (try_delete_secret ns name).
Proof.
  intros [r w]. split; [exact I|]. intros (v & Hv & Ht). cbn [snd].
  rewrite (try_delete_secret_run ns name r w v Hv), Ht. cbn [snd].
  split; [reflexivity|]. split; [reflexivity|].
  eexists [_]. split; [reflexivity|]. now repeat constructor.
Qed.

Lemma dry_run_try_delete_configmap ns name :
  preserves (pair_rel any dry_run_frame) (try_delete_configmap ns name).
Proof.
  intros [r w]. split; [exact I|]. intros (v & Hv & Ht). cbn [snd].
  rewrite (try_delete_configmap_run ns name r w v Hv), Ht. cbn [snd].
  split; [reflexivity|]. split; [reflexivity|].
  eexists [_]. split; [reflexivity|]. now repeat constructor.
Qed.

Lemma dry_run_perform_cleanup : preserves dry_run_frame perform_cleanup.
Proof.
  unfold perform_cleanup.
  apply preserves_bind; [apply _| |intros handler].
  { apply preserves_peek, _. }
  destruct (negb handler); [apply dry_run_frame_log|].
  apply preserves_bind; [apply _|apply dry_run_frame_log|intros _].
  apply (preserves_with_local any).
  apply preserves_bind; [apply _| |intros v].
  { apply preserves_global; [apply _|]. apply preserves_config_get, _. }
  apply preserves_bind; [apply _| |intros namespaces].
  { apply preserves_lift_result, _. }
  apply preserves_bind; [apply _| |intros _].
  { apply preserves_for_each; [apply _|intros ns].
    apply try_cleanup_namespace_preserves_with.
    - apply _.
    - apply dry_run_frame_now.
    - apply dry_run_frame_log.
    - apply dry_run_try_delete_secret.
    - apply dry_run_try_delete_configmap. }
  apply preserves_bind; [apply _| |intros total].
  { apply preserves_get_local; apply _. }
  apply preserves_global; [apply _|apply dry_run_frame_log].
Qed.

End DryRun.

(** *** The namespaces that a cleanup touches *)

#[export] Instance removed_within_preorder namespaces :
  PreOrder (removed_within namespaces).
Proof.
  split.
  - intros c. unfold removed_within. repeat split; auto.
  - intros c1 c2 c3 (Hp1 & Hd1 & Hds1 & Hss1 & Hsa1 & Hs1 & Hm1 & Hks1 & Hkm1)
      (Hp2 & Hd2 & Hds2 & Hss2 & Hsa2 & Hs2 & Hm2 & Hks2 & Hkm2).
    unfold removed_within.
    split; [congruence|]. split; [congruence|]. split; [congruence|].
    split; [congruence|]. split; [congruence|].
    split; [etransitivity; eassumption|].
    split; [etransitivity; eassumption|].
    split.
    + intros s Hin Hns. apply Hks2; [|exact Hns]. now apply Hks1.
    + intros m Hin Hns. apply Hkm2; [|exact Hns]. now apply Hkm1.
Qed.

#[export] Instance stays_within_preorder namespaces :
  PreOrder (stays_within namespaces).
Proof.
  split.
  - intros w. unfold stays_within. reflexivity.
  - intros w1 w2 w3 H12 H23. unfold stays_within in *.
    etransitivity; eassumption.
Qed.

Lemma stays_within_same_cluster namespaces w w' :
  cluster w' = cluster w → stays_within namespaces w w'.
Proof. intros Hc. unfold stays_within. rewrite Hc. reflexivity. Qed.

#[export] Instance stays_within_framed namespaces :
  Framed (stays_within namespaces).
Proof.
  split.
  - apply _.
  - intros l m _ w. now apply stays_within_same_cluster.
  - intros A r g _ _ w. rewrite api_call_read.
    now apply stays_within_same_cluster.
Qed.

Lemma not_named_elsewhere name ns (namespaces : list string)
    (m : V1ObjectMeta) :
  ns ∈ namespaces → meta_namespace m ∉ namespaces →
  negb (is_named name ns m) = true.
Proof.
  intros Hin Hout. unfold is_named.
  destruct (String.eqb_spec (meta_namespace m) ns) as [Heq|_];
    [rewrite Heq in Hout; contradiction|].
  now rewrite andb_false_r.
Qed.

Lemma removed_within_without_secret namespaces name ns c :
  ns ∈ namespaces → removed_within namespaces c (without_secret name ns c).
Proof.
  intros Hin. unfold removed_within, without_secret. simpl.
  repeat split; auto.
  - apply sublist_filter.
  - intros s Hs Hout. apply list_elem_of_filter. split; [|exact Hs].
    now rewrite (not_named_elsewhere name ns namespaces).
Qed.

Lemma removed_within_without_config_map namespaces name ns c :
  ns ∈ namespaces →
  removed_within namespaces c (without_config_map name ns c).
Proof.
  intros Hin. unfold removed_within, without_config_map. simpl.
  repeat split; auto.
  - apply sublist_filter.
  - intros m Hm Hout. apply list_elem_of_filter. split; [|exact Hm].
    now rewrite (not_named_elsewhere name ns namespaces).
Qed.

Section StaysWithin.
Context `{PythonLibrary}.

Lemma stays_within_try_delete_secret namespaces ns name :
  ns ∈ namespaces →
  preserves (pair_rel any (stays_within namespaces))
    (try_delete_secret ns name).
Proof.
  intros Hin [r w]. split; [exact I|]. unfold stays_within. cbn [snd].
  destruct (CONFIG w !! "dry_run") as [v|] eqn:Hv.
  - rewrite (try_delete_secret_run ns name r w v Hv).
    destruct (truthy v); [reflexivity|].
    destruct (api_faults w _); [reflexivity|].
    destruct (secret_exists name ns (cluster w)); [|reflexivity].
    now apply removed_within_without_secret.
  - unfold try_delete_secret, try_except, bind, global, config_get.
    rewrite Hv. reflexivity.
Qed.

Lemma stays_within_try_delete_configmap namespaces ns name :
  ns ∈ namespaces →
  preserves (pair_rel any (stays_within namespaces))
    (try_delete_configmap ns name).
Proof.
  intros Hin [r w]. split; [exact I|]. unfold stays_within. cbn [snd].
  destruct (CONFIG w !! "dry_run") as [v|] eqn:Hv.
  - rewrite (try_delete_configmap_run ns name r w v Hv).
    destruct (truthy v); [reflexivity|].
    destruct (api_faults w _); [reflexivity|].
    destruct (config_map_exists name ns (cluster w)); [|reflexivity].
    now apply removed_within_without_config_map.
  - unfold try_delete_configmap, try_except, bind, global, config_get.
    rewrite Hv. reflexivity.
Qed.

Lemma stays_within_cleanup_namespace namespaces ns :
  ns ∈ namespaces →
  preserves (stays_within namespaces) (cleanup_namespace ns).
Proof.
  intros Hin. apply cleanup_namespace_preserves_with.
  - apply _.
  - intros w. now apply stays_within_same_cluster.
  - intros l m w. now apply stays_within_same_cluster.
  - intros name. now apply stays_within_try_delete_secret.
  - intros name. now apply stays_within_try_delete_configmap.
Qed.

Lemma stays_within_clean_all namespaces :
  preserves (pair_rel any (stays_within namespaces))
    (for_each namespaces try_cleanup_namespace).
Proof.
  apply preserves_for_each_in; [apply _|]. intros ns Hin.
  apply try_cleanup_namespace_preserves_with.
  - apply _.
  - intros w. now apply stays_within_same_cluster.
  - intros l m w. now apply stays_within_same_cluster.
  - intros name. now apply stays_within_try_delete_secret.
  - intros name. now apply stays_within_try_delete_configmap.
Qed.

End StaysWithin.

(** *** What live deletions leave *)

Lemma not_deleted_nil ns {X} (meta : X → V1ObjectMeta) (l : list X) :
  filter (λ x, not_deleted ns [] (meta x)) l = l.
Proof.
  induction l as [|x l IH]; [reflexivity|].
  rewrite filter_cons_True, IH; [reflexivity|].
  unfold not_deleted. simpl. now rewrite andb_false_r.
Qed.

Lemma not_deleted_cons ns name names {X} (meta : X → V1ObjectMeta)
    (l : list X) :
  filter (λ x, not_deleted ns names (meta x))
    (filter (λ x, negb (is_named name ns (meta x))) l)
  = filter (λ x, not_deleted ns (name :: names) (meta x)) l.
Proof.
  rewrite list_filter_filter. apply list_filter_iff. intros x.
  unfold not_deleted, is_named, in_namespace, str_in. cbn [existsb].
  destruct (String.eqb (meta_name (meta x)) name),
    (String.eqb (meta_namespace (meta x)) ns),
    (existsb (String.eqb (meta_name (meta x))) names); simpl; tauto.
Qed.

Lemma filter_not_named_absent name ns {X} (meta : X → V1ObjectMeta)
    (l : list X) :
  existsb (λ x, is_named name ns (meta x)) l = false →
  filter (λ x, negb (is_named name ns (meta x))) l = l.
Proof.
  induction l as [|x l IH]; [reflexivity|]. cbn [existsb].
  intros [Hx Hl]%orb_false_elim.
  rewrite filter_cons_True, IH; [reflexivity|exact Hl|now rewrite Hx].
Qed.

Section Live.
Context `{PythonLibrary}.

Lemma try_delete_secret_live ns name r w v :
  CONFIG w !! "dry_run" = Some v → truthy v = false →
  api_faults w (DeleteNamespacedSecret name ns) = None →
  let w' := (try_delete_secret ns name (r, w)).2.2 in
  (try_delete_secret ns name (r, w)).1 = Ok tt
  ∧ secrets (cluster w')
    = filter (λ s, negb (is_named name ns (secret_metadata s)))
        (secrets (cluster w))
  ∧ config_maps (cluster w') = config_maps (cluster w)
  ∧ CONFIG w' = CONFIG w
  ∧ api_faults w' = api_faults w.
Proof.
  intros Hv Ht Hfault. cbv zeta.
  rewrite (try_delete_secret_run ns name r w v Hv), Ht, Hfault.
  destruct (secret_exists name ns (cluster w)) eqn:Hex; simpl.
  - now repeat split.
  - repeat split. symmetry. now apply filter_not_named_absent.
Qed.

Lemma try_delete_configmap_live ns name r w v :
  CONFIG w !! "dry_run" = Some v → truthy v = false →
  api_faults w (DeleteNamespacedConfigMap name ns) = None →
  let w' := (try_delete_configmap ns name (r, w)).2.2 in
  (try_delete_configmap ns name (r, w)).1 = Ok tt
  ∧ config_maps (cluster w')
    = filter (λ m, negb (is_named name ns (config_map_metadata m)))
        (config_maps (cluster w))
  ∧ secrets (cluster w') = secrets (cluster w)
  ∧ CONFIG w' = CONFIG w
  ∧ api_faults w' = api_faults w.
Proof.
  intros Hv Ht Hfault. cbv zeta.
  rewrite (try_delete_configmap_run ns name r w v Hv), Ht, Hfault.
  destruct (config_map_exists name ns (cluster w)) eqn:Hex; simpl.
  - now repeat split.
  - repeat split. symmetry. now apply filter_not_named_absent.
Qed.

Lemma delete_unused_secrets_live ns names :
  ∀ r w v,
  CONFIG w !! "dry_run" = Some v → truthy v = false →
  (∀ name, name ∈ names →
     api_faults w (DeleteNamespacedSecret name ns) = None) →
  let w' := (delete_unused_secrets ns names (r, w)).2.2 in
  (delete_unused_secrets ns names (r, w)).1 = Ok tt
  ∧ secrets (cluster w')
    = filter (λ s, not_deleted ns names (secret_metadata s))
        (secrets (cluster w))
  ∧ config_maps (cluster w') = config_maps (cluster w)
  ∧ CONFIG w' = CONFIG w
  ∧ api_faults w' = api_faults w.
Proof.
  induction names as [|name names IH]; intros r w v Hv Ht Hfaults; cbv zeta.
  - simpl. rewrite not_deleted_nil. now repeat split.
  - unfold delete_unused_secrets. cbn [for_each]. unfold bind.
    destruct (try_delete_secret_live ns name r w v Hv Ht)
      as (Hres & Hs & Hm & HC & Hf); [apply Hfaults; now left|].
    destruct (try_delete_secret ns name (r, w)) as [res [r1 w1]].
    simpl in Hres, Hs, Hm, HC, Hf. subst res.
    destruct (IH r1 w1 v) as (Hres2 & Hs2 & Hm2 & HC2 & Hf2);
      [now rewrite HC|exact Ht| |].
    { intros n Hn. rewrite Hf. apply Hfaults. now right. }
    unfold delete_unused_secrets in *.
    split; [exact Hres2|].
    split; [rewrite Hs2, Hs; apply not_deleted_cons|].
    split; [congruence|]. split; congruence.
Qed.

Lemma delete_unused_configmaps_live ns names :
  ∀ r w v,
  CONFIG w !! "dry_run" = Some v → truthy v = false →
  (∀ name, name ∈ names →
     api_faults w (DeleteNamespacedConfigMap name ns) = None) →
  let w' := (delete_unused_configmaps ns names (r, w)).2.2 in
  (delete_unused_configmaps ns names (r, w)).1 = Ok tt
  ∧ config_maps (cluster w')
    = filter (λ m, not_deleted ns names (config_map_metadata m))
        (config_maps (cluster w))
  ∧ secrets (cluster w') = secrets (cluster w)
  ∧ CONFIG w' = CONFIG w
  ∧ api_faults w' = api_faults w.
Proof.
  induction names as [|name names IH]; intros r w v Hv Ht Hfaults; cbv zeta.
  - simpl. rewrite not_deleted_nil. now repeat split.
  - unfold delete_unused_configmaps. cbn [for_each]. unfold bind.
    destruct (try_delete_configmap_live ns name r w v Hv Ht)
      as (Hres & Hs & Hm & HC & Hf); [apply Hfaults; now left|].
    destruct (try_delete_configmap ns name (r, w)) as [res [r1 w1]].
    simpl in Hres, Hs, Hm, HC, Hf. subst res.
    destruct (IH r1 w1 v) as (Hres2 & Hs2 & Hm2 & HC2 & Hf2);
      [now rewrite HC|exact Ht| |].
    { intros n Hn. rewrite Hf. apply Hfaults. now right. }
    unfold delete_unused_configmaps in *.
    split; [exact Hres2|].
    split; [rewrite Hs2, Hs; apply not_deleted_cons|].
    split; [congruence|]. split; congruence.
Qed.

Lemma delete_unused_live ns unused w v :
  CONFIG w !! "dry_run" = Some v → truthy v = false →
  (∀ name, name ∈ unused_secrets unused →
     api_faults w (DeleteNamespacedSecret name ns) = None) →
  (∀ name, name ∈ unused_configmaps unused →
     api_faults w (DeleteNamespacedConfigMap name ns) = None) →
  let w' := (delete_unused ns unused w).2 in
  secrets (cluster w')
  = filter (λ s, not_deleted ns (unused_secrets unused) (secret_metadata s))
      (secrets (cluster w))
  ∧ config_maps (cluster w')
    = filter (λ m, not_deleted ns (unused_configmaps unused)
                     (config_map_metadata m))
        (config_maps (cluster w)).
Proof.
  intros Hv Ht Hfs Hfc. cbv zeta.
  unfold delete_unused, with_local, bind.
  destruct (delete_unused_secrets_live ns (unused_secrets unused) no_results
              w v Hv Ht Hfs) as (Hres & Hs & Hm & HC & Hf).
  destruct (delete_unused_secrets ns (unused_secrets unused) (no_results, w))
    as [res [r1 w1]].
  simpl in Hres, Hs, Hm, HC, Hf. subst res.
  destruct (delete_unused_configmaps_live ns (unused_configmaps unused) r1
              w1 v) as (Hres2 & Hm2 & Hs2 & HC2 & Hf2);
    [now rewrite HC|exact Ht| |].
  { intros n Hn. rewrite Hf. now apply Hfc. }
  destruct (delete_unused_configmaps ns (unused_configmaps unused) (r1, w1))
    as [res [r2 w2]].
  simpl in Hres2, Hs2, Hm2, HC2, Hf2. subst res. simpl.
  split; [now rewrite Hs2, Hs|now rewrite Hm2, Hm].
Qed.

End Live.

Lemma absent_after_deletion ns name names {X} (meta : X → V1ObjectMeta)
    (l : list X) :
  name ∈ names →
  existsb (λ x, is_named name ns (meta x))
    (filter (λ x, not_deleted ns names (meta x)) l) = false.
Proof.
  intros Hname. apply not_true_iff_false. intros Hex.
  apply existsb_exists in Hex as (x & Hin & Hnamed).
  apply list_elem_of_In, list_elem_of_filter in Hin as [Hleft _].
  unfold is_named in Hnamed. apply andb_true_iff in Hnamed as [Hn Hns].
  apply String.eqb_eq in Hn. unfold not_deleted, in_namespace in Hleft.
  rewrite Hns, Hn in Hleft.
  apply str_in_elem_of in Hname. now rewrite Hname in Hleft.
Qed.

(** ** Loading the configuration, further *)

#[export] Instance loading_preorder : PreOrder loading.
Proof.
  split.
  - intros w. split; reflexivity.
  - intros w1 w2 w3 [Hs1 He1] [Hs2 He2]. split; [congruence|].
    etransitivity; eassumption.
Qed.

Lemma loading_same w w' :
  surroundings w' = surroundings w → events w' = events w → loading w w'.
Proof.
  intros Hs He. split; [exact Hs|]. exists []. rewrite app_nil_r.
  split; [exact He|constructor].
Qed.

Lemma loading_record l m : preserves loading (record (Logged l m)).
Proof.
  intros w. split; [reflexivity|].
  exists [Logged l m]. split; [reflexivity|]. now repeat constructor.
Qed.

Lemma loading_config_set key v : preserves loading (config_set key v).
Proof. intros w. now apply loading_same. Qed.

Lemma loading_dict_update config_data :
  preserves loading (dict_update config_data).
Proof.
  destruct config_data as [m|v]; simpl.
  - intros w. now apply loading_same.
  - destruct v as [| | |s|pairs]; try (intros w; reflexivity).
    + apply preserves_for_each; [apply _|]. intros c w. reflexivity.
    + apply preserves_for_each; [apply _|]. intros pair.
      destruct pair as [|k [|v [|]]]; try (intros w; reflexivity).
      apply loading_config_set.
Qed.

Section LoadConfigMore.
Context `{PythonLibrary}.

Lemma loading_load_from_config_map : preserves loading load_from_config_map.
Proof.
  unfold load_from_config_map.
  apply preserves_bind; [apply _| |intros config_map].
  { intros w. rewrite read_configuration_run. split; [reflexivity|].
    eexists [_]. split; [reflexivity|]. now repeat constructor. }
  destruct (data config_map) as [d|]; [|intros w; reflexivity].
  apply preserves_if_set; [apply _|intros text].
  apply preserves_bind; [apply _| |intros config_data].
  { apply preserves_lift_result, _. }
  apply preserves_bind; [apply _|apply loading_dict_update|intros _].
  apply loading_record.
Qed.

Lemma loading_override_from_environment :
  preserves loading override_from_environment.
Proof.
  unfold override_from_environment.
  apply preserves_bind; [apply _| |intros os_environ].
  { intros w. reflexivity. }
  apply preserves_bind; [apply _| |intros _].
  { apply preserves_if_set; [apply _|intros s]. apply loading_config_set. }
  apply preserves_bind; [apply _| |intros _].
  { apply preserves_if_set; [apply _|intros s].
    apply preserves_bind; [apply _| |intros n].
    - apply preserves_lift_result, _.
    - apply loading_config_set. }
  apply preserves_if_set; [apply _|intros s]. apply loading_config_set.
Qed.

Lemma loading_load_config : preserves loading load_config.
Proof.
  unfold load_config.
  apply preserves_try_except; [apply _| |intros e; apply loading_record].
  apply preserves_bind; [apply _| |intros _].
  { intros w. unfold load_incluster_config.
    destruct (in_cluster w); reflexivity. }
  apply preserves_bind; [apply _| |intros _].
  { apply preserves_try_except; [apply _| |intros e; apply loading_record].
    apply loading_load_from_config_map. }
  apply loading_override_from_environment.
Qed.

Lemma loading_startup_handler : preserves loading startup_handler.
Proof.
  unfold startup_handler.
  apply preserves_bind; [apply _|apply loading_load_config|intros _].
  apply preserves_bind; [apply _| |intros config].
  { intros w. reflexivity. }
  apply preserves_bind; [apply _|apply loading_record|intros _].
  apply preserves_bind; [apply _| |intros _; apply loading_record].
  intros w. now apply loading_same.
Qed.

Lemma loading_config_change_handler event_type :
  preserves loading (config_change_handler event_type).
Proof.
  unfold config_change_handler.
  apply preserves_when; [apply _|].
  apply preserves_bind; [apply _|apply loading_record|intros _].
  apply preserves_bind; [apply _|apply loading_load_config|intros _].
  apply preserves_bind; [apply _| |intros config; apply loading_record].
  intros w. reflexivity.
Qed.

Lemma config_change_handler_returns event_type w :
  (config_change_handler event_type w).1 = Ok tt.
Proof.
  unfold config_change_handler, when.
  destruct (str_in event_type ["ADDED"; "MODIFIED"]); [|reflexivity].
  unfold bind at 1. simpl. unfold bind at 1.
  pose proof (load_config_returns
                (set_events (events w ++ [Logged INFO ConfigurationChanged])
                   w)) as Hret.
  destruct (load_config _) as [[[]|e] w1]; [reflexivity|discriminate].
Qed.

End LoadConfigMore.

Lemma read_configuration_raises w e :
  read_configuration w = Raise e → ∃ status, e = ApiException status.
Proof.
  unfold read_configuration, answer.
  destruct (api_faults w _) as [status|]; [intros [= <-]; eauto|].
  destruct (List.find _ _); [discriminate|intros [= <-]; eauto].
Qed.

(** The overrides, one after the other: the result, and the configuration
    they leave. *)
Lemma override_from_environment_run w :
  let c1 :=
    match environ w !! "CLEANUP_NAMESPACES" with
    | Some s => <["namespaces" := VList (map strip (split s ","))]> (CONFIG w)
    | None => CONFIG w
    end in
  let dry c :=
    match environ w !! "DRY_RUN" with
    | Some s => <["dry_run" := VBool (String.eqb (lower s) "true")]> c
    | None => c
    end in
  override_from_environment w
  = match environ w !! "CLEANUP_INTERVAL" with
    | Some s =>
        match int s with
        | Raise e => (Raise e, set_CONFIG c1 w)
        | Ok n =>
            (Ok tt, set_CONFIG (dry (<["cleanup_interval" := VInt n]> c1)) w)
        end
    | None => (Ok tt, set_CONFIG (dry c1) w)
    end.
Proof.
  destruct w as [c f pm ic env ck rd cfg h evs].
  unfold override_from_environment, bind, if_set, config_set, modify,
    lift_result, set_CONFIG. simpl.
  destruct (env !! "CLEANUP_NAMESPACES") as [s1|]; simpl;
    (destruct (env !! "CLEANUP_INTERVAL") as [s2|]; simpl;
     [destruct (int s2); simpl|]);
    destruct (env !! "DRY_RUN") as [s3|]; reflexivity.
Qed.

Section Overrides.
Context `{PythonLibrary}.

Lemma load_from_config_map_unread w e :
  read_configuration w = Raise e →
  load_from_config_map w
  = (Raise e, called (ReadNamespacedConfigMap "cleanup-operator-config"
                        "cleanup-system") w).
Proof.
  intros Hread. unfold load_from_config_map, bind.
  now rewrite read_configuration_run, Hread.
Qed.

Lemma load_from_config_map_no_document w config_map d :
  read_configuration w = Ok config_map →
  data config_map = Some d → d !! "config.yaml" = None →
  load_from_config_map w
  = (Ok tt, called (ReadNamespacedConfigMap "cleanup-operator-config"
                      "cleanup-system") w).
Proof.
  intros Hread Hdata Hkey. unfold load_from_config_map, bind.
  now rewrite read_configuration_run, Hread, Hdata, Hkey.
Qed.

Lemma load_from_config_map_no_data w config_map :
  read_configuration w = Ok config_map → data config_map = None →
  load_from_config_map w
  = (Raise TypeError,
     called (ReadNamespacedConfigMap "cleanup-operator-config"
               "cleanup-system") w).
Proof.
  intros Hread Hdata. unfold load_from_config_map, bind.
  now rewrite read_configuration_run, Hread, Hdata.
Qed.

Lemma load_from_config_map_unparsed w config_map d text e :
  read_configuration w = Ok config_map →
  data config_map = Some d → d !! "config.yaml" = Some text →
  yaml_safe_load text = Raise e →
  load_from_config_map w
  = (Raise e, called (ReadNamespacedConfigMap "cleanup-operator-config"
                        "cleanup-system") w).
Proof.
  intros Hread Hdata Hkey Hyaml. unfold load_from_config_map, bind.
  rewrite read_configuration_run, Hread, Hdata, Hkey. cbn [if_set].
  unfold lift_result. now rewrite Hyaml.
Qed.

Lemma load_from_config_map_returns_mapping w m :
  loaded_document w = Some (YamlMapping m) →
  (load_from_config_map w).1 = Ok tt.
Proof.
  unfold loaded_document. destruct (in_cluster w); [|discriminate].
  unfold load_from_config_map, bind at 1. rewrite read_configuration_run.
  destruct (read_configuration w) as [config_map|e]; [|discriminate].
  unfold document_of. destruct (data config_map) as [d|]; [|discriminate].
  destruct (d !! "config.yaml") as [text|]; [|discriminate].
  cbn [if_set]. unfold bind at 1, lift_result.
  destruct (yaml_safe_load text) as [config_data|e]; [|discriminate].
  intros [= ->]. reflexivity.
Qed.

(** [load_config] once the credentials are found. *)
Lemma load_config_in_cluster w :
  in_cluster w = true →
  let after (run : result unit * World) :=
    match run with
    | (Ok _, w2) => (Ok tt, w2)
    | (Raise e, w2) => (Ok tt, logged WARNING (FailedToLoadConfig e) w2)
    end in
  load_config w
  = match load_from_config_map w with
    | (Ok _, w1) => after (override_from_environment w1)
    | (Raise e, w1) =>
        if is_ApiException e
        then after (override_from_environment
                      (logged INFO ConfigMapNotFound w1))
        else (Ok tt, logged WARNING (FailedToLoadConfig e) w1)
    end.
Proof.
  intros Hin. cbv zeta.
  unfold load_config, try_except at 1, bind at 1, load_incluster_config.
  rewrite Hin. unfold bind at 1, try_except at 1.
  destruct (load_from_config_map w) as [[[]|e] w1].
  - now destruct (override_from_environment w1) as [[[]|e] w2].
  - destruct (is_ApiException e); [|reflexivity].
    cbn [logger_info record modify].
    change (set_events (events w1 ++ [Logged INFO ConfigMapNotFound]) w1)
      with (logged INFO ConfigMapNotFound w1).
    now destruct (override_from_environment _) as [[[]|e'] w2].
Qed.

(** When the overrides are reached, they run in a world with the
    environment of [w] and the configuration that the document left. *)
Lemma overrides_reached_run w :
  overrides_reached w →
  ∃ w1,
    environ w1 = environ w
    ∧ CONFIG w1 = CONFIG (load_from_config_map w).2
    ∧ load_config w
      = match override_from_environment w1 with
        | (Ok _, w2) => (Ok tt, w2)
        | (Raise e, w2) => (Ok tt, logged WARNING (FailedToLoadConfig e) w2)
        end.
Proof.
  intros (Hin & Hcase).
  pose proof (load_config_in_cluster w Hin) as Hrun. cbv zeta in Hrun.
  pose proof (load_from_config_map_reconfigured w) as [Henv _].
  destruct Hcase as [(e & Hread)|[(config_map & d & Hread & Hdata & Hkey)|
                                  (m & Hdoc)]].
  - destruct (read_configuration_raises w e Hread) as (status & ->).
    rewrite (load_from_config_map_unread w _ Hread) in Hrun, Henv |- *.
    simpl in Hrun. eexists. split; [|split; [|exact Hrun]]; reflexivity.
  - rewrite (load_from_config_map_no_document w _ _ Hread Hdata Hkey)
      in Hrun, Henv |- *.
    eexists. split; [|split; [|exact Hrun]]; reflexivity.
  - pose proof (load_from_config_map_returns_mapping w m Hdoc) as Hret.
    destruct (load_from_config_map w) as [[[]|e] w1]; [|discriminate].
    exists w1. split; [exact Henv|]. split; [reflexivity|exact Hrun].
Qed.

End Overrides.

(** ** What the scan of the workloads collects *)

Section Collects.
Context (w0 : World).

Lemma collects_eq S S' C C' m :
  S = S' → C = C' → collects w0 S C m → collects w0 S' C' m.
Proof. now intros -> ->. Qed.

Lemma collects_ret : collects w0 [] [] (ret tt).
Proof.
  intros r w Hs. exists r, w. split; [reflexivity|]. split; [exact Hs|].
  split; intros n; rewrite elem_of_nil; tauto.
Qed.

Lemma collects_bind S1 C1 S2 C2 (m1 m2 : M (References * World) unit) :
  collects w0 S1 C1 m1 → collects w0 S2 C2 m2 →
  collects w0 (S1 ++ S2) (C1 ++ C2) (m1 ;; m2).
Proof.
  intros H1 H2 r w Hs.
  destruct (H1 r w Hs) as (r1 & w1 & Hrun1 & Hs1 & Hsec1 & Hcm1).
  destruct (H2 r1 w1 Hs1) as (r2 & w2 & Hrun2 & Hs2 & Hsec2 & Hcm2).
  exists r2, w2. unfold bind. rewrite Hrun1.
  split; [exact Hrun2|]. split; [exact Hs2|].
  split; intros n.
  - rewrite Hsec2, Hsec1, elem_of_app. tauto.
  - rewrite Hcm2, Hcm1, elem_of_app. tauto.
Qed.

Lemma collects_for_each {X} (fs fc : X → list string)
    (body : X → M (References * World) unit) (l : list X) :
  (∀ x, collects w0 (fs x) (fc x) (body x)) →
  collects w0 (flat_map fs l) (flat_map fc l) (for_each l body).
Proof.
  intros Hbody. induction l as [|x l IH]; cbn [for_each flat_map].
  - apply collects_ret.
  - now apply collects_bind.
Qed.

Lemma collects_add_secret name : collects w0 [name] [] (add_secret name).
Proof.
  intros r w Hs. eexists _, w. split; [reflexivity|]. split; [exact Hs|].
  simpl. split; intros n.
  - rewrite elem_of_union, elem_of_singleton, list_elem_of_singleton. tauto.
  - rewrite elem_of_nil. tauto.
Qed.

Lemma collects_add_configmap name :
  collects w0 [] [name] (add_configmap name).
Proof.
  intros r w Hs. eexists _, w. split; [reflexivity|]. split; [exact Hs|].
  simpl. split; intros n.
  - rewrite elem_of_nil. tauto.
  - rewrite elem_of_union, elem_of_singleton, list_elem_of_singleton. tauto.
Qed.

(** [if site: references['secrets'].add(site.name)] *)
Lemma collects_secret_site site :
  collects w0 (named site) [] (if_set site add_secret).
Proof.
  destruct site; simpl; [apply collects_add_secret|apply collects_ret].
Qed.

Lemma collects_configmap_site site :
  collects w0 [] (named site) (if_set site add_configmap).
Proof.
  destruct site; simpl; [apply collects_add_configmap|apply collects_ret].
Qed.

Lemma collects_names names : collects w0 names [] (for_each names add_secret).
Proof.
  eapply collects_eq;
    [| |apply (collects_for_each (λ n, [n]) (λ _, [])); intros n;
        apply collects_add_secret].
  - induction names as [|n names IH]; simpl; congruence.
  - induction names as [|n names IH]; simpl; congruence.
Qed.

Lemma flat_map_nil {X Y} (l : list X) : flat_map (λ _, @nil Y) l = [].
Proof. induction l; simpl; auto. Qed.

Lemma collects_source (source : V1VolumeProjection) :
  collects w0 (named (projection_secret source))
    (named (projection_config_map source))
    (if_set (projection_secret source) add_secret ;;
     if_set (projection_config_map source) add_configmap).
Proof.
  eapply collects_eq;
    [| |apply collects_bind;
        [apply collects_secret_site|apply collects_configmap_site]].
  - apply app_nil_r.
  - reflexivity.
Qed.

Lemma collects_volume (volume : V1Volume) :
  collects w0 (volume_secrets volume) (volume_configmaps volume)
    (if_set (volume_secret volume) add_secret ;;
     if_set (volume_config_map volume) add_configmap ;;
     if_set (volume_projected volume) (λ sources,
       for_each (items sources) (λ source,
         if_set (projection_secret source) add_secret ;;
         if_set (projection_config_map source) add_configmap))).
Proof.
  assert (Hprojected :
    collects w0
      (flat_map (λ source, named (projection_secret source))
         (projected_sources volume))
      (flat_map (λ source, named (projection_config_map source))
         (projected_sources volume))
      (if_set (volume_projected volume) (λ sources,
         for_each (items sources) (λ source,
           if_set (projection_secret source) add_secret ;;
           if_set (projection_config_map source) add_configmap)))).
  { unfold projected_sources.
    destruct (volume_projected volume) as [sources|]; simpl.
    - apply collects_for_each. intros source. apply collects_source.
    - apply collects_ret. }
  eapply collects_eq;
    [| |apply collects_bind;
        [apply collects_secret_site
        |apply collects_bind;
          [apply collects_configmap_site|exact Hprojected]]].
  - reflexivity.
  - reflexivity.
Qed.

Lemma collects_env_var (env_var : V1EnvVar) :
  collects w0 (env_var_secrets env_var) (env_var_configmaps env_var)
    (if_set (value_from env_var) (λ source,
       if_set (secret_key_ref source) add_secret ;;
       if_set (config_map_key_ref source) add_configmap)).
Proof.
  unfold env_var_secrets, env_var_configmaps.
  destruct (value_from env_var) as [source|]; simpl; [|apply collects_ret].
  eapply collects_eq;
    [| |apply collects_bind;
        [apply collects_secret_site|apply collects_configmap_site]].
  - apply app_nil_r.
  - reflexivity.
Qed.

Lemma collects_env_from (source : V1EnvFromSource) :
  collects w0 (named (secret_ref source)) (named (config_map_ref source))
    (if_set (secret_ref source) add_secret ;;
     if_set (config_map_ref source) add_configmap).
Proof.
  eapply collects_eq;
    [| |apply collects_bind;
        [apply collects_secret_site|apply collects_configmap_site]].
  - apply app_nil_r.
  - reflexivity.
Qed.

Lemma collects_container (container : V1Container) :
  collects w0 (container_secrets container) (container_configmaps container)
    (for_each (items (env container)) (λ env_var,
       if_set (value_from env_var) (λ source,
         if_set (secret_key_ref source) add_secret ;;
         if_set (config_map_key_ref source) add_configmap)) ;;
     for_each (items (env_from container)) (λ source,
       if_set (secret_ref source) add_secret ;;
       if_set (config_map_ref source) add_configmap)).
Proof.
  apply collects_bind.
  - apply (collects_for_each env_var_secrets env_var_configmaps).
    intros env_var. apply collects_env_var.
  - apply (collects_for_each (λ source, named (secret_ref source))
             (λ source, named (config_map_ref source))).
    intros source. apply collects_env_from.
Qed.

Lemma read_service_account_setting w name namespace :
  setting w = setting w0 →
  read_service_account w name namespace
  = read_service_account w0 name namespace.
Proof.
  intros Hs. unfold read_service_account, answer.
  injection Hs as -> -> _ _ _ _ _ _. reflexivity.
Qed.

Lemma read_service_account_raises w name namespace e :
  read_service_account w name namespace = Raise e →
  is_ApiException e = true.
Proof.
  unfold read_service_account, answer.
  destruct (api_faults w _); [now intros [= <-]|].
  destruct (List.find _ _); [discriminate|now intros [= <-]].
Qed.

Lemma collects_service_account (pod_spec : V1PodSpec) :
  collects w0 (service_account_secret_names w0 pod_spec) []
    (when (negb (String.eqb (or_else (service_account_name pod_spec) "") ""))
       (try_except
          (sa <- global (read_namespaced_service_account
                           (or_else (service_account_name pod_spec) "")
                           (or_else (spec_namespace pod_spec) "default")) ;;
           for_each (items (service_account_secrets sa)) add_secret ;;
           for_each (items (service_account_image_pull_secrets sa))
             add_secret)
          is_ApiException (λ _, ret tt))).
Proof.
  unfold service_account_secret_names. cbv zeta.
  destruct (String.eqb (or_else (service_account_name pod_spec) "") "");
    simpl; [apply collects_ret|].
  intros r w Hs.
  unfold try_except, bind at 1, global at 1, read_namespaced_service_account.
  rewrite api_call_read.
  fold (read_service_account w (or_else (service_account_name pod_spec) "")
          (or_else (spec_namespace pod_spec) "default")).
  rewrite (read_service_account_setting w _ _ Hs).
  destruct (read_service_account w0 _ _) as [sa|e] eqn:Hread.
  - destruct (collects_bind _ _ _ _ _ _
                (collects_names (items (service_account_secrets sa)))
                (collects_names
                   (items (service_account_image_pull_secrets sa)))
                r (set_events
                     (events w ++ [Called (ReadNamespacedServiceAccount
                        (or_else (service_account_name pod_spec) "")
                        (or_else (spec_namespace pod_spec) "default"))]) w))
      as (r' & w' & Hrun & Hs' & Hsec & Hcm).
    { rewrite <- Hs. apply events_blind. }
    rewrite Hrun. exists r', w'. split; [reflexivity|].
    split; [exact Hs'|]. split; [exact Hsec|exact Hcm].
  - rewrite (read_service_account_raises w0 _ _ e Hread). simpl.
    eexists r, _. split; [reflexivity|].
    split; [rewrite <- Hs; apply events_blind|].
    split; intros n; rewrite elem_of_nil; tauto.
Qed.

Lemma collects_extract (pod_spec : V1PodSpec) :
  collects w0 (pod_spec_secrets w0 pod_spec) (pod_spec_configmaps pod_spec)
    (_extract_references_from_pod_spec (Some pod_spec)).
Proof.
  unfold _extract_references_from_pod_spec. cbv zeta.
  eapply collects_eq;
    [| |apply collects_bind;
        [apply (collects_for_each volume_secrets volume_configmaps);
         intros volume; apply collects_volume
        |apply collects_bind;
          [apply (collects_for_each container_secrets container_configmaps);
           intros container; apply collects_container
          |apply collects_bind;
            [apply collects_names|apply collects_service_account]]]].
  - reflexivity.
  - unfold pod_spec_configmaps, all_containers. now rewrite !app_nil_r.
Qed.

End Collects.

Lemma flat_map_omap {X Y Z} (f : X → option Y) (g : Y → list Z) (l : list X) :
  flat_map (λ x, match f x with Some y => g y | None => [] end) l
  = flat_map g (omap f l).
Proof.
  induction l as [|x l IH]; [reflexivity|]. simpl.
  destruct (f x); simpl; now rewrite IH.
Qed.

Lemma elem_of_flat_map {X Y} (f : X → list Y) (l : list X) (y : Y) :
  y ∈ flat_map f l ↔ ∃ x, x ∈ l ∧ y ∈ f x.
Proof.
  rewrite list_elem_of_In, in_flat_map. split; intros (x & Hx & Hy); exists x.
  - now rewrite !list_elem_of_In.
  - now rewrite <- !list_elem_of_In.
Qed.

Section CollectsScan.
Context (w0 : World) (ns : string).

Lemma collects_pods (l : list V1Pod) :
  collects w0 (flat_map (pod_spec_secrets w0) (omap pod_spec l))
    (flat_map pod_spec_configmaps (omap pod_spec l))
    (for_each l (λ pod, _extract_references_from_pod_spec (pod_spec pod))).
Proof.
  eapply collects_eq; [apply flat_map_omap|apply flat_map_omap|].
  apply collects_for_each. intros pod.
  destruct (pod_spec pod) as [spec|]; [apply collects_extract|].
  apply collects_ret.
Qed.

Lemma collects_templates (l : list Workload) :
  collects w0 (flat_map (pod_spec_secrets w0) (omap template_spec l))
    (flat_map pod_spec_configmaps (omap template_spec l))
    (scan_templates l).
Proof.
  unfold scan_templates.
  eapply collects_eq; [apply flat_map_omap|apply flat_map_omap|].
  apply collects_for_each. intros workload.
  destruct (template_spec workload) as [spec|]; [apply collects_extract|].
  apply collects_ret.
Qed.

(** A listing that the server answers, followed by the scan of what it
    returns. *)
Lemma collects_listed {X} (r : request) (g : Cluster → list X) S C
    (scan : list X → M (References * World) unit) :
  api_faults w0 r = None →
  collects w0 S C (scan (g (cluster w0))) →
  collects w0 S C
    (l <- global (api_call r (λ _ c, (Ok (g c), c))) ;; scan l).
Proof.
  intros Hfault Hscan refs w Hs.
  unfold bind at 1, global at 1.
  rewrite (api_call_read r (λ c, Ok (g c))). unfold answer.
  assert (Hf : api_faults w r = None)
    by (injection Hs as _ -> _ _ _ _ _ _; exact Hfault).
  assert (Hc : cluster w = cluster w0) by (now injection Hs).
  rewrite Hf, Hc.
  apply Hscan. rewrite <- Hs. apply events_blind.
Qed.

Lemma collects_scan_workloads :
  (∀ k, api_faults w0 (list_request k ns) = None) →
  collects w0 (flat_map (pod_spec_secrets w0) (workload_specs ns w0))
    (flat_map pod_spec_configmaps (workload_specs ns w0))
    (scan_workloads ns).
Proof.
  intros Hfaults. unfold workload_specs. cbv zeta.
  rewrite !flat_map_app.
  unfold scan_workloads, scan_pods, scan_deployments, scan_daemonsets,
    scan_statefulsets.
  apply collects_bind; [|apply collects_bind; [|apply collects_bind]].
  - apply (collects_listed (ListNamespacedPod ns)
             (λ c, filter (λ p, in_namespace ns (pod_metadata p)) (pods c))
             _ _ (λ l, for_each l (λ pod,
                         _extract_references_from_pod_spec (pod_spec pod)))).
    + apply (Hfaults Pods).
    + apply collects_pods.
  - apply (collects_listed (ListNamespacedDeployment ns)
             (λ c, filter (λ d, in_namespace ns (workload_metadata d))
                     (deployments c)) _ _ scan_templates).
    + apply (Hfaults Deployments).
    + apply collects_templates.
  - apply (collects_listed (ListNamespacedDaemonSet ns)
             (λ c, filter (λ d, in_namespace ns (workload_metadata d))
                     (daemon_sets c)) _ _ scan_templates).
    + apply (Hfaults DaemonSets).
    + apply collects_templates.
  - apply (collects_listed (ListNamespacedStatefulSet ns)
             (λ c, filter (λ d, in_namespace ns (workload_metadata d))
                     (stateful_sets c)) _ _ scan_templates).
    + apply (Hfaults StatefulSets).
    + apply collects_templates.
Qed.

End CollectsScan.

Section Quietly.
Context `{PythonLibrary}.

(** When the classification raises, [cleanup_namespace] raises with it
    before any deletion. *)
Lemma cleanup_namespace_raises_quietly ns w e :
  (get_unused_resources ns w).1 = Raise e →
  (cleanup_namespace ns w).1 = Raise e
  ∧ cluster (cleanup_namespace ns w).2 = cluster w
  ∧ ∃ new,
      events (cleanup_namespace ns w).2 = events w ++ new
      ∧ delete_calls new = [].
Proof.
  intros Hclass. rewrite cleanup_namespace_unfold.
  pose (w0 := logged INFO (StartingCleanup ns) w).
  destruct (det_get_unused_resources ns w0 w (alike_logged _ _ w))
    as [Hsame _].
  destruct (get_unused_resources_run ns w0)
    as (res & w' & Hrun & _ & Hset & (q & Hq & Hquiet) & _).
  fold w0. rewrite Hrun in Hsame |- *. rewrite Hclass in Hsame.
  simpl in Hsame. subst res. simpl.
  split; [reflexivity|]. split; [now injection Hset|].
  exists (Logged INFO (StartingCleanup ns) :: q).
  split; [rewrite Hq; simpl; now rewrite <- app_assoc|].
  simpl. now apply quiet_delete_calls.
Qed.

End Quietly.

(** ** The trace of a cycle, namespace by namespace *)

Lemma cleanups_started_app evs1 evs2 :
  cleanups_started (evs1 ++ evs2)
  = cleanups_started evs1 ++ cleanups_started evs2.
Proof. unfold cleanups_started. apply flat_map_app. Qed.

Lemma completed_secrets_app evs1 evs2 :
  completed_secrets (evs1 ++ evs2)
  = completed_secrets evs1 + completed_secrets evs2.
Proof.
  induction evs1 as [|ev evs1 IH]; [reflexivity|].
  simpl. destruct ev as [r|l [ ]]; try exact IH. lia.
Qed.

Lemma completed_configmaps_app evs1 evs2 :
  completed_configmaps (evs1 ++ evs2)
  = completed_configmaps evs1 + completed_configmaps evs2.
Proof.
  induction evs1 as [|ev evs1 IH]; [reflexivity|].
  simpl. destruct ev as [r|l [ ]]; try exact IH. lia.
Qed.

Lemma inner_events_count evs :
  Forall inner_event evs →
  cleanups_started evs = []
  ∧ completed_secrets evs = 0 ∧ completed_configmaps evs = 0.
Proof.
  induction 1 as [|ev evs Hev _ (IH1 & IH2 & IH3)]; [now repeat split|].
  simpl. rewrite IH1. destruct ev as [r|l [ ]]; try now repeat split.
  all: destruct Hev.
Qed.

Lemma inner_event_framed : Framed (extends inner_event).
Proof.
  apply extends_framed.
  - intros l [ ]; try discriminate; intros _; exact I.
  - intros r _ _. exact I.
Qed.

Section CycleTrace.
Context `{PythonLibrary}.

Lemma inner_try_delete_secret ns name :
  preserves (pair_rel any (extends inner_event)) (try_delete_secret ns name).
Proof.
  unfold try_delete_secret, count_secret, delete_namespaced_secret.
  apply preserves_try_except; [apply _| |intros e].
  - apply preserves_bind; [apply _| |intros dry_run].
    { apply preserves_global; [apply _|apply extends_config_get]. }
    apply preserves_bind; [apply _| |intros _].
    + destruct (truthy dry_run).
      * apply preserves_global; [apply _|now apply extends_record].
      * apply preserves_bind; [apply _| |intros _].
        -- apply preserves_global; [apply _|now apply extends_api_call].
        -- apply preserves_global; [apply _|now apply extends_record].
    + apply preserves_modify_local; [apply _|intros; exact I].
  - apply preserves_global; [apply _|now apply extends_record].
Qed.

Lemma inner_try_delete_configmap ns name :
  preserves (pair_rel any (extends inner_event))
    (try_delete_configmap ns name).
Proof.
  unfold try_delete_configmap, count_configmap, delete_namespaced_config_map.
  apply preserves_try_except; [apply _| |intros e].
  - apply preserves_bind; [apply _| |intros dry_run].
    { apply preserves_global; [apply _|apply extends_config_get]. }
    apply preserves_bind; [apply _| |intros _].
    + destruct (truthy dry_run).
      * apply preserves_global; [apply _|now apply extends_record].
      * apply preserves_bind; [apply _| |intros _].
        -- apply preserves_global; [apply _|now apply extends_api_call].
        -- apply preserves_global; [apply _|now apply extends_record].
    + apply preserves_modify_local; [apply _|intros; exact I].
  - apply preserves_global; [apply _|now apply extends_record].
Qed.

(** The two deletion loops and the summary: one record of completion, with
    the counts returned, when the executor returns. *)
Lemma delete_unused_trace ns unused w :
  ∃ new,
    events (delete_unused ns unused w).2 = events w ++ new
    ∧ cleanups_started new = []
    ∧ match (delete_unused ns unused w).1 with
      | Ok results =>
          completed_secrets new = secrets_deleted results
          ∧ completed_configmaps new = configmaps_deleted results
      | Raise _ => completed_secrets new = 0 ∧ completed_configmaps new = 0
      end.
Proof.
  unfold delete_unused, with_local, bind.
  pose proof (preserves_for_each (pair_rel any (extends inner_event))
                (unused_secrets unused) (try_delete_secret ns)
                (inner_try_delete_secret ns) (no_results, w))
    as [_ (new1 & Hnew1 & Hall1)].
  fold (delete_unused_secrets ns (unused_secrets unused)) in Hnew1.
  destruct (delete_unused_secrets ns (unused_secrets unused) (no_results, w))
    as [res1 [r1 w1]]. cbn [snd] in Hnew1.
  destruct (inner_events_count new1 Hall1) as (Hs1 & Hc1 & Hm1).
  destruct res1 as [[]|e]; [|exists new1; now repeat split].
  pose proof (preserves_for_each (pair_rel any (extends inner_event))
                (unused_configmaps unused) (try_delete_configmap ns)
                (inner_try_delete_configmap ns) (r1, w1))
    as [_ (new2 & Hnew2 & Hall2)].
  fold (delete_unused_configmaps ns (unused_configmaps unused)) in Hnew2.
  destruct (delete_unused_configmaps ns (unused_configmaps unused) (r1, w1))
    as [res2 [r2 w2]]. cbn [snd] in Hnew2.
  destruct (inner_events_count new2 Hall2) as (Hs2 & Hc2 & Hm2).
  destruct res2 as [[]|e].
  2:{ exists (new1 ++ new2). simpl.
      rewrite Hnew2, Hnew1, cleanups_started_app, completed_secrets_app,
        completed_configmaps_app, Hs1, Hs2, Hc1, Hc2, Hm1, Hm2.
      split; [now rewrite app_assoc|]. now repeat split. }
  exists (new1 ++ new2
          ++ [Logged INFO (CleanupCompleted ns (secrets_deleted r2)
                             (configmaps_deleted r2))]).
  simpl.
  rewrite Hnew2, Hnew1, !cleanups_started_app, !completed_secrets_app,
    !completed_configmaps_app, Hs1, Hs2, Hc1, Hc2, Hm1, Hm2.
  split; [now rewrite <- !app_assoc|]. simpl. split; [reflexivity|].
  split; lia.
Qed.

(** The cleanup of a namespace: one record of its start, and one of its
    completion when it returns. *)
Lemma cleanup_namespace_trace ns w :
  ∃ new,
    events (cleanup_namespace ns w).2 = events w ++ new
    ∧ cleanups_started new = [ns]
    ∧ match (cleanup_namespace ns w).1 with
      | Ok results =>
          completed_secrets new = secrets_deleted results
          ∧ completed_configmaps new = configmaps_deleted results
      | Raise _ => completed_secrets new = 0 ∧ completed_configmaps new = 0
      end.
Proof.
  rewrite cleanup_namespace_unfold.
  pose (w0 := logged INFO (StartingCleanup ns) w). fold w0.
  pose proof (@get_unused_resources_preserves _ (extends inner_event)
                inner_event_framed ns
                (extends_datetime_now_utc inner_event) w0)
    as (new1 & Hnew1 & Hall1).
  destruct (inner_events_count new1 Hall1) as (Hs1 & Hc1 & Hm1).
  destruct (get_unused_resources ns w0) as [[unused|e] w1]; cbn [snd] in Hnew1.
  - destruct (delete_unused_trace ns unused w1) as (new2 & Hnew2 & Hs2 & Hres).
    exists (Logged INFO (StartingCleanup ns) :: new1 ++ new2).
    split; [rewrite Hnew2, Hnew1; simpl; now rewrite <- !app_assoc|].
    split; [simpl; now rewrite cleanups_started_app, Hs1, Hs2|].
    destruct (delete_unused ns unused w1).1; simpl;
      rewrite completed_secrets_app, completed_configmaps_app, Hc1, Hm1;
      exact Hres.
  - exists (Logged INFO (StartingCleanup ns) :: new1). cbn [fst snd].
    split; [rewrite Hnew1; simpl; now rewrite <- !app_assoc|].
    simpl. rewrite Hs1. now repeat split.
Qed.

(** One round of the loop of the cycle adds to the totals what the round
    reports as deleted. *)
Lemma try_cleanup_namespace_trace ns total w :
  ∃ total' w' new,
    try_cleanup_namespace ns (total, w) = (Ok tt, (total', w'))
    ∧ events w' = events w ++ new
    ∧ cleanups_started new = [ns]
    ∧ secrets_deleted total' = secrets_deleted total + completed_secrets new
    ∧ configmaps_deleted total'
      = configmaps_deleted total + completed_configmaps new.
Proof.
  unfold try_cleanup_namespace, try_except, bind, global.
  destruct (cleanup_namespace_trace ns w) as (new & Hnew & Hs & Hres).
  destruct (cleanup_namespace ns w) as [[results|e] w1]; simpl in *.
  - eexists _, w1, new. split; [reflexivity|]. split; [exact Hnew|].
    split; [exact Hs|]. simpl. destruct Hres as [-> ->]. now split.
  - eexists total, _, (new ++ [Logged ERROR (ErrorCleaningNamespace ns e)]).
    split; [reflexivity|]. simpl.
    split; [now rewrite Hnew, app_assoc|].
    rewrite cleanups_started_app, completed_secrets_app,
      completed_configmaps_app, Hs. destruct Hres as [-> ->]. simpl.
    split; [reflexivity|]. split; lia.
Qed.

Lemma clean_all_trace namespaces :
  ∀ total w,
  ∃ total' w' new,
    for_each namespaces try_cleanup_namespace (total, w)
    = (Ok tt, (total', w'))
    ∧ events w' = events w ++ new
    ∧ cleanups_started new = namespaces
    ∧ secrets_deleted total' = secrets_deleted total + completed_secrets new
    ∧ configmaps_deleted total'
      = configmaps_deleted total + completed_configmaps new.
Proof.
  induction namespaces as [|ns namespaces IH]; intros total w.
  - exists total, w, []. rewrite app_nil_r. simpl.
    repeat split; lia.
  - cbn [for_each]. unfold bind.
    destruct (try_cleanup_namespace_trace ns total w)
      as (t1 & w1 & new1 & Hrun1 & Hev1 & Hs1 & Hc1 & Hm1).
    rewrite Hrun1.
    destruct (IH t1 w1) as (t2 & w2 & new2 & Hrun2 & Hev2 & Hs2 & Hc2 & Hm2).
    exists t2, w2, (new1 ++ new2). split; [exact Hrun2|].
    split; [now rewrite Hev2, Hev1, app_assoc|].
    rewrite cleanups_started_app, completed_secrets_app,
      completed_configmaps_app, Hs1, Hs2.
    split; [reflexivity|]. split; lia.
Qed.

End CycleTrace.

(** ** A check that raises stops the classification *)

Section Stops.
Context `{PythonLibrary}.

Lemma check_secret_world references cutoff_time secret u w res u' w' :
  check_secret references cutoff_time secret (u, w) = (res, (u', w')) →
  w' = w.
Proof.
  rewrite check_secret_run. cbv zeta.
  repeat case_match; now intros [= _ _ <-].
Qed.

Lemma check_secrets_stop references cutoff_time s w l :
  ∀ u, s ∈ l →
  (∀ u', ∃ e, (check_secret references cutoff_time s (u', w)).1 = Raise e) →
  ∃ e, (for_each l (check_secret references cutoff_time) (u, w)).1 = Raise e.
Proof.
  induction l as [|a l IH]; intros u Hin Hs; [inversion Hin|].
  cbn [for_each]. unfold bind.
  destruct (check_secret references cutoff_time a (u, w))
    as [[[]|e] [u1 w1]] eqn:Hrun; [|now exists e].
  pose proof (check_secret_world _ _ _ _ _ _ _ _ Hrun) as ->.
  apply elem_of_cons in Hin as [->|Hin].
  - destruct (Hs u) as (e & He). rewrite Hrun in He. discriminate.
  - now apply IH.
Qed.

Lemma classify_resources_stops ns references cutoff_time w s :
  api_faults w (ListNamespacedSecret ns) = None →
  s ∈ secrets_in ns w →
  (∀ u w', CONFIG w' = CONFIG w →
     ∃ e, (check_secret references cutoff_time s (u, w')).1 = Raise e) →
  ∃ e, (classify_resources ns references cutoff_time w).1 = Raise e.
Proof.
  intros Hfault Hin Hraises.
  unfold classify_resources, with_local, bind at 1, try_except, bind at 1.
  unfold list_namespaced_secret at 1. rewrite global_api_read.
  unfold answer at 1. rewrite Hfault.
  pose (w1 := called (ListNamespacedSecret ns) w).
  cbv beta iota. fold (secrets_in ns w). fold w1. unfold bind at 1.
  destruct (check_secrets_run references cutoff_time (secrets_in ns w)
              [] [] w1) as (res1 & added1 & Hrun1 & _ & _ & He1).
  destruct (check_secrets_stop references cutoff_time s w1 (secrets_in ns w)
              no_unused Hin) as (e & He).
  { intros u'. now apply Hraises. }
  unfold no_unused in *. rewrite Hrun1 in He |- *. simpl in He. subst res1.
  destruct (He1 e eq_refl) as [Hapi _]. rewrite Hapi. cbn. now exists e.
Qed.

End Stops.

(** * The claims *)

(** C6, as amended.  [get_resource_references] never raises, so a listing
    failure does not abort the cycle.  The kinds are listed in the order
    Pods, Deployments, DaemonSets, StatefulSets, and the set returned is
    built from the kinds listed before the first failing one: kinds after it
    contribute nothing, whether their listing would succeed or not.  Every
    reference of a kind scanned before the failure is in the result, the
    failure is the last record of the log, and when no listing fails the
    set is the one built from all four kinds. *)
Theorem references_built_before_first_failure (ns : string) (w : World) :
  ∃ w',
    get_resource_references ns w
    = (Ok (references_before_first_failure ns w), w')
    ∧ setting w' = setting w
    ∧ (∀ k, k ∈ listed_before_failure ns w all_kinds →
         includes (references_of_kind ns w k)
           (references_before_first_failure ns w))
    ∧ match first_failure ns w with
      | Some (k, status) =>
          last (events w')
          = Some (Logged ERROR
                    (ErrorGettingReferences ns (ApiException status)))
      | None =>
          references_before_first_failure ns w
          = references_from_succeeded_kinds ns w
      end.
Proof.
  destruct (scan_kinds_run ns all_kinds no_references w)
    as (w1 & Hrun & Hset & _).
  unfold get_resource_references, with_local, bind, try_except.
  rewrite scan_workloads_for_each, Hrun.
  replace (union_references no_references _)
    with (references_before_first_failure ns w).
  2:{ apply references_eq; simpl; symmetry;
      apply leibniz_equiv, (left_id ∅ (∪)). }
  assert (Hincl : ∀ k, k ∈ listed_before_failure ns w all_kinds →
            includes (references_of_kind ns w k)
              (references_before_first_failure ns w)).
  { intros k Hk. apply union_all_includes, list_elem_of_fmap. eauto. }
  unfold first_failure.
  destruct (first_failure_in ns w all_kinds) as [[k status]|] eqn:Hfirst.
  - simpl. eexists. split; [reflexivity|]. split; [exact Hset|].
    split; [exact Hincl|]. simpl. apply last_snoc.
  - simpl. exists w1. split; [reflexivity|]. split; [exact Hset|].
    split; [exact Hincl|].
    unfold references_before_first_failure, references_from_succeeded_kinds.
    f_equal. f_equal. clear -Hfirst.
    induction all_kinds as [|k ks IH]; [reflexivity|].
    simpl in *.
    destruct (api_faults w (list_request k ns)) eqn:Hfault; [discriminate|].
    assert (Hs : listing_succeeds ns w k = true)
      by (unfold listing_succeeds; now rewrite Hfault).
    rewrite Hs, filter_cons_True by exact Hs. f_equal. now apply IH.
Qed.

(** C6, counterexample to the claim as stated.  Listing the Pods of [ns1]
    fails; listing its Deployments would succeed, and its Deployment
    references [db-creds] and [app-config].  The set returned is empty: it
    is not built from the kinds that succeeded. *)
Lemma succeeded_kinds_not_collected_counterexample :
  let w := set_api_faults pods_unavailable (world_of scenario_cluster) in
  listing_succeeds "ns1" w Deployments = true
  ∧ "db-creds" ∈ ref_secrets (references_from_succeeded_kinds "ns1" w)
  ∧ (get_resource_references "ns1" w).1 = Ok no_references
  ∧ (get_resource_references "ns1" w).1
    ≠ Ok (references_from_succeeded_kinds "ns1" w).
Proof.
  simpl. split; [reflexivity|]. split; [now vm_compute|].
  split; [now vm_compute|]. now vm_compute.
Qed.

Section Invariants.
Context `{PythonLibrary}.

(** C1.  Whatever [get_unused_resources] returns for a namespace, no name
    of the reference set collected for that namespace (from volumes,
    projected-volume sources, env value-from, env-from, image-pull secrets
    and service-account secrets) is in the candidate list of its kind,
    whatever the age of the resource. *)
Theorem referenced_never_candidate (ns : string) (w w' : World)
    (references : References) (unused : Unused) :
  (get_resource_references ns w).1 = Ok references →
  get_unused_resources ns w = (Ok unused, w') →
  (∀ name, name ∈ ref_secrets references → name ∉ unused_secrets unused)
  ∧ (∀ name, name ∈ ref_configmaps references →
       name ∉ unused_configmaps unused).
Proof.
  intros Href Hrun.
  destruct (candidates_sound ns w unused w' Hrun)
    as (cutoff_time & references' & _ & Href' & Hsecrets & Hconfigmaps).
  rewrite Href in Href'. injection Href' as <-.
  split; intros name Hin Hcand.
  - destruct (Hsecrets name Hcand) as (s & _ & <- & _ & _ & Hnot & _).
    contradiction.
  - destruct (Hconfigmaps name Hcand) as (m & _ & <- & _ & Hnot & _).
    contradiction.
Qed.

(** C2.  With a threshold of [h] hours and [now] the reading of the clock
    from which the cutoff is computed, a name is in no candidate list when
    every resource of the namespace that bears it (in a cluster, the one
    object of that kind and name) has a creation timestamp [t] with
    [now - t < h], whether it is referenced or excluded or neither.
    Timestamps are the API's, read as UTC; times are in microseconds. *)
Theorem young_never_candidate (ns : string) (w w' : World) (unused : Unused)
    (h : Z) (name : string) :
  get_unused_resources ns w = (Ok unused, w') →
  CONFIG w !! "unused_threshold_hours" = Some (VInt h) →
  let now := clock w (clock_reads w) in
  ((∀ s t, s ∈ secrets_in ns w → meta_name (secret_metadata s) = name →
           creation_timestamp (secret_metadata s) = Some t →
           now - wall_clock t < h * microseconds_per_hour) →
   name ∉ unused_secrets unused)
  ∧ ((∀ m t, m ∈ config_maps_in ns w →
             meta_name (config_map_metadata m) = name →
             creation_timestamp (config_map_metadata m) = Some t →
             now - wall_clock t < h * microseconds_per_hour) →
     name ∉ unused_configmaps unused).
Proof.
  intros Hrun Hh now.
  destruct (candidates_sound ns w unused w' Hrun)
    as (cutoff_time & references & Hcut & _ & Hsecrets & Hconfigmaps).
  pose proof (cutoff_of_utc w cutoff_time Hcut) as Hutc.
  apply (cutoff_of_hours w h cutoff_time Hh) in Hcut.
  split; intros Hyoung Hcand.
  - destruct (Hsecrets name Hcand) as (s & Hin & Hname & _ & _ & _ & Hold).
    apply (older_than_utc _ _ Hutc) in Hold as (t & Ht & Hlt).
    specialize (Hyoung s t Hin Hname Ht). subst cutoff_time. simpl in Hlt.
    unfold now in Hyoung. lia.
  - destruct (Hconfigmaps name Hcand) as (m & Hin & Hname & _ & _ & Hold).
    apply (older_than_utc _ _ Hutc) in Hold as (t & Ht & Hlt).
    specialize (Hyoung m t Hin Hname Ht). subst cutoff_time. simpl in Hlt.
    unfold now in Hyoung. lia.
Qed.

(** C3.  Let the name of a resource match one of the configured exclusion
    patterns, or let it be a Secret whose name starts with [default-token-]
    or ends with [-token], or whose type is one of the system types.  Then
    it is in no candidate list, however old and unreferenced it is.
    Moreover the round of the loop that meets it ends at the exclusion
    check: it returns, with the candidate lists and the world as they
    were, whatever the creation timestamp of the resource is -- even when
    it has none, which would raise if the age were looked at. *)
Theorem excluded_never_candidate (w : World) (patterns : list string)
    (name : string) :
  configured_patterns (CONFIG w) patterns →
  let by_pattern := ∃ pattern, pattern ∈ patterns ∧ fnmatch name pattern = true in
  let by_name :=
    startswith name "default-token-" = true ∨ endswith name "-token" = true in
  (∀ ns unused w',
     get_unused_resources ns w = (Ok unused, w') →
     (by_pattern →
      (name ∉ unused_secrets unused) ∧ (name ∉ unused_configmaps unused))
     ∧ (by_name → name ∉ unused_secrets unused)
     ∧ ((∀ s, s ∈ secrets_in ns w → meta_name (secret_metadata s) = name →
              secret_type s ∈ system_secret_types) →
        name ∉ unused_secrets unused))
  ∧ (∀ references cutoff_time u secret,
       meta_name (secret_metadata secret) = name →
       by_pattern ∨ by_name ∨ secret_type secret ∈ system_secret_types →
       check_secret references cutoff_time secret (u, w) = (Ok tt, (u, w)))
  ∧ (∀ references cutoff_time u configmap,
       meta_name (config_map_metadata configmap) = name →
       by_pattern →
       check_configmap references cutoff_time configmap (u, w)
       = (Ok tt, (u, w))).
Proof.
  intros Hconf by_pattern by_name. split; [|split].
  - intros ns unused w' Hrun.
    destruct (candidates_sound ns w unused w' Hrun)
      as (cutoff_time & references & _ & _ & Hsecrets & Hconfigmaps).
    split; [|split].
    + intros Hpat. split; intros Hcand.
      * destruct (Hsecrets name Hcand) as (s & _ & <- & Hex & _).
        rewrite (exclusion_by_pattern _ _ _ _ Hconf Hpat) in Hex.
        discriminate.
      * destruct (Hconfigmaps name Hcand) as (m & _ & <- & Hex & _).
        rewrite (exclusion_by_pattern _ _ _ _ Hconf Hpat) in Hex.
        discriminate.
    + intros Hname Hcand.
      destruct (Hsecrets name Hcand) as (s & _ & <- & Hex & _).
      rewrite (exclusion_by_name _ _ _ Hconf Hname) in Hex. discriminate.
    + intros Htype Hcand.
      destruct (Hsecrets name Hcand) as (s & Hin & Hname & _ & Hty & _).
      specialize (Htype s Hin Hname). apply str_in_elem_of in Htype.
      congruence.
  - intros references cutoff_time u secret Hname Hprot.
    rewrite check_secret_run. cbv zeta. rewrite Hname.
    destruct Hprot as [Hpat|[Hnm|Hty]].
    + now rewrite (exclusion_by_pattern _ _ _ _ Hconf Hpat).
    + now rewrite (exclusion_by_name _ _ _ Hconf Hnm).
    + rewrite (exclusion_configured _ _ _ _ Hconf).
      apply str_in_elem_of in Hty. rewrite Hty. now destruct (_ || _).
  - intros references cutoff_time u configmap Hname Hpat.
    rewrite check_configmap_run. cbv zeta. rewrite Hname.
    now rewrite (exclusion_by_pattern _ _ _ _ Hconf Hpat).
Qed.

End Invariants.

(** C1, witness: the scenario of the specification.  [db-creds] is
    referenced by the Deployment and is not a candidate. *)
Lemma referenced_never_candidate_witness :
  let w := world_of scenario_cluster in
  let references := {| ref_secrets := {["db-creds"]};
                       ref_configmaps := {["app-config"]} |} in
  let unused := {| unused_secrets := ["orphan-secret"];
                   unused_configmaps := ["orphan-cm"] |} in
  (get_resource_references "ns1" w).1 = Ok references
  ∧ (@get_unused_resources sample_library "ns1" w).1 = Ok unused
  ∧ "db-creds" ∈ ref_secrets references
  ∧ "db-creds" ∉ unused_secrets unused.
Proof.
  intros w references unused.
  assert (H1 : (get_resource_references "ns1" w).1 = Ok references)
    by (vm_compute; reflexivity).
  assert (H2 : @get_unused_resources sample_library "ns1" w
               = (Ok unused, (@get_unused_resources sample_library "ns1" w).2))
    by (vm_compute; reflexivity).
  assert (H3 : "db-creds" ∈ ref_secrets references)
    by (unfold references; simpl; now apply elem_of_singleton_2).
  split; [exact H1|]. split; [now rewrite H2|]. split; [exact H3|].
  exact (proj1 (@referenced_never_candidate sample_library "ns1" w _
                  references unused H1 H2) "db-creds" H3).
Defined.

(** C2, witness: a Secret created ten minutes before the clock is read,
    under the default threshold of one hour. *)
Lemma young_never_candidate_witness :
  let w := world_of
             (with_secrets
                [opaque_secret "fresh" "ns1"
                   (Some {| wall_clock := noon - 600000000;
                            tzinfo := Some timezone_utc |})]
                empty_cluster) in
  (@get_unused_resources sample_library "ns1" w).1 = Ok no_unused
  ∧ "fresh" ∉ unused_secrets no_unused.
Proof.
  intros w.
  assert (H1 : @get_unused_resources sample_library "ns1" w
               = (Ok no_unused,
                  (@get_unused_resources sample_library "ns1" w).2))
    by (vm_compute; reflexivity).
  split; [now rewrite H1|].
  refine (proj1 (@young_never_candidate sample_library "ns1" w _ no_unused 1
                   "fresh" H1 eq_refl) _).
  intros s t Hin Hname Hts.
  apply list_elem_of_In in Hin. destruct Hin as [<-|[]].
  injection Hts as <-. vm_compute. reflexivity.
Defined.

(** C3, witness: the ConfigMap [kube-root-ca.crt] of the scenario matches
    the default pattern [kube-*]. *)
Lemma excluded_never_candidate_witness :
  let w := world_of scenario_cluster in
  let unused := {| unused_secrets := ["orphan-secret"];
                   unused_configmaps := ["orphan-cm"] |} in
  configured_patterns (CONFIG w) ["kube-*"; "default-token-*"]
  ∧ (@get_unused_resources sample_library "ns1" w).1 = Ok unused
  ∧ "kube-root-ca.crt" ∉ unused_configmaps unused.
Proof.
  intros w unused.
  assert (H0 : configured_patterns (CONFIG w) ["kube-*"; "default-token-*"])
    by (exists (VList ["kube-*"; "default-token-*"]); split; reflexivity).
  assert (H1 : @get_unused_resources sample_library "ns1" w
               = (Ok unused, (@get_unused_resources sample_library "ns1" w).2))
    by (vm_compute; reflexivity).
  split; [exact H0|]. split; [now rewrite H1|].
  refine (proj2 (proj1 (proj1 (@excluded_never_candidate sample_library w _
                                 "kube-root-ca.crt" H0) "ns1" unused _ H1)
                   _)).
  exists "kube-*". split; [now left|reflexivity].
Defined.

Section Execution.
Context `{PythonLibrary}.

(** C4, as amended.  From the same world, with [CONFIG['dry_run']] true or
    false, the classification returns the same candidate lists.  The
    dry-run call of [cleanup_namespace] sends no delete request, leaves the
    cluster as it is and returns the lengths of the two lists.  The live
    call sends one delete request per candidate and returns, for each
    kind, the number of candidates less the number of failed deletions it
    logged: the counts of the two modes are equal exactly when no delete
    request fails. *)
Theorem dry_run_and_live_agree_up_to_failures (ns : string) (w : World) :
  let dry := with_dry_run true w in
  let live := with_dry_run false w in
  (get_unused_resources ns dry).1 = (get_unused_resources ns live).1
  ∧ ∀ unused,
      (get_unused_resources ns dry).1 = Ok unused →
      (∃ w_dry new,
         cleanup_namespace ns dry
         = (Ok {| secrets_deleted := Z.of_nat (length (unused_secrets unused));
                  configmaps_deleted :=
                    Z.of_nat (length (unused_configmaps unused)) |}, w_dry)
         ∧ events w_dry = events w ++ new
         ∧ delete_calls new = []
         ∧ cluster w_dry = cluster w)
      ∧ (∃ results w_live new,
           cleanup_namespace ns live = (Ok results, w_live)
           ∧ events w_live = events w ++ new
           ∧ delete_calls new
             = map (λ n, DeleteNamespacedSecret n ns) (unused_secrets unused)
               ++ map (λ n, DeleteNamespacedConfigMap n ns)
                    (unused_configmaps unused)
           ∧ secrets_deleted results
             = Z.of_nat (length (unused_secrets unused))
               - count failed_secret new
           ∧ configmaps_deleted results
             = Z.of_nat (length (unused_configmaps unused))
               - count failed_configmap new).
Proof.
  intros dry live.
  destruct (det_get_unused_resources ns dry live (alike_with_dry_run _ _ w))
    as [Hsame _].
  split; [exact Hsame|]. intros unused Hdry. split.
  - destruct (cleanup_namespace_run ns dry (VBool true) unused)
      as (results & w' & new & Hrun & Hev & _ & Hsd & Hcd & Hmode).
    { apply lookup_insert_eq. }
    { exact Hdry. }
    simpl in Hmode. destruct Hmode as (Hcl & Hdc & Hfs & Hfc).
    exists w', new. rewrite Hrun. repeat split; try assumption.
    do 2 f_equal. destruct results. simpl in *. f_equal; lia.
  - destruct (cleanup_namespace_run ns live (VBool false) unused)
      as (results & w' & new & Hrun & Hev & _ & Hsd & Hcd & Hmode).
    { apply lookup_insert_eq. }
    { now rewrite <- Hsame. }
    exists results, w', new. repeat split; assumption.
Qed.

(** C5, as amended.  Given the candidate lists and the world at the time
    of deletion, the executor returns: no failed deletion makes it raise.
    In live mode it sends one delete request per candidate, in order,
    whatever the outcome of the earlier ones, and a candidate that is no
    longer in the cluster is logged as a failed deletion; the counts it
    returns are the numbers of candidates less the failed deletions, that
    is the numbers of delete requests that succeeded.  In dry-run mode it
    sends no request and counts every candidate. *)
Theorem executor_counts_successful_deletions (ns : string) (unused : Unused)
    (w : World) (v : value) :
  CONFIG w !! "dry_run" = Some v →
  ∃ results w' new,
    delete_unused ns unused w = (Ok results, w')
    ∧ events w'
      = events w ++ new
        ++ [Logged INFO (CleanupCompleted ns (secrets_deleted results)
                           (configmaps_deleted results))]
    ∧ secrets_deleted results
      = Z.of_nat (length (unused_secrets unused)) - count failed_secret new
    ∧ configmaps_deleted results
      = Z.of_nat (length (unused_configmaps unused))
        - count failed_configmap new
    ∧ (if truthy v
       then cluster w' = cluster w ∧ delete_calls new = []
            ∧ count failed_secret new = 0 ∧ count failed_configmap new = 0
       else delete_calls new
            = map (λ n, DeleteNamespacedSecret n ns) (unused_secrets unused)
              ++ map (λ n, DeleteNamespacedConfigMap n ns)
                   (unused_configmaps unused)
            ∧ (∀ name, name ∈ unused_secrets unused →
                 secret_exists name ns (cluster w) = false →
                 ∃ e, Logged ERROR (FailedToDeleteSecret ns name e) ∈ new)
            ∧ (∀ name, name ∈ unused_configmaps unused →
                 config_map_exists name ns (cluster w) = false →
                 ∃ e, Logged ERROR (FailedToDeleteConfigMap ns name e) ∈ new)).
Proof. apply delete_unused_run. Qed.

End Execution.

(** C4, counterexample to the claim as stated.  The server forbids the
    operator to delete Secrets.  From the same world the dry-run call
    returns one Secret and one ConfigMap deleted, the live call no Secret
    and one ConfigMap. *)
Lemma dry_run_and_live_counts_differ_counterexample :
  let w := set_api_faults secrets_protected (world_of scenario_cluster) in
  (@cleanup_namespace sample_library "ns1" (with_dry_run true w)).1
  = Ok {| secrets_deleted := 1; configmaps_deleted := 1 |}
  ∧ (@cleanup_namespace sample_library "ns1" (with_dry_run false w)).1
    = Ok {| secrets_deleted := 0; configmaps_deleted := 1 |}
  ∧ (@cleanup_namespace sample_library "ns1" (with_dry_run true w)).1
    ≠ (@cleanup_namespace sample_library "ns1" (with_dry_run false w)).1.
Proof. simpl. repeat split; now vm_compute. Qed.

(** C4, witness: the scenario of the specification. *)
Lemma dry_run_and_live_agree_up_to_failures_witness :
  let w := world_of scenario_cluster in
  (@get_unused_resources sample_library "ns1" (with_dry_run true w)).1
  = Ok scenario_unused
  ∧ ∃ w_dry new,
      @cleanup_namespace sample_library "ns1" (with_dry_run true w)
      = (Ok {| secrets_deleted := 1; configmaps_deleted := 1 |}, w_dry)
      ∧ events w_dry = events w ++ new
      ∧ delete_calls new = []
      ∧ cluster w_dry = cluster w.
Proof.
  intros w.
  assert (H1 : (@get_unused_resources sample_library "ns1"
                  (with_dry_run true w)).1 = Ok scenario_unused)
    by (vm_compute; reflexivity).
  split; [exact H1|].
  exact (proj1 (proj2 (@dry_run_and_live_agree_up_to_failures sample_library
                         "ns1" w) scenario_unused H1)).
Defined.

(** C5, counterexample to the claim as stated.  [orphan-secret] is a
    candidate of the scenario; another actor removes it before the
    executor runs.  The executor does not take the deletion for done: it
    logs a failed deletion (the API answers 404) and counts no Secret. *)
Lemma disappeared_candidate_counterexample :
  let w := world_of scenario_cluster in
  let w_gone :=
    set_cluster (without_secret "orphan-secret" "ns1" (cluster w)) w in
  (@get_unused_resources sample_library "ns1" w).1 = Ok scenario_unused
  ∧ (delete_unused "ns1" scenario_unused w_gone).1
    = Ok {| secrets_deleted := 0; configmaps_deleted := 1 |}
  ∧ events (delete_unused "ns1" scenario_unused w_gone).2
    = [ Called (DeleteNamespacedSecret "orphan-secret" "ns1");
        Logged ERROR
          (FailedToDeleteSecret "ns1" "orphan-secret" (ApiException 404));
        Called (DeleteNamespacedConfigMap "orphan-cm" "ns1");
        Logged INFO (DeletedConfigMap "ns1" "orphan-cm");
        Logged INFO (CleanupCompleted "ns1" 0 1) ].
Proof. simpl. repeat split; now vm_compute. Qed.

(** C5, witness: the executor in the world where [orphan-secret] is gone. *)
Lemma executor_counts_successful_deletions_witness :
  let w := set_cluster
             (without_secret "orphan-secret" "ns1" scenario_cluster)
             (world_of scenario_cluster) in
  CONFIG w !! "dry_run" = Some (VBool false)
  ∧ ∃ results w' new,
      delete_unused "ns1" scenario_unused w = (Ok results, w')
      ∧ secrets_deleted results = 1 - count failed_secret new
      ∧ ∃ e, Logged ERROR (FailedToDeleteSecret "ns1" "orphan-secret" e) ∈ new.
Proof.
  intros w.
  assert (H1 : CONFIG w !! "dry_run" = Some (VBool false)) by reflexivity.
  split; [exact H1|].
  destruct (executor_counts_successful_deletions "ns1" scenario_unused w
              (VBool false) H1)
    as (results & w' & new & Hrun & _ & Hsd & _ & _ & Hgone & _).
  exists results, w', new. split; [exact Hrun|]. split; [exact Hsd|].
  apply Hgone; [now left|reflexivity].
Defined.

Section Failures.
Context `{PythonLibrary}.

(** C9.  Let the cutoff be computed, so that the classification is
    reached.  If listing the Secrets fails, [get_unused_resources] returns
    two empty lists, the failure is logged, and [cleanup_namespace] sends no
    delete request and leaves the cluster as it is.  If listing the
    ConfigMaps fails after the Secrets have been checked (their checks
    raise nothing: the exclusion patterns can be read and every Secret has
    its creation timestamp), it returns the unused Secrets found so far and
    no ConfigMap.  In no case does an [ApiException] escape. *)
Theorem listing_failure_returns_partial_lists (ns : string) (w : World)
    (cutoff_time : datetime) (references : References) :
  cutoff_of w = Ok cutoff_time →
  (get_resource_references ns w).1 = Ok references →
  (∀ status,
     api_faults w (ListNamespacedSecret ns) = Some status →
     (∃ w', get_unused_resources ns w = (Ok no_unused, w')
            ∧ last (events w')
              = Some (Logged ERROR
                        (ErrorGettingUnused ns (ApiException status))))
     ∧ ∃ w' new,
         cleanup_namespace ns w = (Ok no_results, w')
         ∧ events w' = events w ++ new
         ∧ delete_calls new = []
         ∧ cluster w' = cluster w)
  ∧ (∀ status patterns,
       api_faults w (ListNamespacedSecret ns) = None →
       api_faults w (ListNamespacedConfigMap ns) = Some status →
       configured_patterns (CONFIG w) patterns →
       (∀ s, s ∈ secrets_in ns w →
             creation_timestamp (secret_metadata s) ≠ None) →
       ∃ unused w',
         get_unused_resources ns w = (Ok unused, w')
         ∧ unused_configmaps unused = []
         ∧ (∀ name, name ∈ unused_secrets unused ↔
              ∃ s, s ∈ secrets_in ns w ∧ meta_name (secret_metadata s) = name
                   ∧ eligible_secret (CONFIG w) references cutoff_time s)
         ∧ last (events w')
           = Some (Logged ERROR
                     (ErrorGettingUnused ns (ApiException status))))
  ∧ (∀ res w' e,
       get_unused_resources ns w = (res, w') → res = Raise e →
       is_ApiException e = false).
Proof.
  intros Hcut Href. split; [|split].
  - intros status Hfault. split.
    + destruct (secrets_listing_fails ns w cutoff_time status Hcut Hfault)
        as (w' & Hrun & Hlast & _). now exists w'.
    + rewrite cleanup_namespace_unfold.
      destruct (secrets_listing_fails ns
                  (logged INFO (StartingCleanup ns) w) cutoff_time status
                  Hcut Hfault)
        as (w1 & Hrun & _ & Hset & (q & Hq & Hquiet)).
      rewrite Hrun.
      exists (logged INFO (CleanupCompleted ns 0 0) w1),
        (Logged INFO (StartingCleanup ns)
         :: q ++ [Logged INFO (CleanupCompleted ns 0 0)]).
      split; [reflexivity|]. simpl.
      split; [rewrite Hq; simpl; now rewrite <- !app_assoc|].
      split.
      * rewrite delete_calls_app, (quiet_delete_calls q Hquiet).
        reflexivity.
      * unfold setting in Hset. now injection Hset as ->.
  - intros status patterns Hf1 Hf2 Hconf Hts.
    eapply config_maps_listing_fails; eauto.
  - intros res w' e. apply get_unused_resources_raises.
Qed.

End Failures.

(** C9, witness: the scenario of the specification on a server that fails
    to list the Secrets, and on one that fails to list the ConfigMaps. *)
Lemma listing_failure_returns_partial_lists_witness :
  (let w := set_api_faults secrets_unavailable (world_of scenario_cluster) in
   cutoff_of w = Ok scenario_cutoff
   ∧ (get_resource_references "ns1" w).1 = Ok scenario_references
   ∧ ∃ w', @get_unused_resources sample_library "ns1" w = (Ok no_unused, w'))
  ∧ (let w :=
       set_api_faults config_maps_unavailable (world_of scenario_cluster) in
     cutoff_of w = Ok scenario_cutoff
     ∧ (get_resource_references "ns1" w).1 = Ok scenario_references
     ∧ ∃ unused w',
         @get_unused_resources sample_library "ns1" w = (Ok unused, w')
         ∧ unused_configmaps unused = []).
Proof.
  split.
  - intros w.
    assert (H1 : cutoff_of w = Ok scenario_cutoff) by (vm_compute; reflexivity).
    assert (H2 : (get_resource_references "ns1" w).1 = Ok scenario_references)
      by (vm_compute; reflexivity).
    split; [exact H1|]. split; [exact H2|].
    destruct (proj1 (@listing_failure_returns_partial_lists sample_library
                       "ns1" w scenario_cutoff scenario_references H1 H2)
                500 eq_refl) as [(w' & Hrun & _) _].
    now exists w'.
  - intros w.
    assert (H1 : cutoff_of w = Ok scenario_cutoff) by (vm_compute; reflexivity).
    assert (H2 : (get_resource_references "ns1" w).1 = Ok scenario_references)
      by (vm_compute; reflexivity).
    split; [exact H1|]. split; [exact H2|].
    destruct (proj1 (proj2 (@listing_failure_returns_partial_lists
                              sample_library "ns1" w scenario_cutoff
                              scenario_references H1 H2))
                500 ["kube-*"; "default-token-*"] eq_refl eq_refl)
      as (unused & w' & Hrun & Hcm & _).
    + exists (VList ["kube-*"; "default-token-*"]). now split.
    + intros s Hin. apply list_elem_of_In in Hin.
      destruct Hin as [<-|[<-|[]]]; discriminate.
    + now exists unused, w'.
Defined.

Section Cutoff.
Context `{PythonLibrary}.

(** C7, as amended.  Every call of [get_unused_resources] -- one per
    namespace of a cycle -- reads the clock exactly once.  The cutoff it
    computes from that reading is in UTC, every creation timestamp is
    compared with it as a UTC reading, and the lists returned hold the
    names of resources eligible against that one cutoff: of all of them
    when both listings succeed.  A cycle of a started operator reads the
    clock once per configured namespace, so that the namespaces of one
    cycle are classified against one cutoff each. *)
Theorem cutoff_computed_once_per_namespace :
  (∀ ns w, clock_reads (get_unused_resources ns w).2 = S (clock_reads w))
  ∧ (∀ ns w unused w',
       get_unused_resources ns w = (Ok unused, w') →
       ∃ cutoff_time references,
         cutoff_of w = Ok cutoff_time
         ∧ tzinfo cutoff_time = Some timezone_utc
         ∧ (∀ t, datetime_lt (replace_tzinfo t timezone_utc) cutoff_time
                 = Ok (wall_clock t <? wall_clock cutoff_time))
         ∧ (get_resource_references ns w).1 = Ok references
         ∧ (∀ name, name ∈ unused_secrets unused →
              ∃ s, s ∈ secrets_in ns w
                   ∧ meta_name (secret_metadata s) = name
                   ∧ eligible_secret (CONFIG w) references cutoff_time s)
         ∧ (∀ name, name ∈ unused_configmaps unused →
              ∃ m, m ∈ config_maps_in ns w
                   ∧ meta_name (config_map_metadata m) = name
                   ∧ eligible_configmap (CONFIG w) references cutoff_time m)
         ∧ (api_faults w (ListNamespacedSecret ns) = None →
            ∀ s, s ∈ secrets_in ns w →
                 eligible_secret (CONFIG w) references cutoff_time s →
                 meta_name (secret_metadata s) ∈ unused_secrets unused)
         ∧ (api_faults w (ListNamespacedSecret ns) = None →
            api_faults w (ListNamespacedConfigMap ns) = None →
            ∀ m, m ∈ config_maps_in ns w →
                 eligible_configmap (CONFIG w) references cutoff_time m →
                 meta_name (config_map_metadata m) ∈ unused_configmaps unused))
  ∧ (∀ w namespaces,
       cleanup_handler w = true →
       configured_namespaces (CONFIG w) namespaces →
       clock_reads (perform_cleanup w).2
       = (clock_reads w + length namespaces)%nat).
Proof.
  split; [|split].
  - intros ns w.
    destruct (get_unused_resources_run ns w) as (res & w' & Hrun & Hreads & _).
    now rewrite Hrun.
  - intros ns w unused w' Hrun.
    destruct (candidates_sound ns w unused w' Hrun)
      as (cutoff_time & references & Hcut & Href & Hsecrets & Hconfigmaps).
    pose proof (cutoff_of_utc w cutoff_time Hcut) as Hutc.
    exists cutoff_time, references.
    split; [exact Hcut|]. split; [exact Hutc|].
    split; [intros t; now apply datetime_lt_utc|].
    split; [exact Href|]. split; [exact Hsecrets|].
    split; [exact Hconfigmaps|].
    split.
    + intros Hf1.
      now apply (candidates_complete ns w unused w' cutoff_time references).
    + intros Hf1 Hf2.
      now apply (candidates_complete ns w unused w' cutoff_time references).
  - intros w namespaces Hhandler (v & Hv & Hiter).
    destruct (perform_cleanup_run w Hhandler)
      as (res & w' & cycle & Hrun & _ & _ & _ & Hc).
    rewrite Hv, Hiter in Hc. rewrite Hrun. apply Hc.
Qed.

End Cutoff.

(** C7, counterexample to the claim as stated.  Two namespaces are
    configured; the clock advances by two hours between its first and its
    second reading.  The cycle reads the clock twice, and of two
    unreferenced Secrets with the same creation timestamp, half an hour
    before the first reading, it keeps the one of the first namespace and
    deletes the one of the second: they were not classified against the
    same cutoff. *)
Lemma cutoff_differs_between_namespaces_counterexample :
  let w := two_namespaces_world in
  let w' := (@perform_cleanup sample_library w).2 in
  secrets (cluster w)
  = [ opaque_secret "first" "ns1" half_past_eleven;
      opaque_secret "second" "ns2" half_past_eleven ]
  ∧ clock_reads w = 0%nat
  ∧ clock_reads w' = 2%nat
  ∧ secrets (cluster w') = [ opaque_secret "first" "ns1" half_past_eleven ].
Proof. simpl. repeat split; now vm_compute. Qed.

(** C7, witness: the cycle over the two namespaces. *)
Lemma cutoff_computed_once_per_namespace_witness :
  let w := two_namespaces_world in
  cleanup_handler w = true
  ∧ configured_namespaces (CONFIG w) ["ns1"; "ns2"]
  ∧ clock_reads (@perform_cleanup sample_library w).2
    = (clock_reads w + 2)%nat.
Proof.
  intros w.
  assert (H1 : cleanup_handler w = true) by reflexivity.
  assert (H2 : configured_namespaces (CONFIG w) ["ns1"; "ns2"])
    by (exists (VList ["ns1"; "ns2"]); split; reflexivity).
  split; [exact H1|]. split; [exact H2|].
  exact (proj2 (proj2 (@cutoff_computed_once_per_namespace sample_library))
           w ["ns1"; "ns2"] H1 H2).
Defined.

Section Reload.
Context `{PythonLibrary}.

(** C10, as amended.  [load_config] always returns, and so does the reload
    handler.  It never loses a key of [CONFIG].  An option keeps its
    previous value when it is neither a key of the loaded document nor
    overridden by an environment variable that is set.  When the loaded
    document is a mapping, the options that are not overridden are those
    of the document merged over the previous configuration.  The handler
    of a change of the configuration object changes [CONFIG] within the
    same bounds. *)
Theorem reload_merges_document w :
  let w' := (load_config w).2 in
  (load_config w).1 = Ok tt
  ∧ dom (CONFIG w) ⊆ dom (CONFIG w')
  ∧ (∀ key, key ∉ loaded_keys w → key ∉ overridden w →
       CONFIG w' !! key = CONFIG w !! key)
  ∧ (∀ m key, loaded_document w = Some (YamlMapping m) →
       key ∉ overridden w →
       CONFIG w' !! key = (m ∪ CONFIG w) !! key)
  ∧ (∀ event_type,
       let w'' := (config_change_handler event_type w).2 in
       (config_change_handler event_type w).1 = Ok tt
       ∧ dom (CONFIG w) ⊆ dom (CONFIG w'')
       ∧ ∀ key, key ∉ loaded_keys w → key ∉ overridden w →
           CONFIG w'' !! key = CONFIG w !! key).
Proof.
  pose proof (load_config_reconfigured w) as (_ & Hdom & Hkeys).
  split; [apply load_config_returns|]. split; [exact Hdom|].
  split; [|split].
  - intros key Hdoc Henv. apply Hkeys. now apply not_elem_of_union.
  - intros m key Hdoc Henv.
    destruct (in_cluster w) eqn:Hin.
    2:{ unfold loaded_document in Hdoc. now rewrite Hin in Hdoc. }
    rewrite <- (load_from_config_map_mapping w m Hdoc).
    now apply (load_config_after_document w Hin).
  - intros event_type. cbv zeta. unfold config_change_handler, when.
    destruct (str_in event_type ["ADDED"; "MODIFIED"]).
    2:{ simpl. auto. }
    pose (w0 := logged INFO ConfigurationChanged w).
    change ((logger_info ConfigurationChanged ;;
             load_config ;;
             config <- (λ w1, (Ok (CONFIG w1), w1)) ;;
             logger_info (NewConfiguration config))%py w)
      with ((load_config ;;
             config <- (λ w1, (Ok (CONFIG w1), w1)) ;;
             logger_info (NewConfiguration config))%py w0).
    pose proof (load_config_reconfigured w0) as (_ & Hdom0 & Hkeys0).
    pose proof (load_config_returns w0) as Hret.
    unfold bind.
    destruct (load_config w0) as [[[]|e] w1]; [|discriminate].
    simpl in Hdom0, Hkeys0 |- *.
    split; [reflexivity|]. split; [exact Hdom0|].
    intros key Hdoc Henv. apply Hkeys0.
    change (key ∉ loaded_keys w ∪ overridden w).
    now apply not_elem_of_union.
Qed.

End Reload.

(** C10, counterexample to the claim as stated.  The operator starts with
    [DRY_RUN=true] in its environment while the document of its
    configuration object does not parse: the start-up load stops at the
    parse error and leaves [dry_run] at [False].  The document is then
    replaced by [unused_threshold_hours: 2], which does not mention
    [dry_run]; the reload that follows sets [dry_run] to [True]. *)
Lemma reload_changes_absent_option_counterexample :
  let started := (@load_config sample_library world_before_startup).2 in
  let edited :=
    set_cluster
      (cluster_with_configuration "unused_threshold_hours: 2" None) started in
  let reloaded := (@config_change_handler sample_library "MODIFIED" edited).2 in
  CONFIG started !! "dry_run" = Some (VBool false)
  ∧ @loaded_document sample_library edited
    = Some (YamlMapping {[ "unused_threshold_hours" := VInt 2 ]})
  ∧ CONFIG edited !! "dry_run" = Some (VBool false)
  ∧ CONFIG reloaded !! "dry_run" = Some (VBool true)
  ∧ CONFIG reloaded !! "unused_threshold_hours" = Some (VInt 2).
Proof. simpl. repeat split; now vm_compute. Qed.

(** C10, witness: the operator of the scenario reloads a document that
    sets the threshold only; [dry_run] is not overridden and keeps its
    value, and the threshold is the one of the document. *)
Lemma reload_merges_document_witness :
  let w := world_of
             (cluster_with_configuration "unused_threshold_hours: 2" None) in
  let w' := (@load_config sample_library w).2 in
  ("dry_run" ∉ @loaded_keys sample_library w)
  ∧ ("dry_run" ∉ overridden w)
  ∧ CONFIG w' !! "dry_run" = CONFIG w !! "dry_run"
  ∧ @loaded_document sample_library w
    = Some (YamlMapping {[ "unused_threshold_hours" := VInt 2 ]})
  ∧ ("unused_threshold_hours" ∉ overridden w)
  ∧ CONFIG w' !! "unused_threshold_hours" = Some (VInt 2).
Proof.
  intros w w'.
  assert (H1 : "dry_run" ∉ @loaded_keys sample_library w)
    by (apply (bool_decide_unpack _); now vm_compute).
  assert (H2 : "dry_run" ∉ overridden w)
    by (apply (bool_decide_unpack _); now vm_compute).
  assert (H3 : @loaded_document sample_library w
               = Some (YamlMapping {[ "unused_threshold_hours" := VInt 2 ]}))
    by reflexivity.
  assert (H4 : "unused_threshold_hours" ∉ overridden w)
    by (apply (bool_decide_unpack _); now vm_compute).
  destruct (@reload_merges_document sample_library w)
    as (_ & _ & Hkeep & Hmerge & _).
  split; [exact H1|]. split; [exact H2|].
  split; [exact (Hkeep "dry_run" H1 H2)|].
  split; [exact H3|]. split; [exact H4|].
  exact (Hmerge _ "unused_threshold_hours" H3 H4).
Defined.

Section Trigger.
Context `{PythonLibrary}.

(** C8.  In a started operator, an update of the configuration object
    whose annotation [cleanup.operator/trigger] is [now] starts exactly one
    cleanup cycle.  No patch request is made during the cycle.  When the
    cycle raises, the handler raises with it and makes no request
    afterwards.  When the cycle returns, its last record is the one of its
    completion; the removal follows: the object is read and, when it has
    annotations, patched with the trigger annotation popped.  The handler
    then returns, and when the removal raised, its failure is the record
    logged last. *)
Theorem manual_trigger_runs_one_cycle old new w :
  default ∅ new !! trigger_annotation = Some "now" →
  cleanup_handler w = true →
  let w0 := logged INFO ManualCleanupTriggered w in
  let w1 := (perform_cleanup w0).2 in
  let w2 := (remove_trigger_annotation w1).2 in
  let w' := (manual_trigger_handler old new w).2 in
  (∃ cycle,
     events w1 = events w0 ++ Logged INFO StartingCycle :: cycle
     ∧ count is_cycle_start cycle = 0
     ∧ count is_patch_call cycle = 0)
  ∧ count is_cycle_start (events w') = count is_cycle_start (events w) + 1
  ∧ match (perform_cleanup w0).1 with
    | Raise e => manual_trigger_handler old new w = (Raise e, w1)
    | Ok _ =>
        (∃ s c, last (events w1) = Some (Logged INFO (CycleCompleted s c)))
        ∧ (∀ config_map,
             read_configuration w1 = Ok config_map →
             default ∅ (annotations (config_map_metadata config_map)) ≠ ∅ →
             events w2
             = events w1
               ++ [ Called (ReadNamespacedConfigMap
                              "cleanup-operator-config" "cleanup-system");
                    Called (PatchNamespacedConfigMap
                              "cleanup-operator-config" "cleanup-system"
                              (pop_trigger config_map)) ])
        ∧ manual_trigger_handler old new w
          = match (remove_trigger_annotation w1).1 with
            | Ok _ => (Ok tt, w2)
            | Raise e =>
                (Ok tt, logged ERROR (FailedToRemoveAnnotation e) w2)
            end
    end.
Proof.
  intros Htrigger Hhandler. cbv zeta.
  rewrite (manual_trigger_handler_unfold old new w Htrigger).
  set (w0 := logged INFO ManualCleanupTriggered w).
  destruct (perform_cleanup_run w0 Hhandler)
    as (res & w1 & cycle & Hrun & Hev & Hcycle & _ & Hc).
  rewrite Hrun. cbn [fst snd].
  destruct (within_cycle_count cycle Hcycle) as [Hstarts Hpatches].
  pose proof (remove_trigger_annotation_extends w1) as (calls & Hcalls & Hquiet).
  assert (Hcount : count is_cycle_start (events w1)
                   = count is_cycle_start (events w) + 1).
  { rewrite Hev. unfold w0. simpl.
    rewrite !count_app, !count_cons, count_nil, Hstarts. simpl. lia. }
  split; [now exists cycle|].
  destruct res as [[]|e]; [|now split].
  assert (Hlast : ∃ s c,
            last (events w1) = Some (Logged INFO (CycleCompleted s c))).
  { destruct (CONFIG w0 !! "namespaces") as [v|]; [|discriminate].
    destruct (iterate v); [|discriminate].
    destruct Hc as (_ & _ & s & c & Hlast). exists s, c.
    now rewrite Hev, last_app, last_cons, Hlast. }
  assert (Hpatch : ∀ config_map,
            read_configuration w1 = Ok config_map →
            default ∅ (annotations (config_map_metadata config_map)) ≠ ∅ →
            events (remove_trigger_annotation w1).2
            = events w1
              ++ [ Called (ReadNamespacedConfigMap
                             "cleanup-operator-config" "cleanup-system");
                   Called (PatchNamespacedConfigMap
                             "cleanup-operator-config" "cleanup-system"
                             (pop_trigger config_map)) ])
    by (intros config_map; apply remove_trigger_annotation_run).
  destruct (remove_trigger_annotation w1) as [[[]|e] w2];
    cbn [fst snd] in Hcalls, Hpatch |- *.
  - split; [|now repeat split].
    rewrite Hcalls, count_app, Hcount, (no_cycle_start_count _ Hquiet). lia.
  - split; [|now repeat split].
    simpl. rewrite count_app, count_cons, count_nil.
    rewrite Hcalls, count_app, Hcount, (no_cycle_start_count _ Hquiet).
    simpl. lia.
Qed.

End Trigger.

(** C8, witness: the update that sets the annotation on the configuration
    object of a started operator. *)
Lemma manual_trigger_runs_one_cycle_witness :
  let w := triggered_world in
  let new := Some {[ trigger_annotation := "now" ]} in
  let w' := (@manual_trigger_handler sample_library None new w).2 in
  default ∅ new !! trigger_annotation = Some "now"
  ∧ cleanup_handler w = true
  ∧ count is_cycle_start (events w') = count is_cycle_start (events w) + 1.
Proof.
  intros w new w'.
  assert (H1 : default ∅ new !! trigger_annotation = Some "now")
    by reflexivity.
  assert (H2 : cleanup_handler w = true) by reflexivity.
  split; [exact H1|]. split; [exact H2|].
  exact (proj1 (proj2 (@manual_trigger_runs_one_cycle sample_library
                         None new w H1 H2))).
Defined.

(** The trace of that update: the cycle over the namespace [default], then
    the read and the patch; the annotation is gone from the stored object
    when the server stores the body of the patch. *)
Example manual_trigger_trace :
  let w := triggered_world in
  let new := Some {[ trigger_annotation := "now" ]} in
  let run := @manual_trigger_handler sample_library None new w in
  run.1 = Ok tt
  ∧ events run.2
    = [ Logged INFO ManualCleanupTriggered;
        Logged INFO StartingCycle;
        Logged INFO (StartingCleanup "default");
        Called (ListNamespacedPod "default");
        Called (ListNamespacedDeployment "default");
        Called (ListNamespacedDaemonSet "default");
        Called (ListNamespacedStatefulSet "default");
        Called (ListNamespacedSecret "default");
        Called (ListNamespacedConfigMap "default");
        Logged INFO (CleanupCompleted "default" 0 0);
        Logged INFO (CycleCompleted 0 0);
        Called (ReadNamespacedConfigMap
                  "cleanup-operator-config" "cleanup-system");
        Called (PatchNamespacedConfigMap
                  "cleanup-operator-config" "cleanup-system"
                  (operator_config_map "unused_threshold_hours: 2"
                     (Some ∅))) ]
  ∧ config_maps (cluster run.2)
    = [operator_config_map "unused_threshold_hours: 2" (Some ∅)].
Proof. simpl. repeat split; now vm_compute. Qed.

(** When the server refuses the patch, the handler logs the failure and
    returns; the annotation stays on the object. *)
Example manual_trigger_removal_fails :
  let w := set_api_faults patch_conflicts triggered_world in
  let new := Some {[ trigger_annotation := "now" ]} in
  let run := @manual_trigger_handler sample_library None new w in
  run.1 = Ok tt
  ∧ last (events run.2)
    = Some (Logged ERROR (FailedToRemoveAnnotation (ApiException 409)))
  ∧ config_maps (cluster run.2) = config_maps (cluster w).
Proof. simpl. repeat split; now vm_compute. Qed.

(** * Further properties of the code *)

Section Classifier.
Context `{PythonLibrary}.

(** X1.  Collecting the references and classifying the resources only
    read: whether they return or raise, [get_resource_references] and
    [get_unused_resources] leave the cluster, [CONFIG] and everything else
    but the trace and the count of clock readings as they were, and send
    neither a delete nor a patch request. *)
Theorem classification_is_read_only (ns : string) (w : World) :
  (let w' := (get_resource_references ns w).2 in
   setting w' = setting w
   ∧ clock_reads w' = clock_reads w
   ∧ extends read_only w w')
  ∧ (let w' := (get_unused_resources ns w).2 in
     setting w' = setting w ∧ extends read_only w w').
Proof.
  split.
  - split; [|split].
    + apply (get_resource_references_preserves (keeps setting) ns w).
    + apply (get_resource_references_preserves (keeps clock_reads) ns w).
    + apply (extends_weaken quiet); [apply quiet_read_only|].
      apply (@get_resource_references_preserves (extends quiet) quiet_framed).
  - destruct (get_unused_resources_run ns w)
      as (res & w' & Hrun & _ & Hset & Hext & _).
    rewrite Hrun. split; [exact Hset|].
    apply (extends_weaken quiet); [apply quiet_read_only|exact Hext].
Qed.

(** X2.  When listing the Pods of the namespace fails, the reference set
    is empty, whatever the Deployments, DaemonSets and StatefulSets
    reference.  The classification still runs: every Secret that is not
    excluded, not of a system type and older than the cutoff is then a
    candidate, and so is every such ConfigMap, referenced or not. *)
Theorem failed_pod_listing_empties_references (ns : string) (w : World)
    (status : Z) :
  api_faults w (ListNamespacedPod ns) = Some status →
  (get_resource_references ns w).1 = Ok no_references
  ∧ ∀ unused w' cutoff_time,
      get_unused_resources ns w = (Ok unused, w') →
      cutoff_of w = Ok cutoff_time →
      api_faults w (ListNamespacedSecret ns) = None →
      (∀ s, s ∈ secrets_in ns w →
            exclusion (CONFIG w) (meta_name (secret_metadata s)) "secret"
            = Ok false →
            str_in (secret_type s) system_secret_types = false →
            older_than cutoff_time (creation_timestamp (secret_metadata s)) →
            meta_name (secret_metadata s) ∈ unused_secrets unused)
      ∧ (api_faults w (ListNamespacedConfigMap ns) = None →
         ∀ m, m ∈ config_maps_in ns w →
              exclusion (CONFIG w) (meta_name (config_map_metadata m))
                "configmap" = Ok false →
              older_than cutoff_time
                (creation_timestamp (config_map_metadata m)) →
              meta_name (config_map_metadata m) ∈ unused_configmaps unused).
Proof.
  intros Hfault.
  pose proof (first_listing_fails ns w status Hfault) as Href.
  split; [exact Href|].
  intros unused w' cutoff_time Hrun Hcut Hsecrets.
  destruct (candidates_complete ns w unused w' cutoff_time no_references
              Hrun Hcut Href Hsecrets) as [Hs Hm].
  split.
  - intros s Hin Hex Hty Hold. apply Hs; [exact Hin|].
    repeat split; try assumption. simpl. apply not_elem_of_empty.
  - intros Hconfigmaps m Hin Hex Hold. apply Hm; [assumption..|].
    repeat split; try assumption. simpl. apply not_elem_of_empty.
Qed.


End Classifier.

(** X2, witness: the scenario on a server that fails to list the Pods.
    [db-creds], which the Deployment references, becomes a candidate. *)
Lemma failed_pod_listing_empties_references_witness :
  let w := set_api_faults pods_unavailable (world_of scenario_cluster) in
  let unused := {| unused_secrets := ["db-creds"; "orphan-secret"];
                   unused_configmaps := ["app-config"; "orphan-cm"] |} in
  api_faults w (ListNamespacedPod "ns1") = Some 500
  ∧ (get_resource_references "ns1" w).1 = Ok no_references
  ∧ (@get_unused_resources sample_library "ns1" w).1 = Ok unused
  ∧ "db-creds" ∈ unused_secrets unused.
Proof.
  intros w unused.
  assert (H1 : api_faults w (ListNamespacedPod "ns1") = Some 500)
    by reflexivity.
  assert (H2 : @get_unused_resources sample_library "ns1" w
               = (Ok unused, (@get_unused_resources sample_library "ns1" w).2))
    by (vm_compute; reflexivity).
  destruct (@failed_pod_listing_empties_references sample_library "ns1" w 500
              H1) as [Href Hall].
  split; [exact H1|]. split; [exact Href|]. split; [now rewrite H2|].
  refine (proj1 (Hall unused _ scenario_cutoff H2 _ _)
            (opaque_secret "db-creds" "ns1" (hours_before noon 3)) _ _ _ _).
  - vm_compute. reflexivity.
  - reflexivity.
  - now left.
  - vm_compute. reflexivity.
  - reflexivity.
  - eexists. split; [reflexivity|]. vm_compute. reflexivity.
Defined.


Section Cycle.
Context `{PythonLibrary}.

(** X4.  The timer and the creation of a Cleanup resource each run one
    cycle.  In a started operator the handler logs its record, then the
    cycle starts once, and no patch request is made; the handler raises
    only when [CONFIG['namespaces']] is missing or cannot be iterated, and
    [create_fn] otherwise returns its status message.  Before start-up
    neither handler sends a request: each logs that the cleanup handler is
    not initialised and returns. *)
Theorem timer_and_create_run_one_cycle (w : World) :
  if cleanup_handler w
  then
    (∃ cycle,
       events (cleanup_timer w).2
       = events w ++ Logged INFO TimerTriggered
                  :: Logged INFO StartingCycle :: cycle
       ∧ count is_cycle_start cycle = 0
       ∧ count is_patch_call cycle = 0)
    ∧ (∃ cycle,
         events (create_fn w).2
         = events w ++ Logged INFO CleanupCRCreated
                    :: Logged INFO StartingCycle :: cycle
         ∧ count is_cycle_start cycle = 0
         ∧ count is_patch_call cycle = 0)
    ∧ match CONFIG w !! "namespaces" with
      | None =>
          (cleanup_timer w).1 = Raise (KeyError "namespaces")
          ∧ (create_fn w).1 = Raise (KeyError "namespaces")
      | Some v =>
          match iterate v with
          | Raise e =>
              (cleanup_timer w).1 = Raise e ∧ (create_fn w).1 = Raise e
          | Ok _ =>
              (cleanup_timer w).1 = Ok tt
              ∧ (create_fn w).1 = Ok "Cleanup triggered manually"
          end
      end
  else
    cleanup_timer w
    = (Ok tt, logged WARNING HandlerNotInitialized
                (logged INFO TimerTriggered w))
    ∧ create_fn w
      = (Ok "Cleanup triggered manually",
         logged WARNING HandlerNotInitialized
           (logged INFO CleanupCRCreated w)).
Proof.
  destruct (cleanup_handler w) eqn:Hhandler.
  2:{ rewrite create_fn_unfold, cleanup_timer_unfold.
      unfold perform_cleanup, bind. simpl. rewrite Hhandler. now split. }
  rewrite create_fn_unfold, cleanup_timer_unfold.
  destruct (perform_cleanup_run (logged INFO TimerTriggered w) Hhandler)
    as (res1 & w1 & cycle1 & Hrun1 & Hev1 & Hcycle1 & _ & Hres1).
  destruct (perform_cleanup_run (logged INFO CleanupCRCreated w) Hhandler)
    as (res2 & w2 & cycle2 & Hrun2 & Hev2 & Hcycle2 & _ & Hres2).
  rewrite Hrun1, Hrun2.
  change (CONFIG (logged INFO TimerTriggered w)) with (CONFIG w) in Hres1.
  change (CONFIG (logged INFO CleanupCRCreated w)) with (CONFIG w) in Hres2.
  destruct (within_cycle_count cycle1 Hcycle1) as [Hs1 Hp1].
  destruct (within_cycle_count cycle2 Hcycle2) as [Hs2 Hp2].
  split; [|split].
  - exists cycle1. simpl. rewrite Hev1. simpl.
    now rewrite <- app_assoc.
  - exists cycle2. destruct res2 as [[]|e]; simpl; rewrite Hev2; simpl;
      now rewrite <- app_assoc.
  - destruct (CONFIG w !! "namespaces") as [v|].
    + destruct (iterate v).
      * destruct Hres1 as [-> _], Hres2 as [-> _]. now split.
      * subst res1 res2. now split.
    + subst res1 res2. now split.
Qed.

(** X5.  When [CONFIG['unused_threshold_hours']] is missing or is not a
    number of hours, a cycle of a started operator deletes nothing and
    sends no request: for every configured namespace, in order, it logs
    the start of the cleanup and the error raised by the computation of
    the cutoff; it completes with both totals at zero. *)
Theorem misconfigured_threshold_cycle (w : World) (namespaces : list string)
    (e : exn) :
  cleanup_handler w = true →
  configured_namespaces (CONFIG w) namespaces →
  threshold_error (CONFIG w) = Some e →
  ∃ w',
    perform_cleanup w = (Ok tt, w')
    ∧ events w'
      = events w
        ++ Logged INFO StartingCycle
           :: flat_map (failed_cleanup e) namespaces
        ++ [Logged INFO (CycleCompleted 0 0)]
    ∧ cluster w' = cluster w.
Proof.
  intros Hhandler Hns He.
  destruct (perform_cleanup_unfold w namespaces Hhandler Hns)
    as (total & w1 & Hloop & Hrun).
  destruct (clean_all_threshold e namespaces no_results
              (logged INFO StartingCycle w) He)
    as (w2 & Hloop2 & Hev & Hcl).
  rewrite Hloop in Hloop2. injection Hloop2 as -> ->.
  rewrite Hrun. eexists. split; [reflexivity|]. simpl.
  split; [|exact Hcl].
  rewrite Hev. simpl. now rewrite <- !app_assoc.
Qed.

End Cycle.

(** X5, witness: the threshold was set to a string. *)
Lemma misconfigured_threshold_cycle_witness :
  let w := set_CONFIG (<["unused_threshold_hours" := VStr "1h"]> default_CONFIG)
             (world_of scenario_cluster) in
  cleanup_handler w = true
  ∧ configured_namespaces (CONFIG w) ["default"]
  ∧ threshold_error (CONFIG w) = Some TypeError
  ∧ ∃ w',
      @perform_cleanup sample_library w = (Ok tt, w')
      ∧ events w'
        = [ Logged INFO StartingCycle;
            Logged INFO (StartingCleanup "default");
            Logged ERROR (ErrorCleaningNamespace "default" TypeError);
            Logged INFO (CycleCompleted 0 0) ]
      ∧ cluster w' = cluster w.
Proof.
  intros w.
  assert (H1 : cleanup_handler w = true) by reflexivity.
  assert (H2 : configured_namespaces (CONFIG w) ["default"])
    by (exists (VList ["default"]); split; reflexivity).
  assert (H3 : threshold_error (CONFIG w) = Some TypeError) by reflexivity.
  split; [exact H1|]. split; [exact H2|]. split; [exact H3|].
  exact (@misconfigured_threshold_cycle sample_library w ["default"] TypeError
           H1 H2 H3).
Defined.

Section Frame.
Context `{PythonLibrary}.

(** X6.  With a truthy [CONFIG['dry_run']], a whole cycle changes nothing:
    whatever the server answers and whatever raises on the way,
    [perform_cleanup] leaves the cluster and the configuration as they
    were and sends neither a delete nor a patch request. *)
Theorem dry_run_cycle_changes_nothing (w : World) (v : value) :
  CONFIG w !! "dry_run" = Some v →
  truthy v = true →
  let w' := (perform_cleanup w).2 in
  cluster w' = cluster w
  ∧ CONFIG w' = CONFIG w
  ∧ ∃ new,
      events w' = events w ++ new
      ∧ delete_calls new = []
      ∧ count is_patch_call new = 0.
Proof.
  intros Hv Ht.
  destruct (dry_run_perform_cleanup w) as (Hcl & HC & new & Hnew & Hall);
    [now exists v|].
  split; [exact Hcl|]. split; [exact HC|].
  exists new. split; [exact Hnew|].
  split; [now apply read_only_delete_calls|now apply read_only_patch_calls].
Qed.

End Frame.

(** X6, witness: the dry-run cycle over the namespace of the scenario. *)
Lemma dry_run_cycle_changes_nothing_witness :
  let w := set_CONFIG (<["namespaces" := VList ["ns1"] ]>
                         (<["dry_run" := VStr "false"]> default_CONFIG))
             (world_of scenario_cluster) in
  CONFIG w !! "dry_run" = Some (VStr "false")
  ∧ truthy (VStr "false") = true
  ∧ cluster (@perform_cleanup sample_library w).2 = scenario_cluster.
Proof.
  intros w.
  assert (H1 : CONFIG w !! "dry_run" = Some (VStr "false")) by reflexivity.
  assert (H2 : truthy (VStr "false") = true) by reflexivity.
  split; [exact H1|]. split; [exact H2|].
  exact (proj1 (@dry_run_cycle_changes_nothing sample_library w _ H1 H2)).
Defined.

Section Namespaces.
Context `{PythonLibrary}.

(** X7.  The cleanup only ever removes Secrets and ConfigMaps, and only
    in the namespaces it is run for.  [cleanup_namespace ns] leaves the
    workloads and service accounts as they are, adds and reorders
    nothing, and keeps every Secret and ConfigMap of a namespace other
    than [ns]; a cycle does the same for the namespaces that are not
    configured.  This holds whatever the mode, whatever the server
    answers and whether the call returns or raises. *)
Theorem cleanup_stays_within_namespaces (w : World) :
  (∀ ns, removed_within [ns] (cluster w) (cluster (cleanup_namespace ns w).2))
  ∧ (∀ namespaces,
       configured_namespaces (CONFIG w) namespaces →
       removed_within namespaces (cluster w) (cluster (perform_cleanup w).2)).
Proof.
  split.
  - intros ns. apply (stays_within_cleanup_namespace [ns] ns). now left.
  - intros namespaces Hns.
    destruct (cleanup_handler w) eqn:Hhandler.
    + destruct (perform_cleanup_unfold w namespaces Hhandler Hns)
        as (total & w1 & Hloop & Hrun).
      pose proof (stays_within_clean_all namespaces
                    (no_results, logged INFO StartingCycle w)) as [_ Hrel].
      rewrite Hloop in Hrel. rewrite Hrun. exact Hrel.
    + unfold perform_cleanup, bind. simpl. rewrite Hhandler. simpl.
      reflexivity.
Qed.

End Namespaces.

(** X7, witness: a cycle over [ns1] alone in the cluster with one unused
    Secret in each of [ns1] and [ns2]; the Secret of [ns2] is kept. *)
Lemma cleanup_stays_within_namespaces_witness :
  let w := set_CONFIG (<["namespaces" := VList ["ns1"] ]> default_CONFIG)
             (set_clock slow_clock (world_of two_namespaces_cluster)) in
  configured_namespaces (CONFIG w) ["ns1"]
  ∧ opaque_secret "second" "ns2" half_past_eleven
    ∈ secrets (cluster (@perform_cleanup sample_library w).2).
Proof.
  intros w.
  assert (H1 : configured_namespaces (CONFIG w) ["ns1"])
    by (exists (VList ["ns1"]); split; reflexivity).
  split; [exact H1|].
  destruct (proj2 (@cleanup_stays_within_namespaces sample_library w)
              ["ns1"] H1) as (_ & _ & _ & _ & _ & _ & _ & Hkeep & _).
  apply Hkeep.
  - right. left.
  - intros Hin. apply list_elem_of_In in Hin. destruct Hin as [Heq|[]].
    discriminate Heq.
Defined.

Section LiveMode.
Context `{PythonLibrary}.

(** X8.  In live mode, on a server that accepts the deletions, the
    candidates are gone after [cleanup_namespace]: the Secrets of the
    cluster are those of before without the Secrets of the namespace whose
    name is a candidate, and likewise for the ConfigMaps; no candidate
    exists any more, and nothing else has been removed. *)
Theorem live_cleanup_removes_candidates (ns : string) (w : World) (v : value)
    (unused : Unused) :
  CONFIG w !! "dry_run" = Some v →
  truthy v = false →
  (get_unused_resources ns w).1 = Ok unused →
  (∀ name, name ∈ unused_secrets unused →
     api_faults w (DeleteNamespacedSecret name ns) = None) →
  (∀ name, name ∈ unused_configmaps unused →
     api_faults w (DeleteNamespacedConfigMap name ns) = None) →
  let c' := cluster (cleanup_namespace ns w).2 in
  secrets c'
  = filter (λ s, not_deleted ns (unused_secrets unused) (secret_metadata s))
      (secrets (cluster w))
  ∧ config_maps c'
    = filter (λ m, not_deleted ns (unused_configmaps unused)
                     (config_map_metadata m))
        (config_maps (cluster w))
  ∧ (∀ name, name ∈ unused_secrets unused →
       secret_exists name ns c' = false)
  ∧ (∀ name, name ∈ unused_configmaps unused →
       config_map_exists name ns c' = false).
Proof.
  intros Hv Ht Hclass Hfs Hfc. cbv zeta.
  rewrite cleanup_namespace_unfold.
  pose (w0 := logged INFO (StartingCleanup ns) w).
  destruct (det_get_unused_resources ns w0 w (alike_logged _ _ w))
    as [Hsame _].
  pose proof (get_unused_resources_preserves (keeps setting) ns
                (keeps_datetime_now_utc setting) w0) as Hset.
  fold w0. rewrite Hclass in Hsame.
  destruct (get_unused_resources ns w0) as [res w1].
  simpl in Hsame. subst res. unfold keeps in Hset. simpl in Hset.
  injection Hset as Hcl Hf _ _ _ _ HC _.
  destruct (delete_unused_live ns unused w1 v) as [Hs Hm];
    [now rewrite HC|exact Ht| | |].
  { intros name Hname. rewrite Hf. now apply Hfs. }
  { intros name Hname. rewrite Hf. now apply Hfc. }
  rewrite Hcl in Hs, Hm.
  split; [exact Hs|]. split; [exact Hm|]. split.
  - intros name Hname. unfold secret_exists. rewrite Hs.
    now apply absent_after_deletion.
  - intros name Hname. unfold config_map_exists. rewrite Hm.
    now apply absent_after_deletion.
Qed.

End LiveMode.

(** X8, witness: the live cleanup of the scenario leaves the referenced
    and the excluded resources. *)
Lemma live_cleanup_removes_candidates_witness :
  let w := world_of scenario_cluster in
  CONFIG w !! "dry_run" = Some (VBool false)
  ∧ (@get_unused_resources sample_library "ns1" w).1 = Ok scenario_unused
  ∧ secret_exists "orphan-secret" "ns1"
      (cluster (@cleanup_namespace sample_library "ns1" w).2) = false
  ∧ config_map_exists "orphan-cm" "ns1"
      (cluster (@cleanup_namespace sample_library "ns1" w).2) = false.
Proof.
  intros w.
  assert (H1 : CONFIG w !! "dry_run" = Some (VBool false)) by reflexivity.
  assert (H2 : (@get_unused_resources sample_library "ns1" w).1
               = Ok scenario_unused) by (vm_compute; reflexivity).
  destruct (@live_cleanup_removes_candidates sample_library "ns1" w
              (VBool false) scenario_unused H1 eq_refl H2
              (λ _ _, eq_refl) (λ _ _, eq_refl)) as (_ & _ & Hs & Hm).
  split; [exact H1|]. split; [exact H2|].
  split; [apply Hs; now left|apply Hm; now left].
Defined.

Section Configuration.
Context `{PythonLibrary}.

(** X9.  Loading the configuration never fails and never touches the
    cluster.  [load_config], the start-up handler and the handler of a
    change of the configuration object always return; the only request
    they can send is the read of the configuration object; they leave the
    cluster, the environment and the clock as they were.  After the
    start-up handler the operator is started. *)
Theorem loading_configuration_is_harmless (w : World) :
  ((load_config w).1 = Ok tt ∧ loading w (load_config w).2)
  ∧ ((startup_handler w).1 = Ok tt
     ∧ loading w (startup_handler w).2
     ∧ cleanup_handler (startup_handler w).2 = true)
  ∧ ∀ event_type,
      (config_change_handler event_type w).1 = Ok tt
      ∧ loading w (config_change_handler event_type w).2.
Proof.
  split; [|split].
  - split; [apply load_config_returns|apply loading_load_config].
  - destruct (startup_handler_starts w) as [Hret Hstarted].
    split; [exact Hret|]. split; [apply loading_startup_handler|exact Hstarted].
  - intros event_type.
    split; [apply config_change_handler_returns|].
    apply loading_config_change_handler.
Qed.

End Configuration.

Section Environment.
Context `{PythonLibrary}.

(** X10.  When the in-cluster credentials are missing, or the
    configuration object has no data, or its document does not parse,
    [load_config] leaves [CONFIG] exactly as it was: the environment
    variables are not applied either.  The last record of the log is the
    warning about the failure. *)
Theorem loading_failure_ignores_environment (w : World) :
  loading_stops w →
  CONFIG (load_config w).2 = CONFIG w
  ∧ ∃ e, last (events (load_config w).2)
         = Some (Logged WARNING (FailedToLoadConfig e)).
Proof.
  intros [Hout|(config_map & Hread & Hcase)].
  - unfold load_config, try_except, bind, load_incluster_config.
    rewrite Hout. simpl. split; [reflexivity|].
    exists ConfigException. apply last_snoc.
  - destruct (in_cluster w) eqn:Hin.
    2:{ unfold load_config, try_except, bind, load_incluster_config.
        rewrite Hin. simpl. split; [reflexivity|].
        exists ConfigException. apply last_snoc. }
    pose proof (load_config_in_cluster w Hin) as Hrun. cbv zeta in Hrun.
    destruct Hcase as [Hdata|(d & text & e & Hdata & Hkey & Hyaml & He)].
    + rewrite (load_from_config_map_no_data w _ Hread Hdata) in Hrun.
      simpl in Hrun. rewrite Hrun. split; [reflexivity|].
      exists TypeError. apply last_snoc.
    + rewrite (load_from_config_map_unparsed w _ _ _ _ Hread Hdata Hkey
                 Hyaml), He in Hrun.
      rewrite Hrun. split; [reflexivity|]. exists e. apply last_snoc.
Qed.

(** X11.  When the overrides are reached and [CLEANUP_INTERVAL], if set,
    is an integer literal, the environment wins over the document and over
    the previous configuration: after [load_config], [namespaces] is the
    list of the stripped comma-separated pieces of [CLEANUP_NAMESPACES],
    [cleanup_interval] is the integer of [CLEANUP_INTERVAL], and [dry_run]
    is [True] exactly when [DRY_RUN] is [true] in some letter case, for
    each of these variables that is set. *)
Theorem environment_overrides_win (w : World) :
  overrides_reached w →
  (∀ s, environ w !! "CLEANUP_INTERVAL" = Some s → ∃ n, int s = Ok n) →
  let w' := (load_config w).2 in
  (∀ s, environ w !! "CLEANUP_NAMESPACES" = Some s →
        CONFIG w' !! "namespaces" = Some (VList (map strip (split s ","))))
  ∧ (∀ s n, environ w !! "CLEANUP_INTERVAL" = Some s → int s = Ok n →
            CONFIG w' !! "cleanup_interval" = Some (VInt n))
  ∧ (∀ s, environ w !! "DRY_RUN" = Some s →
          CONFIG w' !! "dry_run"
          = Some (VBool (String.eqb (lower s) "true"))).
Proof.
  intros Hreached Hint. cbv zeta.
  destruct (overrides_reached_run w Hreached) as (w1 & Henv & _ & Hrun).
  rewrite Hrun, override_from_environment_run, Henv. clear Hrun.
  destruct (environ w !! "CLEANUP_INTERVAL") as [s2|] eqn:H2.
  - destruct (Hint s2 eq_refl) as (n2 & Hn2). rewrite Hn2. simpl.
    split; [|split].
    + intros s ->. destruct (environ w !! "DRY_RUN"); by simplify_map_eq.
    + intros s n [= <-] Hn. rewrite Hn2 in Hn. injection Hn as <-.
      destruct (environ w !! "DRY_RUN"); by simplify_map_eq.
    + intros s ->. by simplify_map_eq.
  - simpl. split; [|split].
    + intros s ->. destruct (environ w !! "DRY_RUN"); by simplify_map_eq.
    + intros s n [=].
    + intros s ->. by simplify_map_eq.
Qed.

(** X12.  When the overrides are reached but [CLEANUP_INTERVAL] is not an
    integer literal, [load_config] still returns and logs the error as a
    warning; the override of [namespaces], which comes first, is applied,
    while [cleanup_interval] and [dry_run] stay as the document left them:
    [DRY_RUN] is not looked at. *)
Theorem bad_interval_stops_overrides (w : World) (s : string) (e : exn) :
  overrides_reached w →
  environ w !! "CLEANUP_INTERVAL" = Some s →
  int s = Raise e →
  let w1 := (load_from_config_map w).2 in
  let w' := (load_config w).2 in
  (load_config w).1 = Ok tt
  ∧ last (events w') = Some (Logged WARNING (FailedToLoadConfig e))
  ∧ (∀ s', environ w !! "CLEANUP_NAMESPACES" = Some s' →
           CONFIG w' !! "namespaces"
           = Some (VList (map strip (split s' ","))))
  ∧ CONFIG w' !! "cleanup_interval" = CONFIG w1 !! "cleanup_interval"
  ∧ CONFIG w' !! "dry_run" = CONFIG w1 !! "dry_run".
Proof.
  intros Hreached Hs He. cbv zeta.
  destruct (overrides_reached_run w Hreached) as (w0 & Henv & HC & Hrun).
  rewrite Hrun, override_from_environment_run, Henv, Hs, He. clear Hrun.
  simpl. rewrite <- HC.
  split; [reflexivity|]. split; [apply last_snoc|].
  split; [|split].
  - intros s' ->. by simplify_map_eq.
  - destruct (environ w !! "CLEANUP_NAMESPACES"); by simplify_map_eq.
  - destruct (environ w !! "CLEANUP_NAMESPACES"); by simplify_map_eq.
Qed.

End Environment.

(** X10, witness: the operator before its start-up, with [DRY_RUN=true]
    and a document that does not parse. *)
Lemma loading_failure_ignores_environment_witness :
  @loading_stops sample_library world_before_startup
  ∧ CONFIG (@load_config sample_library world_before_startup).2
    = default_CONFIG.
Proof.
  assert (H1 : @loading_stops sample_library world_before_startup).
  { right. eexists. split; [reflexivity|]. right.
    exists {[ "config.yaml" := "namespaces: [ns1" ]}, "namespaces: [ns1",
      YAMLError.
    repeat split. }
  split; [exact H1|].
  exact (proj1 (@loading_failure_ignores_environment sample_library
                  world_before_startup H1)).
Defined.

(** X11, witness: [DRY_RUN=True] with a document that does not mention
    [dry_run]. *)
Lemma environment_overrides_win_witness :
  let w := world_with_environment {[ "DRY_RUN" := "True" ]} in
  @overrides_reached sample_library w
  ∧ (∀ s, environ w !! "CLEANUP_INTERVAL" = Some s → ∃ n, int s = Ok n)
  ∧ environ w !! "DRY_RUN" = Some "True"
  ∧ CONFIG (@load_config sample_library w).2 !! "dry_run"
    = Some (VBool true).
Proof.
  intros w.
  assert (H1 : @overrides_reached sample_library w).
  { split; [reflexivity|]. right. right. eexists. reflexivity. }
  assert (H2 : ∀ s, environ w !! "CLEANUP_INTERVAL" = Some s →
                    ∃ n, int s = Ok n) by (intros s Hs; discriminate Hs).
  assert (H3 : environ w !! "DRY_RUN" = Some "True") by reflexivity.
  split; [exact H1|]. split; [exact H2|]. split; [exact H3|].
  exact (proj2 (proj2 (@environment_overrides_win sample_library w H1 H2))
           "True" H3).
Defined.

(** X12, witness: [CLEANUP_INTERVAL=1h] next to [DRY_RUN=true]. *)
Lemma bad_interval_stops_overrides_witness :
  let w := world_with_environment
             {[ "CLEANUP_INTERVAL" := "1h"; "DRY_RUN" := "true" ]} in
  @overrides_reached sample_library w
  ∧ environ w !! "CLEANUP_INTERVAL" = Some "1h"
  ∧ int "1h" = Raise ValueError
  ∧ (@load_config sample_library w).1 = Ok tt
  ∧ CONFIG (@load_config sample_library w).2 !! "dry_run"
    = CONFIG (@load_from_config_map sample_library w).2 !! "dry_run".
Proof.
  intros w.
  assert (H1 : @overrides_reached sample_library w).
  { split; [reflexivity|]. right. right. eexists. reflexivity. }
  assert (H2 : environ w !! "CLEANUP_INTERVAL" = Some "1h") by reflexivity.
  assert (H3 : int "1h" = Raise ValueError) by reflexivity.
  split; [exact H1|]. split; [exact H2|]. split; [exact H3|].
  destruct (@bad_interval_stops_overrides sample_library w "1h" ValueError
              H1 H2 H3) as (Hret & _ & _ & _ & Hdry).
  split; [exact Hret|exact Hdry].
Defined.

(** X13.  When the four listings of a namespace are answered, the
    reference set that [get_resource_references] returns is exact.  A name
    is in its Secrets if and only if some Pod of the namespace, or the
    template of some Deployment, DaemonSet or StatefulSet of the namespace,
    names it in a volume, a projected-volume source, a [value_from] of an
    environment variable, an [env_from], an image pull secret, or through
    its service account when that account can be read; a name is in its
    ConfigMaps if and only if one of them names it in a volume, a
    projected-volume source, a [value_from] or an [env_from].  The
    containers are the containers, the init containers and the ephemeral
    containers. *)
Theorem reference_set_is_exact (ns : string) (w : World) :
  (∀ k, api_faults w (list_request k ns) = None) →
  ∃ references,
    (get_resource_references ns w).1 = Ok references
    ∧ (∀ name,
         name ∈ ref_secrets references ↔
         ∃ pod_spec, pod_spec ∈ workload_specs ns w
                     ∧ name ∈ pod_spec_secrets w pod_spec)
    ∧ (∀ name,
         name ∈ ref_configmaps references ↔
         ∃ pod_spec, pod_spec ∈ workload_specs ns w
                     ∧ name ∈ pod_spec_configmaps pod_spec).
Proof.
  intros Hfaults.
  destruct (collects_scan_workloads w ns Hfaults no_references w eq_refl)
    as (references & w' & Hrun & _ & Hsecrets & Hconfigmaps).
  exists references.
  unfold get_resource_references, with_local, bind, try_except.
  rewrite Hrun. split; [reflexivity|]. split; intros name.
  - rewrite Hsecrets, elem_of_flat_map. simpl. rewrite elem_of_empty. tauto.
  - rewrite Hconfigmaps, elem_of_flat_map. simpl. rewrite elem_of_empty.
    tauto.
Qed.

(** X13, witness: the scenario of the specification; [db-creds] is named
    by the [env_from] of the Deployment's container. *)
Lemma reference_set_is_exact_witness :
  let w := world_of scenario_cluster in
  (∀ k, api_faults w (list_request k "ns1") = None)
  ∧ ∃ references,
      (get_resource_references "ns1" w).1 = Ok references
      ∧ "db-creds" ∈ ref_secrets references
      ∧ ("orphan-secret" ∉ ref_secrets references).
Proof.
  intros w.
  assert (H1 : ∀ k, api_faults w (list_request k "ns1") = None)
    by (intros k; reflexivity).
  split; [exact H1|].
  destruct (reference_set_is_exact "ns1" w H1)
    as (references & Href & Hsecrets & _).
  exists references. split; [exact Href|]. split.
  - apply Hsecrets. eexists. split.
    + apply list_elem_of_In. vm_compute. left. reflexivity.
    + apply list_elem_of_In. vm_compute. left. reflexivity.
  - intros Hin. apply Hsecrets in Hin as (pod_spec & Hspec & Hname).
    apply list_elem_of_In in Hspec. vm_compute in Hspec.
    destruct Hspec as [<-|[]].
    apply list_elem_of_In in Hname. vm_compute in Hname.
    destruct Hname as [Heq|[]]. discriminate Heq.
Defined.

Section Safety.
Context `{PythonLibrary}.

(** X14.  A resource that a workload of the namespace references is never
    deleted.  When the four listings of the namespace are answered,
    [cleanup_namespace] sends no delete request for a Secret or a ConfigMap
    that a Pod of the namespace, or the template of one of its Deployments,
    DaemonSets or StatefulSets, names at one of the reference sites:
    whatever its age, whatever the mode and whatever else fails. *)
Theorem referenced_resources_are_never_deleted (ns : string) (w : World)
    (v : value) :
  CONFIG w !! "dry_run" = Some v →
  (∀ k, api_faults w (list_request k ns) = None) →
  ∃ new,
    events (cleanup_namespace ns w).2 = events w ++ new
    ∧ ∀ pod_spec, pod_spec ∈ workload_specs ns w →
        (∀ name, name ∈ pod_spec_secrets w pod_spec →
                 DeleteNamespacedSecret name ns ∉ delete_calls new)
        ∧ (∀ name, name ∈ pod_spec_configmaps pod_spec →
                   DeleteNamespacedConfigMap name ns ∉ delete_calls new).
Proof.
  intros Hdry Hfaults.
  destruct (get_unused_resources ns w) as [[unused|e] w1] eqn:Hclass.
  2:{ destruct (cleanup_namespace_raises_quietly ns w e)
        as (_ & _ & new & Hev & Hnone); [now rewrite Hclass|].
      exists new. split; [exact Hev|]. rewrite Hnone.
      intros pod_spec _. split; intros name _ Hin; inversion Hin. }
  destruct (cleanup_namespace_run ns w v unused Hdry)
    as (results & w' & new & Hrun & Hev & _ & _ & _ & Hmode).
  { now rewrite Hclass. }
  exists new. rewrite Hrun. split; [exact Hev|].
  destruct (candidates_sound ns w unused w1 Hclass)
    as (cutoff_time & references & _ & Href & Hsecrets & Hconfigmaps).
  destruct (collects_scan_workloads w ns Hfaults no_references w eq_refl)
    as (references' & w2 & Hscan & _ & Hrs & Hrc).
  assert (Hsame : references' = references).
  { revert Href. unfold get_resource_references, with_local, bind, try_except.
    rewrite Hscan. simpl. congruence. }
  subst references'.
  intros pod_spec Hspec.
  destruct (truthy v).
  { destruct Hmode as (_ & Hnone & _). rewrite Hnone.
    split; intros name _ Hin; inversion Hin. }
  rewrite Hmode. split; intros name Hname Hin.
  - apply elem_of_app in Hin as [Hin|Hin];
      apply list_elem_of_fmap in Hin as (name' & [= <-] & Hcand).
    destruct (Hsecrets name Hcand) as (s & _ & <- & _ & _ & Hnot & _).
    apply Hnot, Hrs. right. apply elem_of_flat_map. eauto.
  - apply elem_of_app in Hin as [Hin|Hin];
      apply list_elem_of_fmap in Hin as (name' & [= <-] & Hcand).
    destruct (Hconfigmaps name Hcand) as (m & _ & <- & _ & Hnot & _).
    apply Hnot, Hrc. right. apply elem_of_flat_map. eauto.
Qed.

End Safety.

(** X14, witness: the live cleanup of the scenario sends no delete request
    for [db-creds] or [app-config]. *)
Lemma referenced_resources_are_never_deleted_witness :
  let w := world_of scenario_cluster in
  CONFIG w !! "dry_run" = Some (VBool false)
  ∧ (∀ k, api_faults w (list_request k "ns1") = None)
  ∧ ∃ new,
      events (@cleanup_namespace sample_library "ns1" w).2 = events w ++ new
      ∧ (DeleteNamespacedSecret "db-creds" "ns1" ∉ delete_calls new)
      ∧ (DeleteNamespacedConfigMap "app-config" "ns1" ∉ delete_calls new).
Proof.
  intros w.
  assert (H1 : CONFIG w !! "dry_run" = Some (VBool false)) by reflexivity.
  assert (H2 : ∀ k, api_faults w (list_request k "ns1") = None)
    by (intros k; reflexivity).
  split; [exact H1|]. split; [exact H2|].
  destruct (@referenced_resources_are_never_deleted sample_library "ns1" w _
              H1 H2) as (new & Hev & Hall).
  exists new. split; [exact Hev|].
  assert (Hspec : default empty_pod_spec (template_spec scenario_deployment)
                  ∈ workload_specs "ns1" w)
    by (apply list_elem_of_In; vm_compute; left; reflexivity).
  destruct (Hall _ Hspec) as [Hs Hc]. split.
  - apply Hs. apply list_elem_of_In. vm_compute. left. reflexivity.
  - apply Hc. apply list_elem_of_In. vm_compute. left. reflexivity.
Defined.

Section Isolation.
Context `{PythonLibrary}.

(** X15.  A failure in one namespace does not keep the cycle from the
    others, and the totals add up.  A cycle of a started operator returns;
    between the records of its start and of its completion it starts the
    cleanup of every configured namespace exactly once, in the configured
    order, whatever was raised in the namespaces before; and the totals it
    logs are the sums of the counts that the cleanups it completed
    reported. *)
Theorem cycle_attempts_every_namespace (w : World)
    (namespaces : list string) :
  cleanup_handler w = true →
  configured_namespaces (CONFIG w) namespaces →
  ∃ cycle,
    (perform_cleanup w).1 = Ok tt
    ∧ events (perform_cleanup w).2
      = events w
        ++ Logged INFO StartingCycle
           :: cycle
        ++ [Logged INFO (CycleCompleted (completed_secrets cycle)
                           (completed_configmaps cycle))]
    ∧ cleanups_started cycle = namespaces.
Proof.
  intros Hhandler Hns.
  destruct (perform_cleanup_unfold w namespaces Hhandler Hns)
    as (total & w1 & Hloop & Hrun).
  destruct (clean_all_trace namespaces no_results
              (logged INFO StartingCycle w))
    as (total' & w1' & cycle & Hloop' & Hev & Hstarted & Hs & Hc).
  rewrite Hloop in Hloop'. injection Hloop' as <- <-.
  exists cycle. rewrite Hrun. split; [reflexivity|]. split; [|exact Hstarted].
  simpl. rewrite Hev, Hs, Hc. simpl. now rewrite <- !app_assoc.
Qed.

End Isolation.

(** X15, witness: the cycle over the two namespaces; each is started
    once. *)
Lemma cycle_attempts_every_namespace_witness :
  let w := two_namespaces_world in
  cleanup_handler w = true
  ∧ configured_namespaces (CONFIG w) ["ns1"; "ns2"]
  ∧ ∃ cycle,
      (@perform_cleanup sample_library w).1 = Ok tt
      ∧ cleanups_started cycle = ["ns1"; "ns2"].
Proof.
  intros w.
  assert (H1 : cleanup_handler w = true) by reflexivity.
  assert (H2 : configured_namespaces (CONFIG w) ["ns1"; "ns2"])
    by (exists (VList ["ns1"; "ns2"]); split; reflexivity).
  split; [exact H1|]. split; [exact H2|].
  destruct (@cycle_attempts_every_namespace sample_library w _ H1 H2)
    as (cycle & Hret & _ & Hstarted).
  now exists cycle.
Defined.

Section Timestamps.
Context `{PythonLibrary}.

(** X16.  One Secret without a creation timestamp blocks its namespace.
    If a Secret of the namespace that is not excluded, not of a system
    type and not referenced has no creation timestamp, the classification
    raises an exception that [except ApiException] does not catch:
    [get_unused_resources] and [cleanup_namespace] raise, the cluster is
    left as it was, and no delete request is sent for any resource of the
    namespace. *)
Theorem missing_timestamp_blocks_namespace (ns : string) (w : World)
    (cutoff_time : datetime) (references : References) (s : V1Secret) :
  cutoff_of w = Ok cutoff_time →
  (get_resource_references ns w).1 = Ok references →
  api_faults w (ListNamespacedSecret ns) = None →
  s ∈ secrets_in ns w →
  exclusion (CONFIG w) (meta_name (secret_metadata s)) "secret" = Ok false →
  str_in (secret_type s) system_secret_types = false →
  meta_name (secret_metadata s) ∉ ref_secrets references →
  creation_timestamp (secret_metadata s) = None →
  ∃ e,
    (get_unused_resources ns w).1 = Raise e
    ∧ is_ApiException e = false
    ∧ (cleanup_namespace ns w).1 = Raise e
    ∧ cluster (cleanup_namespace ns w).2 = cluster w
    ∧ ∃ new,
        events (cleanup_namespace ns w).2 = events w ++ new
        ∧ delete_calls new = [].
Proof.
  intros Hcut Href Hfault Hin Hex Hty Hnot Hts.
  assert (Hclass : ∃ e, (get_unused_resources ns w).1 = Raise e).
  { unfold get_unused_resources, bind at 1.
    rewrite compute_cutoff_time_run, Hcut.
    pose (w1 := set_clock_reads (S (clock_reads w)) w). fold w1.
    unfold bind at 1.
    destruct (det_get_resource_references same_api ns w w1) as [Hres _];
      [now split|].
    pose proof (get_resource_references_preserves (keeps setting) ns w1)
      as Hset.
    destruct (get_resource_references ns w1) as [r w2].
    simpl in Hres. rewrite Href in Hres. subst r.
    unfold keeps in Hset. simpl in Hset.
    injection Hset as Hcl Hf _ _ _ _ HC _.
    apply (classify_resources_stops ns references cutoff_time w2 s).
    - now rewrite Hf.
    - unfold secrets_in. now rewrite Hcl.
    - intros u w' HC'. rewrite check_secret_run. cbv zeta.
      rewrite HC', HC. change (CONFIG w1) with (CONFIG w).
      rewrite Hex, Hty, bool_decide_eq_false_2 by exact Hnot.
      rewrite Hts. now exists AttributeError. }
  destruct Hclass as (e & He). exists e. split; [exact He|].
  split.
  { destruct (get_unused_resources ns w) as [res w'] eqn:Hrun.
    now apply (get_unused_resources_raises ns w res w' e). }
  destruct (cleanup_namespace_raises_quietly ns w e He)
    as (Hres & Hcl & Hnew).
  split; [exact Hres|]. split; [exact Hcl|exact Hnew].
Qed.

End Timestamps.

(** X16, witness: the old and unused [orphan-secret] is not deleted,
    because [undated] has no creation timestamp. *)
Lemma missing_timestamp_blocks_namespace_witness :
  let w := undated_world in
  let s := opaque_secret "undated" "ns1" None in
  cutoff_of w = Ok scenario_cutoff
  ∧ (get_resource_references "ns1" w).1 = Ok no_references
  ∧ s ∈ secrets_in "ns1" w
  ∧ ∃ e,
      (@get_unused_resources sample_library "ns1" w).1 = Raise e
      ∧ (@cleanup_namespace sample_library "ns1" w).1 = Raise e
      ∧ cluster (@cleanup_namespace sample_library "ns1" w).2 = cluster w.
Proof.
  intros w s.
  assert (H1 : cutoff_of w = Ok scenario_cutoff) by (vm_compute; reflexivity).
  assert (H2 : (get_resource_references "ns1" w).1 = Ok no_references)
    by (vm_compute; reflexivity).
  assert (H3 : s ∈ secrets_in "ns1" w)
    by (apply list_elem_of_In; vm_compute; left; reflexivity).
  split; [exact H1|]. split; [exact H2|]. split; [exact H3|].
  destruct (@missing_timestamp_blocks_namespace sample_library "ns1" w
              scenario_cutoff no_references s H1 H2 eq_refl H3)
    as (e & Hclass & _ & Hrun & Hcl & _).
  - vm_compute. reflexivity.
  - reflexivity.
  - simpl. apply not_elem_of_empty.
  - reflexivity.
  - exists e. split; [exact Hclass|]. split; [exact Hrun|exact Hcl].
Defined.
